(** * SmallTown Writer: the collaboration engine

    A shallow embedding of the collaboration services of the repository:
    operation application, validation and transform from
    [collaborationService.ts]; the session registry of the socket.io server;
    the retry loop of the broker client; the registry check and the presence
    sweeps of the local-storage client in [websocketService.ts].  The
    properties the specification states about them follow the definitions.

    Conventions.  A JavaScript string that is spliced or measured is the
    list of its code units, a [list ascii], and its [length] is
    [List.length].  Identifiers and display names are only compared; they
    are [string]s.  A [number] that holds an index, a length or a time is a
    [Z]; an optional field is an [option], [None] standing for
    [undefined].  Values the code draws from its environment ([Date.now()],
    a random colour, [socket.id]) are arguments.  Handlers that the user
    interface registers with [onMessage] are outside the embedding. *)

From Stdlib Require Import ZArith NArith List Bool String Ascii Lia.
From Stdlib Require Import Sorting.Sorted Sorting.Permutation.
From Stdlib Require Import DecimalString DecimalNat.
Import ListNotations.

Open Scope Z_scope.

(** ** JavaScript primitives used by the services *)

Module JS.

Definition jsstring := list ascii.

Definition str (s : string) : jsstring := list_ascii_of_string s.

Section Substring.
Context {A : Type}.

(** [ToIntegerOrInfinity] followed by the clamp of
    [String.prototype.substring]: [min(max(z, 0), len)]. *)
Definition clampIndex (s : list A) (z : Z) : nat :=
  Z.to_nat (Z.min (Z.max z 0) (Z.of_nat (List.length s))).

(** [s.substring(a, b)]: both ends clamped, swapped when out of order. *)
Definition substring2 (s : list A) (a b : Z) : list A :=
  let intStart := clampIndex s a in
  let intEnd := clampIndex s b in
  let from := Nat.min intStart intEnd in
  let to := Nat.max intStart intEnd in
  firstn (to - from) (skipn from s).

(** [s.substring(a)]: the end defaults to the length. *)
Definition substring1 (s : list A) (a : Z) : list A :=
  substring2 s a (Z.of_nat (List.length s)).
End Substring.

(** Truthiness of an optional string: defined and not empty. *)
Definition truthyString (o : option jsstring) : bool :=
  match o with
  | Some (_ :: _) => true
  | _ => false
  end.

(** Truthiness of an optional identifier. *)
Definition truthyId (o : option string) : bool :=
  match o with
  | Some s => negb (String.eqb s EmptyString)
  | None => false
  end.

(** Truthiness of an optional integer: defined and not zero. *)
Definition truthyNum (o : option Z) : bool :=
  match o with
  | Some n => negb (n =? 0)
  | None => false
  end.

(** [o || d] on an optional integer. *)
Definition orNum (o : option Z) (d : Z) : Z :=
  match o with
  | Some n => if n =? 0 then d else n
  | None => d
  end.

(** [(o || '').length]. *)
Definition orEmptyLength (o : option jsstring) : Z :=
  match o with
  | Some t => Z.of_nat (List.length t)
  | None => 0
  end.

(** [a <= b] and [a < b] on possibly undefined numbers: an undefined
    operand converts to NaN and every comparison with NaN is false. *)
Definition leNum (a b : option Z) : bool :=
  match a, b with
  | Some x, Some y => x <=? y
  | _, _ => false
  end.

Definition ltNum (a b : option Z) : bool :=
  match a, b with
  | Some x, Some y => x <? y
  | _, _ => false
  end.

(** [String.prototype.toLowerCase] on strings of ASCII characters, the
    instance used in the worked examples. *)
Definition lowerAscii (c : ascii) : ascii :=
  let n := nat_of_ascii c in
  if ((65 <=? n) && (n <=? 90))%nat then ascii_of_nat (n + 32) else c.

Fixpoint toLowerASCII (s : string) : string :=
  match s with
  | EmptyString => EmptyString
  | String c rest => String (lowerAscii c) (toLowerASCII rest)
  end.

End JS.

(** ** [TextOperation] *)

Inductive OpType := insert | delete | sync | retry.

Module Op.
Record t := mk {
  type : OpType;
  userId : string;
  position : option Z;
  text : option JS.jsstring;
  length : option Z;
  content : option JS.jsstring;
  timestamp : option Z;
  fromUserId : option string
}.

Definition withPosition (p : option Z) (o : t) : t :=
  mk (type o) (userId o) p (text o) (length o) (content o)
     (timestamp o) (fromUserId o).

Definition withTimestamp (ts : option Z) (o : t) : t :=
  mk (type o) (userId o) (position o) (text o) (length o) (content o)
     ts (fromUserId o).
End Op.

Definition TextOperation := Op.t.

(** ** [collaborationService.ts]: sessions, operations, validation, transform *)

Module Collab.
Import JS.

(** [applyOperation].  The three branches test distinct [type]s, so the
    [else if] chain is a match on the type; a branch whose guard fails falls
    through to the final [return content]. *)
Definition applyOperation (content : jsstring) (operation : TextOperation)
  : jsstring :=
  match Op.type operation with
  | insert =>
      match Op.text operation, Op.position operation with
      | Some t, Some position =>
          if truthyString (Some t) then
            substring2 content 0 position ++ t ++ substring1 content position
          else content
      | _, _ => content
      end
  | delete =>
      match Op.length operation, Op.position operation with
      | Some len, Some position =>
          if truthyNum (Some len) then
            substring2 content 0 position
              ++ substring1 content (position + len)
          else content
      | _, _ => content
      end
  | sync =>
      match Op.content operation with
      | Some c => if truthyString (Some c) then c else content
      | None => content
      end
  | retry => content
  end.

(** Replaying a list of operations in order against a content. *)
Definition replay (content : jsstring) (ops : list TextOperation)
  : jsstring :=
  fold_left applyOperation ops content.

(** A [CollaborationSession]; of its users only the identifiers matter to
    the functions embedded here. *)
Record CollaborationSession := {
  id : string;
  documentId : string;
  users : list string;
  content : jsstring;
  operations : list TextOperation
}.

(** The module-level [sessions] record, keyed by session id. *)
Definition Sessions := string -> option CollaborationSession.

Definition setSession (k : string) (v : CollaborationSession) (m : Sessions)
  : Sessions :=
  fun k' => if String.eqb k k' then Some v else m k'.

(** [executeOperation]: stamps the operation with [Date.now()], applies it
    and appends it to the history; [null] when the session does not exist. *)
Definition executeOperation (now : Z) (sessions : Sessions)
    (sessionId : string) (operation : TextOperation)
  : option TextOperation * Sessions :=
  match sessions sessionId with
  | None => (None, sessions)
  | Some session =>
      let fullOperation := Op.withTimestamp (Some now) operation in
      let session' :=
        {| id := id session;
           documentId := documentId session;
           users := users session;
           content := applyOperation (content session) fullOperation;
           operations := operations session ++ [fullOperation] |} in
      (Some fullOperation, setSession sessionId session' sessions)
  end.

(** The two reasons [validateOperation] can give. *)
Inductive Reason :=
| MissingTimestamp
| ConflictsWith (count : nat).

Record OperationValidationResult := {
  isValid : bool;
  reason : option Reason
}.

(** The guard shared by [validateOperation] and [transformOperation]:
    [a.fromUserId && b.fromUserId && a.fromUserId === b.fromUserId]. *)
Definition sameFromUser (a b : TextOperation) : bool :=
  truthyId (Op.fromUserId a) && truthyId (Op.fromUserId b) &&
  match Op.fromUserId a, Op.fromUserId b with
  | Some x, Some y => String.eqb x y
  | _, _ => false
  end.

(** The predicate of the [filter] in [validateOperation]. *)
Definition conflictsWith (incomingOp existingOp : TextOperation) : bool :=
  if sameFromUser existingOp incomingOp then false
  else
    let existingTimestamp := orNum (Op.timestamp existingOp) 0 in
    let incomingTimestamp := orNum (Op.timestamp incomingOp) 0 in
    Z.abs (existingTimestamp - incomingTimestamp) <? 1000.

Definition validateOperation (incomingOp : TextOperation)
    (existingOps : list TextOperation) : OperationValidationResult :=
  match existingOps with
  | [] => {| isValid := true; reason := None |}
  | _ :: _ =>
      if negb (truthyNum (Op.timestamp incomingOp)) then
        {| isValid := false; reason := Some MissingTimestamp |}
      else
        let conflictingOps := filter (conflictsWith incomingOp) existingOps in
        if (0 <? List.length conflictingOps)%nat then
          {| isValid := false;
             reason := Some (ConflictsWith (List.length conflictingOps)) |}
        else {| isValid := true; reason := None |}
  end.

(** [[...existingOps].sort((a, b) => (a.timestamp || 0) - (b.timestamp || 0))].
    [Array.prototype.sort] is stable, so the sorted array is the stable
    insertion sort on the key. *)
Definition sortKey (o : TextOperation) : Z := orNum (Op.timestamp o) 0.

Fixpoint insertByKey (x : TextOperation) (l : list TextOperation)
  : list TextOperation :=
  match l with
  | [] => [x]
  | y :: rest =>
      if sortKey x <=? sortKey y then x :: y :: rest
      else y :: insertByKey x rest
  end.

Definition sortOps (l : list TextOperation) : list TextOperation :=
  fold_right insertByKey [] l.

(** The order the comparator of the sort induces. *)
Definition keyLe (a b : TextOperation) : Prop := sortKey a <= sortKey b.

(** [transformedOp.position += d]. *)
Definition shiftPosition (d : Z) (o : TextOperation) : TextOperation :=
  Op.withPosition (option_map (fun p => p + d) (Op.position o)) o.

(** The body of the [for] loop of [transformOperation]. *)
Definition transformStep (transformedOp existingOp : TextOperation)
  : TextOperation :=
  if sameFromUser existingOp transformedOp then transformedOp
  else
    match Op.type existingOp, Op.type transformedOp with
    | insert, insert =>
        if leNum (Op.position existingOp) (Op.position transformedOp)
        then shiftPosition (orEmptyLength (Op.text existingOp)) transformedOp
        else transformedOp
    | delete, insert =>
        if ltNum (Op.position existingOp) (Op.position transformedOp)
        then shiftPosition (- orNum (Op.length existingOp) 0) transformedOp
        else transformedOp
    | insert, delete =>
        if leNum (Op.position existingOp) (Op.position transformedOp)
        then shiftPosition (orEmptyLength (Op.text existingOp)) transformedOp
        else transformedOp
    | delete, delete =>
        if ltNum (Op.position existingOp) (Op.position transformedOp)
        then shiftPosition (- orNum (Op.length existingOp) 0) transformedOp
        else transformedOp
    | _, _ => transformedOp
    end.

Definition transformOperation (incomingOp : TextOperation)
    (existingOps : list TextOperation) : TextOperation :=
  match existingOps with
  | [] => incomingOp
  | _ :: _ => fold_left transformStep (sortOps existingOps) incomingOp
  end.

(** The content update of [WebSocketClient.sendOperation] in
    [websocketService.ts], with its two helpers. *)
Definition applyInsert (content : jsstring) (position : Z) (text : jsstring)
  : jsstring :=
  substring2 content 0 position ++ text ++ substring1 content position.

Definition applyDelete (content : jsstring) (position : Z) (len : Z)
  : jsstring :=
  substring2 content 0 position ++ substring1 content (position + len).

Definition sendOperationContent (content : jsstring)
    (operation : TextOperation) : jsstring :=
  match Op.type operation with
  | insert =>
      match Op.text operation, Op.position operation with
      | Some t, Some position =>
          if truthyString (Some t) then applyInsert content position t
          else content
      | _, _ => content
      end
  | delete =>
      match Op.length operation, Op.position operation with
      | Some len, Some position =>
          if truthyNum (Some len) then applyDelete content position len
          else content
      | _, _ => content
      end
  | sync =>
      match Op.content operation with
      | Some c => if truthyString (Some c) then c else content
      | None => content
      end
  | retry => content
  end.

End Collab.

(** ** The specification's vocabulary for operations

    Definitions that follow the words of the specification, to be compared
    with the functions of the source. *)

Module Stated.
Import JS.

(** The content with [t] spliced in at index [p]: the characters before
    index [p], then [t], then the characters from index [p] on. *)
Definition spliceAt (p : Z) (t content : jsstring) : jsstring :=
  firstn (Z.to_nat p) content ++ t ++ skipn (Z.to_nat p) content.

(** The content without the characters whose index [i] satisfies
    [p <= i < p + n]; [i] is the index of the head of the list. *)
Fixpoint removeFrom (i p n : Z) (content : jsstring) : jsstring :=
  match content with
  | [] => []
  | c :: rest =>
      if (p <=? i) && (i <? p + n) then removeFrom (i + 1) p n rest
      else c :: removeFrom (i + 1) p n rest
  end.

Definition removeChars (p n : Z) (content : jsstring) : jsstring :=
  removeFrom 0 p n content.

(** The shift of the transform as one sum over the prior operations: plus
    the text length of every prior insert at or before the incoming
    position, minus the length of every prior delete before it. *)
Definition shiftOf (p : Z) (prior : TextOperation) : Z :=
  match Op.type prior with
  | insert =>
      if leNum (Op.position prior) (Some p)
      then orEmptyLength (Op.text prior) else 0
  | delete =>
      if ltNum (Op.position prior) (Some p)
      then - orNum (Op.length prior) 0 else 0
  | _ => 0
  end.

Definition shiftedPosition (p : Z) (recentOps : list TextOperation) : Z :=
  fold_left (fun acc prior => acc + shiftOf p prior) recentOps p.

(** The same shifts taken one prior operation after the other, each
    compared with the position as the earlier ones have left it. *)
Definition shiftAgainst (p : Z) (prior : TextOperation) : Z :=
  p + shiftOf p prior.

Definition runningPosition (p : Z) (priors : list TextOperation) : Z :=
  fold_left shiftAgainst priors p.

(** Two operations originate from the same user: their [userId]s agree. *)
Definition sameUser (a b : TextOperation) : bool :=
  String.eqb (Op.userId a) (Op.userId b).

End Stated.

(** ** The session registry of the socket.io server *)

Module Server.
Import JS.

Definition MAX_USERS_PER_SESSION : nat := 8.

Inductive Status := active | away | online | offline.

Record CursorPosition := {
  position : Z;
  line : Z;
  column : Z
}.

Record Selection := {
  selStart : CursorPosition;
  selEnd : CursorPosition
}.

Module User.
Record t := mk {
  id : string;
  name : string;
  color : string;
  status : Status;
  lastActive : Z;
  socketId : option string;
  cursorPosition : option CursorPosition;
  selection : option Selection
}.
End User.

Module Session.
Record t := mk {
  id : string;
  users : list User.t;
  content : jsstring;
  lastUpdated : Z
}.
End Session.

(** The [error] of a failed [connection_ack]: the source sends the three
    messages "会话人数已达到上限", "用户名已被使用" and "加入会话失败"; the
    specification names the first two [SessionFull] and [NameTaken]. *)
Inductive JoinError := SessionFull | NameTaken | JoinFailed.

Inductive Ack :=
| AckSuccess (sessionId userId : string)
| AckFailure (error : JoinError).

(** What a handler emits; the envelope's [timestamp] and [messageId] are
    fresh values and are left out. *)
Inductive Payload :=
| JoinMessage (user : User.t)
| SyncMessage (users : list User.t) (content : option jsstring)
| LeaveMessage (userId : string).

Inductive Emit :=
| ToRoom (sessionId : string) (m : Payload)
| ToSocket (m : Payload)
| ConnectionAck (a : Ack).

(** [Array.prototype.findIndex], with [None] for [-1]. *)
Fixpoint findIndex {A : Type} (p : A -> bool) (l : list A) : option nat :=
  match l with
  | [] => None
  | x :: rest =>
      if p x then Some O else option_map S (findIndex p rest)
  end.

(** [l[i] = x] for an index inside the array. *)
Fixpoint setAt {A : Type} (i : nat) (x : A) (l : list A) : list A :=
  match l, i with
  | [], _ => []
  | _ :: rest, O => x :: rest
  | y :: rest, S j => y :: setAt j x rest
  end.

(** [l.splice(i, 1)]. *)
Fixpoint removeAt {A : Type} (i : nat) (l : list A) : list A :=
  match l, i with
  | [], _ => []
  | _ :: rest, O => rest
  | y :: rest, S j => y :: removeAt j rest
  end.

(** The payload of a [join] event and the values the handler draws from its
    environment: [Date.now()], [generateRandomColor()] and [socket.id]. *)
Record JoinData := {
  sessionId : string;
  userId : string;
  userName : string
}.

Record Env := {
  now : Z;
  userColor : string;
  socket : string
}.

Section Registry.

(** [String.prototype.toLowerCase], a library function of the host. *)
Variable toLowerCase : string -> string.

Definition isDuplicateName (users : list User.t) (userId userName : string)
  : bool :=
  existsb
    (fun u =>
       String.eqb (toLowerCase (User.name u)) (toLowerCase userName)
       && negb (String.eqb (User.id u) userId))
    users.

(** [{...existing, ...user}]: the six fields of the fresh [user] override,
    the cursor and the selection of the existing entry survive. *)
Definition mergeUser (existing user : User.t) : User.t :=
  User.mk (User.id user) (User.name user) (User.color user)
          (User.status user) (User.lastActive user) (User.socketId user)
          (User.cursorPosition existing) (User.selection existing).

(** The [join] handler on the session it found or created: the session
    afterwards, the user it stored in [currentUser] on success, and what it
    emitted. *)
Definition joinSession (session : Session.t) (data : JoinData) (env : Env)
  : Session.t * option User.t * list Emit :=
  if (MAX_USERS_PER_SESSION <=? List.length (Session.users session))%nat then
    (session, None, [ConnectionAck (AckFailure SessionFull)])
  else if isDuplicateName (Session.users session) (userId data) (userName data)
  then
    (session, None, [ConnectionAck (AckFailure NameTaken)])
  else
    let existingUserIndex :=
      findIndex (fun u => String.eqb (User.id u) (userId data))
                (Session.users session) in
    let user :=
      User.mk (userId data) (userName data) (userColor env) active (now env)
              (Some (socket env)) None None in
    let users' :=
      match existingUserIndex with
      | Some i =>
          match nth_error (Session.users session) i with
          | Some existing =>
              setAt i (mergeUser existing user) (Session.users session)
          | None => Session.users session
          end
      | None => Session.users session ++ [user]
      end in
    let session' :=
      Session.mk (Session.id session) users' (Session.content session)
                 (Session.lastUpdated session) in
    (session', Some user,
     [ToRoom (sessionId data) (JoinMessage user);
      ToSocket (SyncMessage users' (Some (Session.content session)));
      ConnectionAck (AckSuccess (sessionId data) (userId data))]).

(** The [disconnect] handler on the session of the socket: the user the
    socket joined as is spliced out and a [leave] and a [sync] go to the
    room. *)
Definition leaveSession (session : Session.t) (currentUserId : string)
  : Session.t * list Emit :=
  match findIndex (fun u => String.eqb (User.id u) currentUserId)
                  (Session.users session) with
  | Some userIndex =>
      let users' := removeAt userIndex (Session.users session) in
      (Session.mk (Session.id session) users' (Session.content session)
                  (Session.lastUpdated session),
       [ToRoom (Session.id session) (LeaveMessage currentUserId);
        ToRoom (Session.id session) (SyncMessage users' None)])
  | None => (session, [])
  end.

(** The server: the global [sessions] record and, per socket, the two
    variables its connection closure holds. *)
Record Socket := {
  currentUser : option User.t;
  currentSessionId : option string
}.

Record State := {
  sessions : string -> option Session.t;
  sockets : string -> Socket
}.

Definition initial : State :=
  {| sessions := fun _ => None;
     sockets := fun _ => {| currentUser := None; currentSessionId := None |} |}.

Definition update {V : Type} (k : string) (v : V) (m : string -> V)
  : string -> V :=
  fun k' => if String.eqb k k' then v else m k'.

Inductive Event :=
| Join (data : JoinData) (env : Env)
| Disconnect (socketId : string)
| CreateSession (sessionId : string) (content : jsstring) (now : Z).

(** One inbound event; the event loop handles them one at a time. *)
Definition step (st : State) (ev : Event) : State * list Emit :=
  match ev with
  | Join data env =>
      let session :=
        match sessions st (sessionId data) with
        | Some s => s
        | None => Session.mk (sessionId data) [] [] (now env)
        end in
      let '(session', joined, out) := joinSession session data env in
      let sockets' :=
        match joined with
        | Some user =>
            update (socket env)
                   {| currentUser := Some user;
                      currentSessionId := Some (sessionId data) |}
                   (sockets st)
        | None => sockets st
        end in
      ({| sessions := update (sessionId data) (Some session') (sessions st);
          sockets := sockets' |}, out)
  | Disconnect sock =>
      match currentSessionId (sockets st sock), currentUser (sockets st sock)
      with
      | Some sid, Some user =>
          if truthyId (Some sid) then
            match sessions st sid with
            | Some session =>
                let '(session', out) := leaveSession session (User.id user) in
                ({| sessions := update sid (Some session') (sessions st);
                    sockets := sockets st |}, out)
            | None => (st, [])
            end
          else (st, [])
      | _, _ => (st, [])
      end
  | CreateSession sid content now =>
      match sessions st sid with
      | Some _ => (st, [])
      | None =>
          ({| sessions :=
                update sid (Some (Session.mk sid [] content now)) (sessions st);
              sockets := sockets st |}, [])
      end
  end.

Definition run (st : State) (events : list Event) : State :=
  fold_left (fun s ev => fst (step s ev)) events st.

(** The acknowledgement among the emitted messages, if any. *)
Fixpoint ackOf (out : list Emit) : option Ack :=
  match out with
  | [] => None
  | ConnectionAck a :: _ => Some a
  | _ :: rest => ackOf rest
  end.

(** Readings of a [join]: the participant list it leaves and the
    acknowledgement it sends. *)
Definition usersAfterJoin (session : Session.t) (data : JoinData) (env : Env)
  : list User.t :=
  Session.users (fst (fst (joinSession session data env))).

Definition ackAfterJoin (session : Session.t) (data : JoinData) (env : Env)
  : option Ack :=
  ackOf (snd (joinSession session data env)).

End Registry.


End Server.

(** ** The broker client: [connect] and its retry loop

    [connectWithRetry] arms timers and socket listeners whose callbacks
    run later, in the event loop; several attempts can be under way at
    once, since neither the socket nor the five second timer of an attempt
    is disposed of when the attempt fails.  The embedding keeps the agenda
    of the callbacks that wait and runs them in the order of their times.
    It follows the first [connect] of a client (not connected, no session,
    nothing under way) up to the moment its promise is settled; the steps
    that lead out of [connectWithRetry] and [handleConnectionFailure]
    ([disconnect()], [reconnectWithDelay]) are marked [Unmodelled], and no
    run of such a [connect] reaches them.  The counter [retryCount] is
    written and never read; it is left out. *)

Module Broker.
Import JS.

Definition maxRetries : nat := 3.

(** The events of the socket an attempt opens that [connectWithRetry]
    listens to ([message] is passed on to the message handlers). *)
Inductive SocketEvent :=
| OnConnect
| OnConnectionAck (success : bool) (error : option Server.JoinError)
| OnError
| OnDisconnect.

(** What [io(serverUrl)] does for an attempt: it throws, or it returns a
    socket whose events arrive so many milliseconds after the attempt
    began.  The socket is never closed, so its events may arrive at any
    time. *)
Inductive Behaviour :=
| Throws
| Opens (events : list (N * SocketEvent)).

(** The callbacks waiting in the event loop: a listener of the socket of
    an attempt, the five second timer of an attempt, and the one second
    timer of [handleConnectionFailure]; each closes over the [retriesLeft]
    of its attempt. *)
Inductive Callback :=
| SocketCallback (attempt retriesLeft : nat) (e : SocketEvent)
| ConnectionTimer (attempt retriesLeft : nat)
| RetryTimer (retriesLeft : nat).

(** Why [handleConnectionFailure] is called: a [connection_ack] whose
    [success] is false, the [error] event of the socket, the five second
    timer finding the client not connected, or the [catch] of the
    attempt. *)
Inductive Cause :=
| Refused (error : option Server.JoinError)
| TransportError
| TimedOut
| Thrown.

(** What the client does, with the time at which it does it. *)
Inductive Action :=
| Attempt (attempt retriesLeft : nat)
| JoinEmitted (socket : nat)
| Accepted (attempt : nat)
| Failure (attempt retriesLeft : nat) (cause : Cause)
| Resolve (value : bool).

Inductive Status :=
| Pending
| Resolved (value : bool)
| Unmodelled.

Record State := {
  clock : Z;
  connected : bool;
  sessionId : option string;
  reconnecting : bool;
  socket : option nat;
  attemptsMade : nat;
  agenda : list (Z * Callback);
  log : list (Z * Action);
  status : Status
}.

Definition initial : State :=
  {| clock := 0; connected := false; sessionId := None;
     reconnecting := false; socket := None; attemptsMade := O;
     agenda := []; log := []; status := Pending |}.

Definition setClock (t : Z) (st : State) : State :=
  {| clock := t; connected := connected st; sessionId := sessionId st;
     reconnecting := reconnecting st; socket := socket st;
     attemptsMade := attemptsMade st; agenda := agenda st; log := log st;
     status := status st |}.

Definition setConnected (b : bool) (st : State) : State :=
  {| clock := clock st; connected := b; sessionId := sessionId st;
     reconnecting := reconnecting st; socket := socket st;
     attemptsMade := attemptsMade st; agenda := agenda st; log := log st;
     status := status st |}.

Definition setSessionId (s : option string) (st : State) : State :=
  {| clock := clock st; connected := connected st; sessionId := s;
     reconnecting := reconnecting st; socket := socket st;
     attemptsMade := attemptsMade st; agenda := agenda st; log := log st;
     status := status st |}.

Definition setReconnecting (b : bool) (st : State) : State :=
  {| clock := clock st; connected := connected st; sessionId := sessionId st;
     reconnecting := b; socket := socket st;
     attemptsMade := attemptsMade st; agenda := agenda st; log := log st;
     status := status st |}.

Definition setSocket (s : option nat) (st : State) : State :=
  {| clock := clock st; connected := connected st; sessionId := sessionId st;
     reconnecting := reconnecting st; socket := s;
     attemptsMade := attemptsMade st; agenda := agenda st; log := log st;
     status := status st |}.

Definition setAttemptsMade (n : nat) (st : State) : State :=
  {| clock := clock st; connected := connected st; sessionId := sessionId st;
     reconnecting := reconnecting st; socket := socket st;
     attemptsMade := n; agenda := agenda st; log := log st;
     status := status st |}.

Definition setAgenda (a : list (Z * Callback)) (st : State) : State :=
  {| clock := clock st; connected := connected st; sessionId := sessionId st;
     reconnecting := reconnecting st; socket := socket st;
     attemptsMade := attemptsMade st; agenda := a; log := log st;
     status := status st |}.

Definition setStatus (s : Status) (st : State) : State :=
  {| clock := clock st; connected := connected st; sessionId := sessionId st;
     reconnecting := reconnecting st; socket := socket st;
     attemptsMade := attemptsMade st; agenda := agenda st; log := log st;
     status := s |}.

(** The client does [a] now. *)
Definition record (a : Action) (st : State) : State :=
  {| clock := clock st; connected := connected st; sessionId := sessionId st;
     reconnecting := reconnecting st; socket := socket st;
     attemptsMade := attemptsMade st; agenda := agenda st;
     log := log st ++ [(clock st, a)]; status := status st |}.

(** The event loop runs the callbacks in the order of their times, and
    those due at the same time in the order they were scheduled. *)
Fixpoint schedule (due : Z) (c : Callback) (waiting : list (Z * Callback))
  : list (Z * Callback) :=
  match waiting with
  | [] => [(due, c)]
  | (t, c') :: rest =>
      if t <=? due then (t, c') :: schedule due c rest
      else (due, c) :: (t, c') :: rest
  end.

(** [setTimeout(c, delay)], and the arrival of a socket event. *)
Definition after (delay : Z) (c : Callback) (st : State) : State :=
  setAgenda (schedule (clock st + delay) c (agenda st)) st.

(** [resolve(value)]: every attempt hands its promise to the one it
    retries ([.then(resolve)]), so the first [resolve] of any attempt
    settles the promise [connect] returned; later ones do nothing. *)
Definition resolve (value : bool) (st : State) : State :=
  match status st with
  | Pending => setStatus (Resolved value) (record (Resolve value) st)
  | _ => st
  end.

(** The code goes on outside [connectWithRetry] and
    [handleConnectionFailure]. *)
Definition beyond (st : State) : State :=
  match status st with
  | Pending => setStatus Unmodelled st
  | _ => st
  end.

(** [handleConnectionFailure]: with retries left, a timer of one second
    that calls [connectWithRetry] with one retry fewer and hands it the
    promise; otherwise [resolve(false)].  It is not told why the attempt
    failed. *)
Definition handleConnectionFailure (retriesLeft : nat) (st : State) : State :=
  match retriesLeft with
  | S r => after 1000 (RetryTimer r) st
  | O => resolve false st
  end.

Section Client.

(** The [sessionId] the caller asks for, and what the [n]-th call of
    [io] does. *)
Variable sessionId0 : string.
Variable behaviour : nat -> Behaviour.

Definition listen (attempt retriesLeft : nat) (events : list (N * SocketEvent))
    (st : State) : State :=
  fold_left
    (fun s de =>
       after (Z.of_N (fst de)) (SocketCallback attempt retriesLeft (snd de)) s)
    events st.

(** One call of [connectWithRetry].  With [this.connected] false both
    [isConnected()] tests fail; with [this.connected] true they depend on
    the socket, and [disconnect()] may run. *)
Definition connectWithRetry (retriesLeft : nat) (st : State) : State :=
  let attempt := attemptsMade st in
  let st1 := record (Attempt attempt retriesLeft)
                    (setAttemptsMade (S attempt) st) in
  if connected st1 then beyond st1
  else
    match behaviour attempt with
    | Throws =>
        handleConnectionFailure
          retriesLeft
          (record (Failure attempt retriesLeft Thrown)
                  (setConnected false st1))
    | Opens events =>
        after 5000 (ConnectionTimer attempt retriesLeft)
              (listen attempt retriesLeft events
                      (setSocket (Some attempt) st1))
    end.

(** The callbacks: the listeners of [connect], [connection_ack], [error]
    and [disconnect], the five second timer, and the retry timer. *)
Definition runCallback (c : Callback) (st : State) : State :=
  match c with
  | RetryTimer retriesLeft => connectWithRetry retriesLeft st
  | ConnectionTimer attempt retriesLeft =>
      if negb (connected st) then
        handleConnectionFailure
          retriesLeft (record (Failure attempt retriesLeft TimedOut) st)
      else st
  | SocketCallback attempt retriesLeft e =>
      match e with
      | OnConnect =>
          match socket st with
          | Some s => record (JoinEmitted s) st
          | None => st
          end
      | OnConnectionAck true _ =>
          resolve true
            (record (Accepted attempt)
               (setReconnecting false
                  (setSessionId (Some sessionId0) (setConnected true st))))
      | OnConnectionAck false error =>
          handleConnectionFailure
            retriesLeft
            (record (Failure attempt retriesLeft (Refused error))
                    (setConnected false st))
      | OnError =>
          handleConnectionFailure
            retriesLeft
            (record (Failure attempt retriesLeft TransportError) st)
      | OnDisconnect =>
          let st1 := setConnected false st in
          if truthyId (sessionId st1) && negb (reconnecting st1)
          then beyond (setReconnecting true st1)
          else st1
      end
  end.

(** One turn of the event loop: the callback [c], due at [t], is taken
    from the agenda and run. *)
Definition turn (t : Z) (c : Callback) (rest : list (Z * Callback))
    (st : State) : State :=
  runCallback c (setClock t (setAgenda rest st)).

(** The event loop, for at most [fuel] callbacks, up to the moment the
    promise is settled. *)
Fixpoint run (fuel : nat) (st : State) : State :=
  match fuel with
  | O => st
  | S fuel' =>
      match status st, agenda st with
      | Pending, (t, c) :: rest => run fuel' (turn t c rest st)
      | _, _ => st
      end
  end.

(** [connect] on a client that is not connected and holds no session. *)
Definition connect (fuel : nat) : State :=
  run fuel (connectWithRetry maxRetries initial).

End Client.

(** ** Readings of a run *)

Definition eventCount (b : Behaviour) : nat :=
  match b with
  | Throws => O
  | Opens events => List.length events
  end.

(** Callbacks that a waiting callback can still cause, itself included,
    when no socket has more than [bound] events: a number of callbacks
    that is enough to run the event loop dry. *)
Fixpoint retryWeight (bound retriesLeft : nat) : nat :=
  match retriesLeft with
  | O => S (S bound)
  | S r => S (S bound * S (retryWeight bound r))
  end.

Definition callbackWeight (bound : nat) (c : Callback) : nat :=
  match c with
  | RetryTimer r => retryWeight bound r
  | ConnectionTimer _ O | SocketCallback _ O _ => 1
  | ConnectionTimer _ (S r) | SocketCallback _ (S r) _ =>
      S (retryWeight bound r)
  end.

Definition agendaWeight (bound : nat) (waiting : list (Z * Callback)) : nat :=
  list_sum (map (fun x => callbackWeight bound (snd x)) waiting).

Definition enoughFuel (bound : nat) : nat := retryWeight bound maxRetries.

(** The callbacks wait in the order of their times. *)
Fixpoint ordered (waiting : list (Z * Callback)) : Prop :=
  match waiting with
  | [] => True
  | x :: rest => Forall (fun y => fst x <= fst y) rest /\ ordered rest
  end.

(** The latest time at which a timer of an attempt with [retriesLeft]
    retries left can be due when every attempt before it ran into its five
    second timer. *)
Definition deadline (retriesLeft : nat) : Z :=
  6000 * (3 - Z.of_nat retriesLeft).

(** ** The effect of one callback

    What a callback that runs while the promise is pending and the client
    is not connected adds to the log and to the agenda. *)

Section Effect.

Variable behaviour : nat -> Behaviour.

Definition beginningOf (c : Callback) (made : nat) : option (nat * nat) :=
  match c with
  | RetryTimer r => Some (made, r)
  | _ => None
  end.

Definition acceptanceOf (c : Callback) : option nat :=
  match c with
  | SocketCallback k _ (OnConnectionAck true _) => Some k
  | _ => None
  end.

Definition failureOf (c : Callback) (made : nat)
  : option (nat * nat * Cause) :=
  match c with
  | RetryTimer r =>
      match behaviour made with
      | Throws => Some (made, r, Thrown)
      | Opens _ => None
      end
  | ConnectionTimer k r => Some (k, r, TimedOut)
  | SocketCallback k r (OnConnectionAck false error) =>
      Some (k, r, Refused error)
  | SocketCallback k r OnError => Some (k, r, TransportError)
  | SocketCallback _ _ _ => None
  end.

Definition joinsOf (c : Callback) (sock : option nat) : list Action :=
  match c, sock with
  | SocketCallback _ _ OnConnect, Some s => [JoinEmitted s]
  | _, _ => []
  end.

Definition openedBy (c : Callback) (made : nat) (t : Z)
  : list (Z * Callback) :=
  match c with
  | RetryTimer r =>
      match behaviour made with
      | Throws => []
      | Opens events =>
          (t + 5000, ConnectionTimer made r)
            :: map (fun de => (t + Z.of_N (fst de),
                               SocketCallback made r (snd de)))
                   events
      end
  | _ => []
  end.

Definition retryOf (c : Callback) (made : nat) (t : Z)
  : list (Z * Callback) :=
  match failureOf c made with
  | Some (_, S r, _) => [(t + 1000, RetryTimer r)]
  | _ => []
  end.

Definition entriesOf (c : Callback) (made : nat) (sock : option nat)
  : list Action :=
  match beginningOf c made with
  | Some (k, r) => [Attempt k r]
  | None => []
  end
  ++ joinsOf c sock
  ++ match acceptanceOf c with
     | Some k => [Accepted k; Resolve true]
     | None => []
     end
  ++ match failureOf c made with
     | Some (k, O, cause) => [Failure k O cause; Resolve false]
     | Some (k, r, cause) => [Failure k r cause]
     | None => []
     end.

Definition statusAfter (c : Callback) (made : nat) : Status :=
  match acceptanceOf c, failureOf c made with
  | Some _, _ => Resolved true
  | None, Some (_, O, _) => Resolved false
  | None, _ => Pending
  end.

End Effect.

(** ** What holds of every state of a run *)

(** While the promise is pending the client is not connected and holds
    no session. *)
Definition unconnected (st : State) : Prop :=
  status st <> Unmodelled /\
  (status st = Pending ->
   connected st = false /\ sessionId st = None /\ reconnecting st = false).

(** Times: the agenda is in order and not before the clock, the log not
    after it. *)
Definition timely (st : State) : Prop :=
  ordered (agenda st) /\
  Forall (fun x => clock st <= fst x) (agenda st) /\
  Forall (fun x => fst x <= clock st) (log st).

(** Every attempt but the first, and every retry timer, comes from a
    failure one second before; every callback and every failure belongs
    to an attempt that was begun. *)
Definition chained (st : State) : Prop :=
  (forall t k r,
     In (t, Attempt k r) (log st) ->
     (r = 3%nat /\ t = 0) \/
     ((r < 3)%nat /\ exists k' c, In (t - 1000, Failure k' (S r) c) (log st))) /\
  (forall t r,
     In (t, RetryTimer r) (agenda st) ->
     (r = 3%nat /\ t = 0) \/
     ((r < 3)%nat /\ exists k' c, In (t - 1000, Failure k' (S r) c) (log st))) /\
  (forall t k r,
     (exists e, In (t, SocketCallback k r e) (agenda st)) \/
     In (t, ConnectionTimer k r) (agenda st) ->
     exists t', t' <= t /\ In (t', Attempt k r) (log st)) /\
  (forall t k r c,
     In (t, Failure k r c) (log st) ->
     exists t', t' <= t /\ In (t', Attempt k r) (log st)).

(** What became of a failure: with retries left, a retry one second
    later; with none left, the terminal failure. *)
Definition retried (st : State) : Prop :=
  (forall t k r c,
     In (t, Failure k (S r) c) (log st) ->
     In (t + 1000, RetryTimer r) (agenda st) \/
     exists k', In (t + 1000, Attempt k' r) (log st)) /\
  (status st = Resolved false <->
   exists t k c, In (t, Failure k O c) (log st)) /\
  (status st = Resolved true <-> exists t k, In (t, Accepted k) (log st)).

(** What a handled socket event left in the log. *)
Definition trace (t : Z) (k r : nat) (e : SocketEvent) (st : State) : Prop :=
  match e with
  | OnConnectionAck true _ => In (t, Accepted k) (log st)
  | OnConnectionAck false error => In (t, Failure k r (Refused error)) (log st)
  | OnError => In (t, Failure k r TransportError) (log st)
  | OnConnect | OnDisconnect => True
  end.

Section Handled.

Variable behaviour : nat -> Behaviour.

(** Every failure of an attempt that was begun is waiting to be handled
    or has been handled as a failure. *)
Definition handled (st : State) : Prop :=
  forall t k r,
    In (t, Attempt k r) (log st) ->
    match behaviour k with
    | Throws => In (t, Failure k r Thrown) (log st)
    | Opens events =>
        (In (t + 5000, ConnectionTimer k r) (agenda st) \/
         In (t + 5000, Failure k r TimedOut) (log st)) /\
        forall d e,
          In (d, e) events ->
          In (t + Z.of_N d, SocketCallback k r e) (agenda st) \/
          trace (t + Z.of_N d) k r e st
    end.

(** Nothing is handled that the sockets did not deliver: every listener
    waits for an event of its socket, and every acceptance and every
    failure has its cause in what [io] did for the attempt. *)
Definition scripted (st : State) : Prop :=
  (forall t k r e,
     In (t, SocketCallback k r e) (agenda st) ->
     exists events d, behaviour k = Opens events /\ In (d, e) events) /\
  (forall t k r,
     In (t, ConnectionTimer k r) (agenda st) ->
     exists events, behaviour k = Opens events) /\
  (forall t k,
     In (t, Accepted k) (log st) ->
     exists events d error,
       behaviour k = Opens events /\
       In (d, OnConnectionAck true error) events) /\
  (forall t k r cause,
     In (t, Failure k r cause) (log st) ->
     match cause with
     | Thrown => behaviour k = Throws
     | TimedOut => exists events, behaviour k = Opens events
     | Refused error =>
         exists events d,
           behaviour k = Opens events /\
           In (d, OnConnectionAck false error) events
     | TransportError =>
         exists events d,
           behaviour k = Opens events /\ In (d, OnError) events
     end).

End Handled.

(** While the promise is pending a timer is waiting that will fail an
    attempt or begin the next one, and it is due by its deadline. *)
Definition alive (st : State) : Prop :=
  clock st <= 23000 /\
  (status st = Pending ->
   exists t c,
     In (t, c) (agenda st) /\
     match c with
     | ConnectionTimer _ r => (r <= 3)%nat /\ t <= 5000 + deadline r
     | RetryTimer r => (r <= 3)%nat /\ t <= deadline r
     | SocketCallback _ _ _ => False
     end).

(** The client just before the first attempt, which the event loop
    begins at once. *)
Definition boot : State :=
  setAgenda [(0, RetryTimer maxRetries)] initial.

Definition sound (behaviour : nat -> Behaviour) (st : State) : Prop :=
  unconnected st /\ timely st /\ chained st /\ retried st /\
  handled behaviour st /\ scripted behaviour st /\ alive st.

End Broker.

(** ** The local-storage client: registry and presence sweeps *)

Module Peer.
Import JS.

Definition AWAY_TIMEOUT : Z := 30 * 1000.
Definition OFFLINE_TIMEOUT : Z := 5 * 60 * 1000.

(** A stored status is whatever the JSON holds: one of the three values of
    the [UserStatus] enum, or some other string. *)
Inductive Status := ONLINE | AWAY | OFFLINE | Other (raw : string).

Record User := {
  id : string;
  name : string;
  color : option string;
  status : Status;
  lastActive : option Z;
  cursorPosition : option Server.CursorPosition;
  selection : option Server.Selection
}.

Definition withStatus (s : Status) (u : User) : User :=
  {| id := id u; name := name u; color := color u; status := s;
     lastActive := lastActive u; cursorPosition := cursorPosition u;
     selection := selection u |}.

Definition withLastActive (t : option Z) (u : User) : User :=
  {| id := id u; name := name u; color := color u; status := status u;
     lastActive := t; cursorPosition := cursorPosition u;
     selection := selection u |}.

(** Equality of two users as [JSON.stringify] sees it. *)
Definition User_eq_dec (a b : User) : {a = b} + {a <> b}.
Proof. repeat decide equality. Defined.

Definition sameJSON (a b : list User) : bool :=
  if list_eq_dec User_eq_dec a b then true else false.

(** The messages the embedded functions broadcast. *)
Inductive Message :=
| Leave (userId : string)
| Sync (users : list User).

(** The client with the part of [localStorage] it works on: the users item
    of its session ([None] when the key is absent) and the messages written
    to the message key, oldest first. *)
Record State := {
  connected : bool;
  sessionId : option string;
  usersItem : option (list User);
  broadcasts : list Message
}.

Definition setUsers (users : list User) (st : State) : State :=
  {| connected := connected st; sessionId := sessionId st;
     usersItem := Some users; broadcasts := broadcasts st |}.

Definition logMessage (m : Message) (st : State) : State :=
  {| connected := connected st; sessionId := sessionId st;
     usersItem := usersItem st; broadcasts := broadcasts st ++ [m] |}.

Definition validateUserStatus (s : Status) : Status :=
  match s with
  | Other _ => ONLINE
  | valid => valid
  end.

(** [{...user, status: this.validateUserStatus(user.status)}]. *)
Definition validated (user : User) : User :=
  withStatus (validateUserStatus (status user)) user.

(** [receiveMessage] on a [sync]: the validated list replaces the item. *)
Definition receiveSync (users : list User) (st : State) : State :=
  match sessionId st with
  | Some _ => setUsers (map validated users) st
  | None => st
  end.

(** [broadcastMessage] of a [sync]: written to the store, then handled by
    the sender itself. *)
Definition broadcastSync (users : list User) (st : State) : State :=
  match sessionId st with
  | Some _ => receiveSync users (logMessage (Sync users) st)
  | None => st
  end.

Definition removeUserFromActiveList (userId : string) (st : State) : State :=
  match sessionId st, usersItem st with
  | Some _, Some users =>
      let updatedUsers :=
        filter (fun u => negb (String.eqb (id u) userId)) users in
      broadcastSync updatedUsers (setUsers updatedUsers st)
  | _, _ => st
  end.

Definition receiveMessage (m : Message) (st : State) : State :=
  match m with
  | Leave userId =>
      if truthyId (Some userId) then removeUserFromActiveList userId st
      else st
  | Sync users => receiveSync users st
  end.

Definition broadcastMessage (m : Message) (st : State) : State :=
  match sessionId st with
  | Some _ => receiveMessage m (logMessage m st)
  | None => st
  end.

Definition getUsers (st : State) : list User :=
  match sessionId st, usersItem st with
  | Some _, Some users => users
  | _, _ => []
  end.

Definition saveUsers (users : list User) (st : State) : State :=
  match sessionId st with
  | Some _ => setUsers users st
  | None => st
  end.

(** The test of the interval callback of [startActivityCheck]. *)
Definition isIdle (now : Z) (user : User) : bool :=
  let currentStatus := validateUserStatus (status user) in
  match currentStatus, lastActive user with
  | ONLINE, Some t | OFFLINE, Some t =>
      truthyNum (Some t) && (AWAY_TIMEOUT <? now - t)
  | _, _ => false
  end.

(** One run of the interval callback of [startActivityCheck]. *)
Definition activityCheck (now : Z) (st : State) : State :=
  match sessionId st with
  | None => st
  | Some _ =>
      let users := getUsers st in
      let hasChanges := existsb (isIdle now) users in
      let updatedUsers :=
        map (fun user =>
               if isIdle now user then withStatus AWAY user
               else validated user)
            users in
      let typedUsers := map validated updatedUsers in
      if hasChanges then broadcastSync typedUsers (saveUsers typedUsers st)
      else st
  end.

(** [!user.lastActive || now - user.lastActive > OFFLINE_TIMEOUT]. *)
Definition isTimedOut (now : Z) (user : User) : bool :=
  match lastActive user with
  | Some t => negb (truthyNum (Some t)) || (OFFLINE_TIMEOUT <? now - t)
  | None => true
  end.

(** The [filter] of [sendHeartbeat], whose callback broadcasts a [leave]
    for every user it drops. *)
Fixpoint sweepTimedOut (now : Z) (users : list User) (st : State)
  : list User * State :=
  match users with
  | [] => ([], st)
  | user :: rest =>
      if isTimedOut now user then
        sweepTimedOut now rest (broadcastMessage (Leave (id user)) st)
      else
        let '(kept, st') := sweepTimedOut now rest st in
        (user :: kept, st')
  end.

Definition sendHeartbeat (userId : string) (now : Z) (st : State) : State :=
  match connected st, sessionId st, usersItem st with
  | true, Some _, Some users =>
      let updatedUsers :=
        map (fun user =>
               if String.eqb (id user) userId
               then withLastActive (Some now) user else user)
            users in
      let '(activeUsers, st1) := sweepTimedOut now updatedUsers st in
      let st2 := setUsers activeUsers st1 in
      if negb (List.length activeUsers =? List.length users)%nat
         || negb (sameJSON activeUsers users)
      then broadcastSync activeUsers st2
      else st2
  | _, _, _ => st
  end.

(** The predicate of the [filter] of [cleanupOfflineUsers]. *)
Definition survivesCleanup (now : Z) (user : User) : bool :=
  if isTimedOut now user then false
  else
    match status user, lastActive user with
    | AWAY, Some t => negb (2 * 60 * 1000 <? now - t)
    | _, _ => true
    end.

Definition cleanupOfflineUsers (now : Z) (st : State) : State :=
  match sessionId st, usersItem st with
  | Some _, Some users =>
      let activeUsers := filter (survivesCleanup now) users in
      if negb (List.length activeUsers =? List.length users)%nat
      then broadcastSync activeUsers (setUsers activeUsers st)
      else st
  | _, _ => st
  end.

(** [updateUserLastActive], the handler of a [heartbeat] message. *)
Definition updateUserLastActive (userId : string) (now : Z) (st : State)
  : State :=
  match sessionId st, usersItem st with
  | Some _, Some users =>
      let userUpdated := existsb (fun u => String.eqb (id u) userId) users in
      let updatedUsers :=
        map (fun user =>
               if String.eqb (id user) userId then
                 withStatus
                   (match status user with AWAY => ONLINE | s => s end)
                   (withLastActive (Some now) user)
               else user)
            users in
      if userUpdated then broadcastSync updatedUsers (setUsers updatedUsers st)
      else st
  | _, _ => st
  end.

(** The registry part of [connect]: capacity, name check, and the entry of
    the same id replaced by a fresh one at the end of the list. *)
Section Registry.

Variable toLowerCase : string -> string.

Definition isDuplicateName (users : list User) (userId userName : string)
  : bool :=
  existsb
    (fun u =>
       String.eqb (toLowerCase (name u)) (toLowerCase userName)
       && negb (String.eqb (id u) userId))
    users.

Definition connectUsers (users : list User) (userId userName : string)
    (userColor : string) (now : Z) : Server.JoinError + list User :=
  if (8 <=? List.length users)%nat then inl Server.SessionFull
  else if isDuplicateName users userId userName then inl Server.NameTaken
  else
    let user :=
      {| id := userId; name := userName; color := Some userColor;
         status := ONLINE; lastActive := Some now;
         cursorPosition := None; selection := None |} in
    inr (filter (fun u => negb (String.eqb (id u) userId)) users ++ [user]).

End Registry.

(** Is a [leave] for this user among the broadcasts? *)
Definition leaveBroadcast (userId : string) (st : State) : bool :=
  existsb
    (fun m => match m with
              | Leave u => String.eqb u userId
              | Sync _ => false
              end)
    (broadcasts st).

Definition present (userId : string) (st : State) : bool :=
  existsb (fun u => String.eqb (id u) userId) (getUsers st).

Definition statusOf (userId : string) (st : State) : option Status :=
  option_map status
    (find (fun u => String.eqb (id u) userId) (getUsers st)).

End Peer.

(** ** Sample values

    Operation literals of the shape the editor sends
    ([{type, userId, position, text}] and the like), used in the worked
    examples. *)

Module Samples.
Import JS.

Definition insertOp (userId : string) (position : Z) (text : string)
  : TextOperation :=
  Op.mk insert userId (Some position) (Some (str text)) None None None None.

Definition deleteOp (userId : string) (position : Z) (len : Z)
  : TextOperation :=
  Op.mk delete userId (Some position) None (Some len) None None None.

Definition syncOp (userId : string) (content : string) : TextOperation :=
  Op.mk sync userId None None None (Some (str content)) None None.

(** The FullSync of a buffer: a [sync] whose content field is the buffer. *)
Definition fullSyncOf (userId : string) (buffer : jsstring) : TextOperation :=
  Op.mk sync userId None None None (Some buffer) None None.

(** The same literal with a [timestamp] and a [fromUserId]. *)
Definition stamped (ts : Z) (fromUserId : option string) (o : TextOperation)
  : TextOperation :=
  Op.mk (Op.type o) (Op.userId o) (Op.position o) (Op.text o) (Op.length o)
        (Op.content o) (Some ts) fromUserId.




Definition joinData (userId userName : string) : Server.JoinData :=
  {| Server.sessionId := "s1"; Server.userId := userId;
     Server.userName := userName |}.

Definition sampleEnv : Server.Env :=
  {| Server.now := 2000; Server.userColor := "#2196F3";
     Server.socket := "socket-x" |}.

(** A session of two members, the first with a cursor. *)
Definition smallSession : Server.Session.t :=
  Server.Session.mk "s1"
    [Server.User.mk "u1" "Ann" "#F44336" Server.away 500 (Some "socket-a"%string)
       (Some {| Server.position := 3; Server.line := 0; Server.column := 3 |})
       None;
     Server.User.mk "u2" "Bob" "#E91E63" Server.active 600
       (Some "socket-b"%string) None None]
    (str "text") 0.

(** How the sockets of a connect may behave.  The server answers a
    socket 40 ms after the attempt began and its [connection_ack] arrives
    50 ms later. *)
Definition refusedThenAccepted (attempt : nat) : Broker.Behaviour :=
  match attempt with
  | O => Broker.Opens [(40%N, Broker.OnConnect);
                (90%N, Broker.OnConnectionAck false (Some Server.NameTaken))]
  | S _ => Broker.Opens [(40%N, Broker.OnConnect); (90%N, Broker.OnConnectionAck true None)]
  end.

Definition alwaysFull (attempt : nat) : Broker.Behaviour :=
  Broker.Opens [(40%N, Broker.OnConnect);
         (90%N, Broker.OnConnectionAck false (Some Server.SessionFull))].


(** No socket is ever acknowledged: the second reports an error, [io]
    throws for the third, the others stay silent. *)
Definition neverUp (attempt : nat) : Broker.Behaviour :=
  match attempt with
  | S O => Broker.Opens [(30%N, Broker.OnError)]
  | S (S O) => Broker.Throws
  | _ => Broker.Opens []
  end.
(** Presence samples: Ann was last active at 40 s, Bob at 1 s. *)
Definition ann : Peer.User :=
  {| Peer.id := "ann"; Peer.name := "Ann"; Peer.color := Some "#F44336"%string;
     Peer.status := Peer.ONLINE; Peer.lastActive := Some 40000;
     Peer.cursorPosition := None; Peer.selection := None |}.

Definition bob : Peer.User :=
  {| Peer.id := "bob"; Peer.name := "Bob"; Peer.color := Some "#E91E63"%string;
     Peer.status := Peer.ONLINE; Peer.lastActive := Some 1000;
     Peer.cursorPosition := None; Peer.selection := None |}.

Definition presenceStart : Peer.State :=
  {| Peer.connected := true; Peer.sessionId := Some "s1"%string;
     Peer.usersItem := Some [ann; bob]; Peer.broadcasts := [] |}.

End Samples.

(** ** [TextOperationManager] and the status helper of
    [collaborationService.ts] *)

Module History.
Import JS.

(** [l.slice(-n)]: the last [n] elements, all of them when there are
    fewer. *)
Definition sliceLast {A : Type} (n : nat) (l : list A) : list A :=
  skipn (List.length l - n) l.

(** What [addOperation] pushes: the operation, stamped with [Date.now()]
    when its own timestamp is missing or 0. *)
Definition stamp (now : Z) (operation : TextOperation) : TextOperation :=
  if truthyNum (Op.timestamp operation) then operation
  else Op.withTimestamp (Some now) operation.

(** [TextOperationManager.addOperation] on the [operations] array. *)
Definition addOperation (now : Z) (operation : TextOperation)
    (operations : list TextOperation) : list TextOperation :=
  let pushed := operations ++ [stamp now operation] in
  if (100 <? List.length pushed)%nat then sliceLast 100 pushed else pushed.

(** [TextOperationManager.getOperations(since)]. *)
Definition getOperations (since : option Z)
    (operations : list TextOperation) : list TextOperation :=
  match since with
  | Some s =>
      if truthyNum (Some s)
      then filter (fun op => s <? orNum (Op.timestamp op) 0) operations
      else operations
  | None => operations
  end.

(** A manager fed a sequence of operations, each with the time of its
    call. *)
Definition addAll (calls : list (Z * TextOperation))
    (operations : list TextOperation) : list TextOperation :=
  fold_left (fun acc call => addOperation (fst call) (snd call) acc)
            calls operations.

Section Conflict.

(** [String.prototype.localeCompare], a library function of the host: a
    negative, zero or positive number. *)
Variable localeCompare : string -> string -> Z.

(** [TextOperationManager.resolveConflict]. *)
Definition resolveConflict (existingOp incomingOp : TextOperation)
  : TextOperation :=
  let existingTime := orNum (Op.timestamp existingOp) 0 in
  let incomingTime := orNum (Op.timestamp incomingOp) 0 in
  if existingTime <? incomingTime then incomingOp
  else if incomingTime <? existingTime then existingOp
  else if 0 <? localeCompare (Op.userId existingOp) (Op.userId incomingOp)
       then existingOp
       else incomingOp.

End Conflict.

(** The [collaborationService] singleton: a map from session id to the
    manager's operations, a manager being created on first use. *)
Definition Managers := string -> option (list TextOperation).

Definition getSession (sessionId : string) (sessions : Managers)
  : list TextOperation * Managers :=
  match sessions sessionId with
  | Some operations => (operations, sessions)
  | None =>
      ([], fun k => if String.eqb sessionId k then Some [] else sessions k)
  end.

Definition serviceAddOperation (now : Z) (sessionId : string)
    (operation : TextOperation) (sessions : Managers) : Managers :=
  let '(operations, sessions') := getSession sessionId sessions in
  fun k =>
    if String.eqb sessionId k
    then Some (addOperation now operation operations)
    else sessions' k.

Definition serviceGetOperations (sessionId : string) (since : option Z)
    (sessions : Managers) : list TextOperation * Managers :=
  let '(operations, sessions') := getSession sessionId sessions in
  (getOperations since operations, sessions').

(** The service fed a sequence of [addOperation] calls, each with its time,
    its session id and its operation. *)
Definition serviceAddAll (calls : list (Z * string * TextOperation))
    (sessions : Managers) : Managers :=
  fold_left
    (fun acc call =>
       serviceAddOperation (fst (fst call)) (snd (fst call)) (snd call) acc)
    calls sessions.

(** An entry of the list [updateUserStatus] works on. *)
Record StatusEntry := {
  id : string;
  name : string;
  status : Server.Status
}.

(** [updateUserStatus]: a copy of the list in which the first entry with
    the id carries the status. *)
Definition updateUserStatus (userId : string) (newStatus : Server.Status)
    (userList : list StatusEntry) : list StatusEntry :=
  match Server.findIndex (fun user => String.eqb (id user) userId) userList
  with
  | Some userIndex =>
      match nth_error userList userIndex with
      | Some entry =>
          Server.setAt userIndex
            {| id := id entry; name := name entry; status := newStatus |}
            userList
      | None => userList
      end
  | None => userList
  end.

(** The ASCII instance of [localeCompare] used in the worked examples. *)
Definition compareASCII (a b : string) : Z :=
  match String.compare a b with
  | Lt => -1
  | Eq => 0
  | Gt => 1
  end.

End History.

(** ** Further sample values *)

Module Scenarios.
Import JS Samples.

(** One hundred and one inserts of one user, at the times 1 to 101. *)
Definition hundredAndOne : list (Z * TextOperation) :=
  map (fun i => (Z.of_nat i, insertOp "u1" (Z.of_nat i) "x")) (seq 1 101).

Definition roster : list History.StatusEntry :=
  [{| History.id := "u1"; History.name := "Ann";
      History.status := Server.active |};
   {| History.id := "u2"; History.name := "Bob";
      History.status := Server.active |};
   {| History.id := "u1"; History.name := "Ann again";
      History.status := Server.online |}].

(** A registry of [collaborationService.ts] with the one session ["s1"],
    whose document reads ["hello"]. *)
Definition helloSessions : Collab.Sessions :=
  Collab.setSession "s1"
    {| Collab.id := "s1"; Collab.documentId := "d1"; Collab.users := [];
       Collab.content := str "hello"; Collab.operations := [] |}
    (fun _ => None).

End Scenarios.

(** ** Runs of [executeOperation] *)

Module Runs.
Import JS Collab.

(** [executeOperation] called once per entry, each with the time of its
    call, on one session id. *)
Definition executeAll (sessionId : string) (calls : list (Z * TextOperation))
    (sessions : Sessions) : Sessions :=
  fold_left
    (fun acc call =>
       snd (executeOperation (fst call) acc sessionId (snd call)))
    calls sessions.

End Runs.

(** ** The socket.io server: messages, resync, disconnect and the sweep *)

Module Relay.
Import JS Server.

(** A client message, by its [type] and the fields of its payload the
    handler reads; a type the [switch] does not name is relayed as it is. *)
Inductive Body :=
| OperationBody (operation : option TextOperation)
| ContentBody (content : option jsstring)
| CursorBody (userId : option string) (position line column : Z)
| SelectionBody (userId : option string) (selStart selEnd : CursorPosition)
| StatusBody (userId : option string) (status : option Status)
| ActivityBody (userId : option string)
| OtherBody (type : string).

(** What the server sends: the emissions of the registry, and a client
    message relayed to a room (with a fresh timestamp and message id, left
    out). *)
Inductive Out :=
| Core (e : Emit)
| Relayed (sessionId : string) (body : Body).

Definition withContent (content : jsstring) (now : Z) (s : Session.t)
  : Session.t :=
  Session.mk (Session.id s) (Session.users s) content now.

Definition withUsers (users : list User.t) (s : Session.t) : Session.t :=
  Session.mk (Session.id s) users (Session.content s) (Session.lastUpdated s).

Definition withCursor (c : CursorPosition) (u : User.t) : User.t :=
  User.mk (User.id u) (User.name u) (User.color u) (User.status u)
          (User.lastActive u) (User.socketId u) (Some c) (User.selection u).

Definition withSelection (sel : Selection) (u : User.t) : User.t :=
  User.mk (User.id u) (User.name u) (User.color u) (User.status u)
          (User.lastActive u) (User.socketId u) (User.cursorPosition u)
          (Some sel).

Definition withPresence (st : Status) (now : Z) (u : User.t) : User.t :=
  User.mk (User.id u) (User.name u) (User.color u) st now (User.socketId u)
          (User.cursorPosition u) (User.selection u).

(** [const i = session.users.findIndex(u => u.id === userId);
    if (i !== -1) session.users[i] = change(session.users[i])]. *)
Definition updateUser (userId : string) (change : User.t -> User.t)
    (s : Session.t) : Session.t :=
  match findIndex (fun u => String.eqb (User.id u) userId) (Session.users s)
  with
  | Some userIndex =>
      match nth_error (Session.users s) userIndex with
      | Some u => withUsers (setAt userIndex (change u) (Session.users s)) s
      | None => s
      end
  | None => s
  end.

(** The outcome of the [switch] of the message handler: the session is
    left alone, it is updated, or the handler throws (it dereferences a
    session that no longer exists) and the [catch] swallows the message. *)
Inductive Handled :=
| Untouched
| Updated (session : Session.t)
| Failed.

Definition onSession (found : option Session.t)
    (change : Session.t -> Session.t) : Handled :=
  match found with
  | Some s => Updated (change s)
  | None => Failed
  end.

Definition userIdOf (o : option string) : string :=
  match o with
  | Some u => u
  | None => EmptyString
  end.

Definition handleBody (found : option Session.t) (body : Body) (now : Z)
  : Handled :=
  match body with
  | OperationBody (Some operation) =>
      match Op.type operation, Op.content operation with
      | sync, Some c =>
          if truthyString (Some c) then onSession found (withContent c now)
          else Untouched
      | _, _ => Untouched
      end
  | OperationBody None => Untouched
  | ContentBody (Some c) => onSession found (withContent c now)
  | ContentBody None => Untouched
  | CursorBody userId position line column =>
      if truthyId userId then
        onSession found
          (updateUser (userIdOf userId)
             (withCursor {| position := position; line := line;
                            column := column |}))
      else Untouched
  | SelectionBody userId selStart selEnd =>
      if truthyId userId then
        onSession found
          (updateUser (userIdOf userId)
             (withSelection {| selStart := selStart; selEnd := selEnd |}))
      else Untouched
  | StatusBody userId (Some status) =>
      if truthyId userId then
        onSession found (updateUser (userIdOf userId) (withPresence status now))
      else Untouched
  | StatusBody _ None => Untouched
  | ActivityBody userId =>
      if truthyId userId then
        onSession found (updateUser (userIdOf userId) (withPresence active now))
      else Untouched
  | OtherBody _ => Untouched
  end.

(** [!currentSessionId || !currentUser] is false: the socket has joined. *)
Definition joinedAs (sock : Socket) : option (string * User.t) :=
  match currentSessionId sock, currentUser sock with
  | Some sid, Some user =>
      if truthyId (Some sid) then Some (sid, user) else None
  | _, _ => None
  end.

Definition setSessions (sessions' : string -> option Session.t) (st : State)
  : State :=
  {| sessions := sessions'; sockets := sockets st |}.

(** The [message] handler. *)
Definition onMessage (st : State) (sock : string) (body : Body) (now : Z)
  : State * list Out :=
  match joinedAs (sockets st sock) with
  | Some (sid, _) =>
      match handleBody (sessions st sid) body now with
      | Untouched => (st, [Relayed sid body])
      | Updated session' =>
          (setSessions (update sid (Some session') (sessions st)) st,
           [Relayed sid body])
      | Failed => (st, [])
      end
  | None => (st, [])
  end.

(** The [request_sync] handler. *)
Definition onRequestSync (st : State) (sock : string) : State * list Out :=
  match joinedAs (sockets st sock) with
  | Some (sid, _) =>
      match sessions st sid with
      | Some session =>
          (st, [Core (ToSocket (SyncMessage (Session.users session)
                                            (Some (Session.content session))))])
      | None => (st, [])
      end
  | None => (st, [])
  end.

(** The [disconnect] handler. *)
Definition onDisconnect (st : State) (sock : string) : State * list Out :=
  match joinedAs (sockets st sock) with
  | Some (sid, user) =>
      match sessions st sid with
      | Some session =>
          let '(session', out) := leaveSession session (User.id user) in
          (setSessions (update sid (Some session') (sessions st)) st,
           map Core out)
      | None => (st, [])
      end
  | None => (st, [])
  end.

(** The periodic sweep: every empty session not updated for more than the
    cleanup interval is deleted. *)
Definition sweep (interval now : Z) (st : State) : State :=
  setSessions
    (fun sid =>
       match sessions st sid with
       | Some session =>
           if (List.length (Session.users session) =? 0)%nat
              && (interval <? now - Session.lastUpdated session)
           then None else Some session
       | None => None
       end)
    st.

Inductive Inbound :=
| InJoin (data : JoinData) (env : Env)
| InCreate (sessionId : string) (content : jsstring) (now : Z)
| InMessage (sock : string) (body : Body) (now : Z)
| InRequestSync (sock : string)
| InDisconnect (sock : string)
| InSweep (now : Z).

Section Serve.

Variable toLowerCase : string -> string.

(** [SESSION_CLEANUP_INTERVAL], from the environment. *)
Variable cleanupInterval : Z.

(** The server on one inbound event. *)
Definition serve (st : State) (ev : Inbound) : State * list Out :=
  match ev with
  | InJoin data env =>
      let '(st', out) := step toLowerCase st (Join data env) in
      (st', map Core out)
  | InCreate sid content now =>
      let '(st', out) := step toLowerCase st (CreateSession sid content now) in
      (st', map Core out)
  | InMessage sock body now => onMessage st sock body now
  | InRequestSync sock => onRequestSync st sock
  | InDisconnect sock => onDisconnect st sock
  | InSweep now => (sweep cleanupInterval now st, [])
  end.

Definition serveAll (st : State) (events : list Inbound) : State :=
  fold_left (fun s ev => fst (serve s ev)) events st.

(** The members of a session after an event, in terms of the members
    before: they are the old ones, or what a join or a leave makes of
    them, or the session is new and empty. *)
Definition membersStep (before : option Session.t) (after : Session.t)
  : Prop :=
  (exists session,
     before = Some session /\
     (map User.id (Session.users after) = map User.id (Session.users session)
      \/ (exists data env,
            Session.users after = usersAfterJoin toLowerCase session data env)
      \/ (exists uid,
            Session.users after
            = Session.users (fst (leaveSession session uid)))))
  \/ (before = None /\
      (Session.users after = []
       \/ exists data env,
            Session.users after
            = usersAfterJoin toLowerCase
                (Session.mk (sessionId data) [] [] (now env)) data env)).

End Serve.

(** Every session holds participants with pairwise distinct ids. *)
Definition uniqueIds (st : State) : Prop :=
  forall sid session,
    sessions st sid = Some session ->
    NoDup (map User.id (Session.users session)).

End Relay.

(** ** A day of the server *)

Module ServerScenarios.
Import JS Server Relay.

Definition envOf (sock : string) (time : Z) : Env :=
  {| now := time; userColor := "#4CAF50"; socket := sock |}.

Definition annJoins : Inbound :=
  InJoin {| sessionId := "s1"; userId := "u1"; userName := "Ann" |}
         (envOf "socket-a" 100).

Definition bobJoins : Inbound :=
  InJoin {| sessionId := "s1"; userId := "u2"; userName := "Bob" |}
         (envOf "socket-b" 200).

Definition busyDay : list Inbound :=
  [InCreate "s1" (str "draft") 50;
   annJoins;
   bobJoins;
   InMessage "socket-a" (CursorBody (Some "u1"%string) 3 0 3) 300;
   InMessage "socket-a"
     (OperationBody (Some (Samples.insertOp "u1" 0 "x"))) 400;
   InMessage "socket-b"
     (OperationBody (Some (Samples.syncOp "u2" "hello"))) 500;
   InRequestSync "socket-a";
   InDisconnect "socket-b";
   InSweep 4000000].

Definition cleanupDefault : Z := 1800000.

Definition afterBusyDay : State :=
  serveAll toLowerASCII cleanupDefault initial busyDay.

Definition roomAfterBusyDay : Session.t :=
  match sessions afterBusyDay "s1" with
  | Some s => s
  | None => Session.mk "" [] [] 0
  end.

End ServerScenarios.

(** ** The local-storage client: user list updates and user names *)

Module PeerMore.
Import JS Peer.

(** A [Partial<CollaborationUser>]: the fields [updateLocalUserList]
    reads. *)
Record PartialUser := {
  pid : option string;
  pname : option string;
  pcolor : option string;
  pstatus : option Status
}.

Definition storedUsers (st : State) : list User :=
  match usersItem st with
  | Some users => users
  | None => []
  end.

(** [updateLocalUserList], the handler of a [join] message ([isAdd] true);
    [now] is [Date.now()]. *)
Definition updateLocalUserList (user : PartialUser) (isAdd : bool) (now : Z)
    (st : State) : State :=
  match sessionId st with
  | None => st
  | Some _ =>
      let users := storedUsers st in
      let users' :=
        if isAdd && truthyId (pid user) && truthyId (pname user)
           && truthyId (pcolor user)
        then
          let validStatus :=
            match pstatus user with
            | Some s => validateUserStatus s
            | None => ONLINE
            end in
          let newUser :=
            {| id := Relay.userIdOf (pid user);
               name := Relay.userIdOf (pname user);
               color := pcolor user;
               status := validStatus;
               lastActive := Some now;
               cursorPosition := None;
               selection := None |} in
          match Server.findIndex
                  (fun u => String.eqb (id u) (Relay.userIdOf (pid user)))
                  users with
          | Some existingIndex => Server.setAt existingIndex newUser users
          | None => users ++ [newUser]
          end
        else if negb isAdd && truthyId (pid user) then
          match Server.findIndex
                  (fun u => String.eqb (id u) (Relay.userIdOf (pid user)))
                  users with
          | Some index => Server.removeAt index users
          | None => users
          end
        else users in
      broadcastSync users' (setUsers users' st)
  end.

(** One run of [syncUsers] for the client [userId]/[userName]; [userColor]
    is the colour [generateUserColor()] draws. *)
Definition syncUsers (userId userName : string) (userColor : string)
    (now : Z) (st : State) : State :=
  match sessionId st with
  | None => st
  | Some _ =>
      let users := storedUsers st in
      if truthyId (Some userId) && truthyId (Some userName) then
        if existsb (fun u => String.eqb (id u) userId) users then
          broadcastSync users st
        else
          let users' :=
            users ++ [{| id := userId; name := userName;
                         color := Some userColor; status := ONLINE;
                         lastActive := Some now; cursorPosition := None;
                         selection := None |}] in
          broadcastSync users' (setUsers users' st)
      else broadcastSync users st
  end.

Section Naming.

(** The template [`${USER_NAME_PREFIX}${counter}`]. *)
Variable nameOf : nat -> string.

(** [users.some(user => user.name === userName)] for the name of a
    counter. *)
Definition taken (users : list User) (k : nat) : bool :=
  existsb (fun user => String.eqb (name user) (nameOf k)) users.

(** The [do ... while] of [generateUserName], at most [fuel] rounds:
    the first name from [counter] on that no user has, with the counter to
    store. *)
Fixpoint probe (fuel : nat) (users : list User) (counter : nat)
  : option (string * nat) :=
  match fuel with
  | O => None
  | S fuel' =>
      let userName := nameOf counter in
      let counter' := S counter in
      if existsb (fun user => String.eqb (name user) userName) users
      then probe fuel' users counter'
      else Some (userName, counter')
  end.

(** [generateUserName] on the users and the counter the store holds: the
    name, and the counter it saves. *)
Definition generateUserName (users : list User) (storedCounter : option nat)
  : option (string * nat) :=
  probe (S (List.length users)) users
        (match storedCounter with
         | Some c => c
         | None => 1%nat
         end).

End Naming.

End PeerMore.

(** ** Samples for the local-storage client *)

Module PeerScenarios.
Import JS Peer PeerMore.

Definition member (userId userName : string) : User :=
  {| id := userId; name := userName; color := Some "#9C27B0"%string;
     status := ONLINE; lastActive := Some 1000;
     cursorPosition := None; selection := None |}.


Definition eightMembers : list User :=
  [member "u1" "Ann"; member "u2" "Bob"; member "u3" "Cho";
   member "u4" "Dee"; member "u5" "Eli"; member "u6" "Fay";
   member "u7" "Gus"; member "u8" "Hal"].

Definition fullStore : State :=
  {| connected := true; sessionId := Some "s1"%string;
     usersItem := Some eightMembers; broadcasts := [] |}.

Definition newcomer : PartialUser :=
  {| pid := Some "u9"%string; pname := Some "Ivy"%string;
     pcolor := Some "#FF5722"%string; pstatus := Some (Other "active") |}.

(** [`user${counter}`] in decimal. *)
Definition decimalName (counter : nat) : string :=
  String.append "user" (NilEmpty.string_of_uint (Nat.to_uint counter)).

Definition namedUsers : list User :=
  [member "u1" "user2"; member "u2" "user1"; member "u3" "user4"].

End PeerScenarios.

(** ** The users item of a session under the tabs that share it *)

Module Lobby.
Import JS Peer PeerMore.

(** The state is the users item of one session, shared by the tabs of
    that session ([sessionId] is theirs), with the [leave] and [sync]
    messages broadcast in it.  What reaches the users item: the [connect]
    of a tab that is not yet connected, and the handling of a [leave] or a
    [join] message by a tab of the session.  A message is handled by the
    tab that broadcasts it at once and by every other tab when its storage
    event arrives. *)
Inductive Operation :=
| Connects (userId userName userColor : string) (now : Z)
| LeaveDelivered (userId : string)
| JoinDelivered (user : PartialUser) (now : Z).


Section Tabs.

Variable toLowerCase : string -> string.

(** [connect] on the users item: a refused connect throws before it
    writes; an accepted one writes the new list and broadcasts a [join]
    for its user, which the tab handles itself. *)
Definition connectTab (userId userName userColor : string) (now : Z)
    (st : State) : State :=
  match connectUsers toLowerCase (storedUsers st) userId userName userColor
                     now with
  | inl _ => st
  | inr users =>
      updateLocalUserList
        {| pid := Some userId; pname := Some userName;
           pcolor := Some userColor; pstatus := Some ONLINE |}
        true now (setUsers users st)
  end.

Definition step (st : State) (op : Operation) : State :=
  match op with
  | Connects userId userName userColor now =>
      connectTab userId userName userColor now st
  | LeaveDelivered userId => receiveMessage (Leave userId) st
  | JoinDelivered user now => updateLocalUserList user true now st
  end.

Definition run (ops : list Operation) (st : State) : State :=
  fold_left step ops st.

End Tabs.





End Lobby.

(** * Properties *)

(** ** [substring] *)

Section SubstringFacts.
Context {A : Type}.
Implicit Types s : list A.

Lemma clampIndex_le s z : (JS.clampIndex s z <= List.length s)%nat.
Proof. unfold JS.clampIndex. lia. Qed.

Lemma firstn_clampIndex s z :
  firstn (JS.clampIndex s z) s = firstn (Z.to_nat z) s.
Proof.
  unfold JS.clampIndex.
  destruct (Z.le_gt_cases z (Z.of_nat (List.length s))) as [Hle | Hgt].
  - f_equal. lia.
  - rewrite !firstn_all2 by lia. reflexivity.
Qed.

Lemma skipn_clampIndex s z :
  skipn (JS.clampIndex s z) s = skipn (Z.to_nat z) s.
Proof.
  unfold JS.clampIndex.
  destruct (Z.le_gt_cases z (Z.of_nat (List.length s))) as [Hle | Hgt].
  - f_equal. lia.
  - rewrite !skipn_all2 by lia. reflexivity.
Qed.

(** [s.substring(0, p)] is the prefix of [p] characters. *)
Lemma substring2_prefix s p : JS.substring2 s 0 p = firstn (Z.to_nat p) s.
Proof.
  unfold JS.substring2.
  assert (H0 : JS.clampIndex s 0 = O) by (unfold JS.clampIndex; lia).
  rewrite H0, Nat.min_0_l, Nat.max_0_l, Nat.sub_0_r. simpl.
  apply firstn_clampIndex.
Qed.

(** [s.substring(p)] is what is left after [p] characters. *)
Lemma substring1_suffix s p : JS.substring1 s p = skipn (Z.to_nat p) s.
Proof.
  unfold JS.substring1, JS.substring2.
  assert (Hl : JS.clampIndex s (Z.of_nat (List.length s)) = List.length s)
    by (unfold JS.clampIndex; lia).
  pose proof (clampIndex_le s p) as Hp.
  rewrite Hl, Nat.min_l, Nat.max_r by assumption.
  rewrite firstn_all2 by (rewrite length_skipn; lia).
  apply skipn_clampIndex.
Qed.

End SubstringFacts.

(** ** Applying operations *)

Section ApplyFacts.
Import JS Collab Stated.

Lemma removeFrom_shift content : forall i p n,
  removeFrom i p n content = removeFrom 0 (p - i) n content.
Proof.
  induction content as [| c rest IH]; intros i p n; simpl.
  - reflexivity.
  - rewrite (IH (i + 1)), (IH (0 + 1)).
    replace (p - i - (0 + 1)) with (p - (i + 1)) by lia.
    replace ((p <=? i) && (i <? p + n))
      with ((p - i <=? 0) && (0 <? p - i + n)); [reflexivity |].
    destruct (Z.leb_spec p i), (Z.leb_spec (p - i) 0),
             (Z.ltb_spec i (p + n)), (Z.ltb_spec 0 (p - i + n));
      simpl; lia || reflexivity.
Qed.

(** Prefix before [p] plus suffix from [p + n] is the content without the
    [n] characters from index [p]. *)
Lemma firstn_skipn_removeChars content : forall p n,
  0 <= n ->
  firstn (Z.to_nat p) content ++ skipn (Z.to_nat (p + n)) content
  = removeChars p n content.
Proof.
  unfold removeChars.
  induction content as [| c rest IH]; intros p n Hn.
  - rewrite firstn_nil, skipn_nil. reflexivity.
  - cbn [removeFrom]. rewrite removeFrom_shift.
    replace (p - (0 + 1)) with (p - 1) by lia.
    rewrite <- (IH (p - 1) n Hn).
    destruct (Z.leb_spec p 0) as [Hp | Hp];
      destruct (Z.ltb_spec 0 (p + n)) as [Hq | Hq]; cbn [andb].
    + replace (Z.to_nat p) with O by lia.
      replace (Z.to_nat (p - 1)) with O by lia.
      replace (Z.to_nat (p + n)) with (S (Z.to_nat (p - 1 + n))) by lia.
      reflexivity.
    + replace (Z.to_nat p) with O by lia.
      replace (Z.to_nat (p - 1)) with O by lia.
      replace (Z.to_nat (p + n)) with O by lia.
      replace (Z.to_nat (p - 1 + n)) with O by lia.
      reflexivity.
    + replace (Z.to_nat p) with (S (Z.to_nat (p - 1))) by lia.
      replace (Z.to_nat (p + n)) with (S (Z.to_nat (p - 1 + n))) by lia.
      reflexivity.
    + lia.
Qed.

Lemma applyInsert_spliceAt content p t :
  applyInsert content p t = spliceAt p t content.
Proof.
  unfold applyInsert, spliceAt.
  rewrite substring2_prefix, substring1_suffix. reflexivity.
Qed.

Lemma applyDelete_removeChars content p n :
  0 <= n -> applyDelete content p n = removeChars p n content.
Proof.
  intro Hn. unfold applyDelete.
  rewrite substring2_prefix, substring1_suffix.
  apply firstn_skipn_removeChars; assumption.
Qed.

Lemma spliceAt_nil p content : spliceAt p [] content = content.
Proof. unfold spliceAt. simpl. apply firstn_skipn. Qed.

Lemma removeFrom_zero content : forall i p, removeFrom i p 0 content = content.
Proof.
  induction content as [| c rest IH]; intros i p; simpl.
  - reflexivity.
  - rewrite IH.
    destruct (Z.leb_spec p i), (Z.ltb_spec i (p + 0)); simpl;
      reflexivity || lia.
Qed.

(** The local-storage client updates the stored content exactly as
    [applyOperation] does. *)
Lemma sendOperationContent_applyOperation content operation :
  sendOperationContent content operation = applyOperation content operation.
Proof.
  unfold sendOperationContent, applyOperation, applyInsert, applyDelete.
  reflexivity.
Qed.

Lemma applyOperation_insert content operation t p :
  Op.type operation = insert ->
  Op.text operation = Some t ->
  Op.position operation = Some p ->
  applyOperation content operation = spliceAt p t content.
Proof.
  intros Hty Ht Hp. unfold applyOperation. rewrite Hty, Ht, Hp.
  destruct t as [| c t']; simpl.
  - symmetry. apply spliceAt_nil.
  - apply (applyInsert_spliceAt content p (c :: t')).
Qed.

Lemma applyOperation_delete content operation n p :
  Op.type operation = delete ->
  Op.length operation = Some n ->
  Op.position operation = Some p ->
  0 <= n ->
  applyOperation content operation = removeChars p n content.
Proof.
  intros Hty Hn Hp Hpos. unfold applyOperation. rewrite Hty, Hn, Hp.
  unfold truthyNum. destruct (Z.eqb_spec n 0) as [-> | Hnz]; simpl.
  - unfold removeChars. symmetry. apply removeFrom_zero.
  - apply (applyDelete_removeChars content p n Hpos).
Qed.

Lemma applyOperation_sync content operation c :
  Op.type operation = sync ->
  Op.content operation = Some c ->
  applyOperation content operation = match c with [] => content | _ => c end.
Proof.
  intros Hty Hc. unfold applyOperation. rewrite Hty, Hc.
  destruct c; reflexivity.
Qed.

End ApplyFacts.

(** ** Splicing, index by index *)

Section SpliceFacts.
Import JS Stated.

Lemma spliceAt_length p t content :
  List.length (spliceAt p t content)
  = (List.length content + List.length t)%nat.
Proof.
  unfold spliceAt. rewrite !length_app, length_firstn, length_skipn. lia.
Qed.

(** For an index inside the content, the spliced string reads the old
    content before [p], then [t], then the old content moved up by the
    length of [t]. *)
Lemma spliceAt_nth_error p t content i :
  0 <= p <= Z.of_nat (List.length content) ->
  nth_error (spliceAt p t content) i
  = if (i <? Z.to_nat p)%nat then nth_error content i
    else if (i <? Z.to_nat p + List.length t)%nat
         then nth_error t (i - Z.to_nat p)
         else nth_error content (i - List.length t).
Proof.
  intro Hp. unfold spliceAt.
  assert (Hlen : List.length (firstn (Z.to_nat p) content) = Z.to_nat p)
    by (rewrite length_firstn; lia).
  destruct (Nat.ltb_spec i (Z.to_nat p)) as [Hlt | Hge].
  - rewrite nth_error_app1 by lia.
    rewrite nth_error_firstn.
    destruct (Nat.ltb_spec i (Z.to_nat p)); [reflexivity | lia].
  - rewrite nth_error_app2 by lia. rewrite Hlen.
    destruct (Nat.ltb_spec i (Z.to_nat p + List.length t)) as [Hlt | Hge'].
    + apply nth_error_app1. lia.
    + rewrite nth_error_app2 by lia.
      rewrite nth_error_skipn. f_equal. lia.
Qed.

End SpliceFacts.

(** ** What an operation does to the content *)

Section OperationClaims.
Import JS Collab Stated Samples.

(** C1 (as stated, refuted): a FullSync does not always replace the content
    outright.  A [sync] operation carrying the empty string leaves the
    content ["abc"] as it is, where the claim says the result is the empty
    string it carries. *)
Lemma fullSync_empty_does_not_replace :
  Op.type (syncOp "u1" "") = sync /\
  Op.content (syncOp "u1" "") = Some (str "") /\
  applyOperation (str "abc") (syncOp "u1" "") = str "abc" /\
  applyOperation (str "abc") (syncOp "u1" "") <> str "".
Proof. repeat split; discriminate. Qed.

(** C1 (amended): an Insert with text [t] and position [p] yields the old
    content with [t] spliced in at index [p]; a Delete with a length
    [n >= 0] and position [p] yields the old content without the [n]
    characters starting at index [p]; a FullSync carrying a non-empty
    content [c] yields exactly [c] whatever the old content was, and a
    FullSync carrying the empty string leaves the old content unchanged. *)
Theorem applyOperation_insert_delete_sync content operation :
  (forall t p,
     Op.type operation = insert ->
     Op.text operation = Some t ->
     Op.position operation = Some p ->
     applyOperation content operation = spliceAt p t content) /\
  (forall n p,
     Op.type operation = delete ->
     Op.length operation = Some n ->
     Op.position operation = Some p ->
     0 <= n ->
     applyOperation content operation = removeChars p n content) /\
  (forall c,
     Op.type operation = sync ->
     Op.content operation = Some c ->
     c <> [] ->
     applyOperation content operation = c) /\
  (Op.type operation = sync ->
   Op.content operation = Some [] ->
   applyOperation content operation = content).
Proof.
  repeat split.
  - intros t p. apply applyOperation_insert.
  - intros n p. apply applyOperation_delete.
  - intros c Hty Hc Hne. rewrite (applyOperation_sync _ _ c Hty Hc).
    destruct c; [contradiction | reflexivity].
  - intros Hty Hc. apply (applyOperation_sync _ _ [] Hty Hc).
Qed.

Lemma applyOperation_insert_delete_sync_witness :
  applyOperation (str "hello") (insertOp "u1" 2 "XY") = str "heXYllo" /\
  applyOperation (str "hello") (deleteOp "u1" 1 3) = str "ho" /\
  applyOperation (str "hello") (syncOp "u1" "bye") = str "bye" /\
  applyOperation (str "hello") (syncOp "u1" "") = str "hello".
Proof.
  split; [| split; [| split]].
  - apply (proj1 (applyOperation_insert_delete_sync
                    (str "hello") (insertOp "u1" 2 "XY")) (str "XY") 2);
      reflexivity.
  - apply (proj1 (proj2 (applyOperation_insert_delete_sync
                           (str "hello") (deleteOp "u1" 1 3))) 3 1);
      reflexivity || lia.
  - apply (proj1 (proj2 (proj2 (applyOperation_insert_delete_sync
                                  (str "hello") (syncOp "u1" "bye"))))
             (str "bye")); reflexivity || discriminate.
  - apply (proj2 (proj2 (proj2 (applyOperation_insert_delete_sync
                                  (str "hello") (syncOp "u1" "")))));
      reflexivity.
Defined.

End OperationClaims.

(** ** Replay against FullSync, and the operations that change nothing *)

Section ReplayClaims.
Import JS Collab Stated Samples.

(** C3 (as stated, refuted): one user deletes the only character of ["a"];
    replaying the delete gives the empty buffer, while a FullSync of that
    buffer applied to ["a"] gives ["a"]. *)
Lemma replay_fullSync_differ_on_empty_buffer :
  let ops := [deleteOp "u1" 0 1] in
  let fullSync := fullSyncOf "u1" (replay (str "a") ops) in
  replay (str "a") ops = str "" /\
  applyOperation (str "a") fullSync = str "a" /\
  replay (str "a") ops <> applyOperation (str "a") fullSync.
Proof. cbv zeta. split; [reflexivity | split; [reflexivity | discriminate]]. Qed.

(** C3 (amended): for every initial content and every sequence of operations
    (so for every sequence of Insert/Delete of one user), replaying the
    sequence in order gives the same content as one FullSync of the
    resulting buffer exactly when that buffer is not empty or the initial
    content is empty too; a FullSync of an empty buffer leaves the initial
    content as it was. *)
Theorem replay_equals_fullSync_iff content ops fullSync :
  Op.type fullSync = sync ->
  Op.content fullSync = Some (replay content ops) ->
  (replay content ops <> [] ->
   applyOperation content fullSync = replay content ops) /\
  (replay content ops = [] -> applyOperation content fullSync = content) /\
  (applyOperation content fullSync = replay content ops
   <-> replay content ops <> [] \/ content = []).
Proof.
  intros Hty Hc.
  rewrite (applyOperation_sync content fullSync _ Hty Hc).
  destruct (replay content ops) as [| c buffer] eqn:Hbuf.
  - split; [intro H; contradiction H; reflexivity |].
    split; [reflexivity |].
    split.
    + intro H. right. exact H.
    + intros [H | H]; [contradiction H; reflexivity | exact H].
  - split; [reflexivity |].
    split; [discriminate |].
    split; [intros _; left; discriminate | reflexivity].
Qed.

Lemma replay_equals_fullSync_iff_witness :
  let ops := [insertOp "u1" 5 " world"; deleteOp "u1" 0 1;
              insertOp "u1" 0 "J"] in
  let fullSync := fullSyncOf "u1" (replay (str "hello") ops) in
  replay (str "hello") ops = str "Jello world" /\
  applyOperation (str "hello") fullSync = replay (str "hello") ops.
Proof.
  cbv zeta. split; [reflexivity |].
  apply (proj1 (replay_equals_fullSync_iff (str "hello")
                  [insertOp "u1" 5 " world"; deleteOp "u1" 0 1;
                   insertOp "u1" 0 "J"]
                  (fullSyncOf "u1" _) eq_refl eq_refl)).
  discriminate.
Defined.

(** C10: a Delete whose length is 0 and a FullSync whose content is the
    empty string return the content unchanged, both in [applyOperation] and
    in the content update of [sendOperation]: the guards test the
    truthiness of [length] and [content].  Hence an empty FullSync never
    clears a content that is not empty. *)
Theorem zero_delete_and_empty_sync_are_noops content operation :
  (Op.type operation = delete ->
   Op.length operation = Some 0 ->
   applyOperation content operation = content /\
   sendOperationContent content operation = content) /\
  (Op.type operation = sync ->
   Op.content operation = Some [] ->
   applyOperation content operation = content /\
   sendOperationContent content operation = content) /\
  (Op.type operation = sync ->
   Op.content operation = Some [] ->
   content <> [] ->
   applyOperation content operation <> [] /\
   sendOperationContent content operation <> []).
Proof.
  assert (Hdel : Op.type operation = delete ->
                 Op.length operation = Some 0 ->
                 applyOperation content operation = content).
  { intros Hty Hn. unfold applyOperation. rewrite Hty, Hn.
    destruct (Op.position operation); reflexivity. }
  assert (Hsync : Op.type operation = sync ->
                  Op.content operation = Some [] ->
                  applyOperation content operation = content).
  { intros Hty Hc. apply (applyOperation_sync _ _ [] Hty Hc). }
  rewrite (sendOperationContent_applyOperation content operation).
  split; [| split].
  - intros Hty Hn. rewrite (Hdel Hty Hn). split; reflexivity.
  - intros Hty Hc. rewrite (Hsync Hty Hc). split; reflexivity.
  - intros Hty Hc Hne. rewrite (Hsync Hty Hc). split; assumption.
Qed.

Lemma zero_delete_and_empty_sync_are_noops_witness :
  applyOperation (str "draft") (deleteOp "u1" 2 0) = str "draft" /\
  sendOperationContent (str "draft") (syncOp "u1" "") = str "draft" /\
  applyOperation (str "draft") (syncOp "u1" "") <> [].
Proof.
  split; [| split].
  - apply (proj1 (zero_delete_and_empty_sync_are_noops
                    (str "draft") (deleteOp "u1" 2 0)));
      reflexivity.
  - apply (proj1 (proj2 (zero_delete_and_empty_sync_are_noops
                           (str "draft") (syncOp "u1" ""))));
      reflexivity.
  - apply (proj2 (proj2 (zero_delete_and_empty_sync_are_noops
                           (str "draft") (syncOp "u1" ""))));
      reflexivity || discriminate.
Defined.

End ReplayClaims.

(** ** The timestamp sort of [transformOperation] *)

Section SortFacts.
Import JS Collab.
Lemma insertByKey_perm x l : Permutation (insertByKey x l) (x :: l).
Proof.
  induction l as [| y rest IH]; simpl.
  - apply Permutation_refl.
  - destruct (sortKey x <=? sortKey y).
    + apply Permutation_refl.
    + eapply perm_trans; [apply perm_skip, IH | apply perm_swap].
Qed.

(** The sorted array holds the same operations. *)
Lemma sortOps_perm l : Permutation (sortOps l) l.
Proof.
  induction l as [| x rest IH]; simpl.
  - constructor.
  - eapply perm_trans; [apply insertByKey_perm | apply perm_skip, IH].
Qed.

Lemma insertByKey_sorted x l :
  StronglySorted keyLe l -> StronglySorted keyLe (insertByKey x l).
Proof.
  induction 1 as [| y rest Hsorted IH Hall]; simpl.
  - repeat constructor.
  - destruct (Z.leb_spec (sortKey x) (sortKey y)) as [Hle | Hgt].
    + constructor; [constructor; assumption |].
      constructor; [exact Hle |].
      rewrite Forall_forall in Hall |- *.
      intros z Hz. specialize (Hall z Hz). unfold keyLe in *. lia.
    + constructor; [exact IH |].
      rewrite Forall_forall in Hall |- *.
      intros z Hz.
      apply (Permutation_in _ (insertByKey_perm x rest)) in Hz.
      destruct Hz as [<- | Hz]; [unfold keyLe; lia | auto].
Qed.

(** The sorted array is in ascending order of [timestamp || 0]. *)
Lemma sortOps_sorted l : StronglySorted keyLe (sortOps l).
Proof.
  induction l as [| x rest IH]; simpl.
  - constructor.
  - apply insertByKey_sorted, IH.
Qed.

Lemma insertByKey_head x l :
  Forall (keyLe x) l -> insertByKey x l = x :: l.
Proof.
  destruct l as [| y rest]; simpl; [reflexivity |].
  intro H. inversion_clear H as [| ? ? Hxy _].
  unfold keyLe in Hxy.
  destruct (Z.leb_spec (sortKey x) (sortKey y)); [reflexivity | lia].
Qed.

Lemma filter_insertByKey (keep : TextOperation -> bool) x l :
  StronglySorted keyLe l ->
  filter keep (insertByKey x l)
  = if keep x then insertByKey x (filter keep l) else filter keep l.
Proof.
  induction 1 as [| y rest Hsorted IH Hall]; simpl.
  - destruct (keep x); reflexivity.
  - destruct (Z.leb_spec (sortKey x) (sortKey y)) as [Hle | Hgt].
    + assert (Hx : Forall (keyLe x)
                     (if keep y then y :: filter keep rest
                      else filter keep rest)).
      { assert (Hrest : Forall (keyLe x) (filter keep rest)).
        { rewrite Forall_forall in Hall |- *. intros z Hz.
          apply filter_In in Hz. destruct Hz as [Hz _].
          specialize (Hall z Hz). unfold keyLe in *. lia. }
        destruct (keep y); [constructor |]; assumption. }
      cbn [filter]. rewrite (insertByKey_head x _ Hx).
      destruct (keep x); reflexivity.
    + cbn [filter]. rewrite IH.
      destruct (keep y), (keep x); try reflexivity.
      simpl. destruct (Z.leb_spec (sortKey x) (sortKey y)); [lia |].
      reflexivity.
Qed.

(** Sorting commutes with dropping operations: the sort is stable. *)
Lemma filter_sortOps (keep : TextOperation -> bool) l :
  filter keep (sortOps l) = sortOps (filter keep l).
Proof.
  induction l as [| x rest IH]; simpl.
  - reflexivity.
  - rewrite filter_insertByKey by apply sortOps_sorted.
    rewrite IH. destruct (keep x); reflexivity.
Qed.

End SortFacts.

(** ** [transformOperation] *)

Section TransformFacts.
Import JS Collab Stated Samples.

(** The guard holds exactly for two operations that carry one and the same
    non-empty [fromUserId]. *)
Lemma sameFromUser_spec a b :
  sameFromUser a b = true <->
  exists u, u <> EmptyString /\
            Op.fromUserId a = Some u /\ Op.fromUserId b = Some u.
Proof.
  unfold sameFromUser, truthyId.
  destruct (Op.fromUserId a) as [x |], (Op.fromUserId b) as [y |]; simpl;
    try (split; [discriminate | intros (u & _ & H1 & H2); discriminate]).
  - rewrite !andb_true_iff, !negb_true_iff, String.eqb_eq, !String.eqb_neq.
    split.
    + intros [[Hx _] Hxy]. exists x. subst y. auto.
    + intros (u & Hu & H1 & H2). inversion H1. inversion H2. subst. auto.
  - rewrite andb_false_r. simpl.
    split; [discriminate | intros (u & _ & H1 & H2); discriminate].
Qed.

Lemma transformStep_fromUserId cur e :
  Op.fromUserId (transformStep cur e) = Op.fromUserId cur.
Proof.
  unfold transformStep, shiftPosition.
  destruct (sameFromUser e cur); [reflexivity |].
  destruct (Op.type e), (Op.type cur); try reflexivity;
    match goal with
    | |- context [if ?b then _ else _] => destruct b; reflexivity
    end.
Qed.

Lemma sameFromUser_transformStep e cur e' :
  sameFromUser e (transformStep cur e') = sameFromUser e cur.
Proof.
  unfold sameFromUser. rewrite transformStep_fromUserId. reflexivity.
Qed.

(** Operations that share the [fromUserId] of the incoming one can be
    dropped from the loop. *)
Lemma fold_transformStep_filter l : forall cur,
  fold_left transformStep
            (filter (fun e => negb (sameFromUser e cur)) l) cur
  = fold_left transformStep l cur.
Proof.
  induction l as [| e rest IH]; intro cur; simpl.
  - reflexivity.
  - destruct (sameFromUser e cur) eqn:Hsame; simpl.
    + rewrite IH. f_equal. unfold transformStep. rewrite Hsame. reflexivity.
    + rewrite <- IH. f_equal. apply filter_ext.
      intro e'. rewrite sameFromUser_transformStep. reflexivity.
Qed.

Lemma fold_transformStep_all_same l : forall cur,
  Forall (fun e => sameFromUser e cur = true) l ->
  fold_left transformStep l cur = cur.
Proof.
  induction l as [| e rest IH]; intros cur H; simpl.
  - reflexivity.
  - inversion_clear H as [| ? ? He Hrest].
    assert (Hstep : transformStep cur e = cur)
      by (unfold transformStep; rewrite He; reflexivity).
    rewrite Hstep. apply IH, Hrest.
Qed.

Lemma withPosition_same cur p :
  Op.position cur = Some p -> Op.withPosition (Some p) cur = cur.
Proof. destruct cur. simpl. intros ->. reflexivity. Qed.

(** One pass of the loop body against an operation that is not skipped. *)
Lemma transformStep_shift cur e p :
  (Op.type cur = insert \/ Op.type cur = delete) ->
  Op.position cur = Some p ->
  sameFromUser e cur = false ->
  transformStep cur e = Op.withPosition (Some (shiftAgainst p e)) cur.
Proof.
  intros Hty Hp Hsame.
  unfold transformStep, shiftAgainst, shiftOf, shiftPosition.
  rewrite Hsame, Hp.
  assert (H0 : Op.withPosition (Some (p + 0)) cur = cur)
    by (rewrite Z.add_0_r; apply withPosition_same, Hp).
  destruct Hty as [Hty | Hty]; rewrite Hty;
    destruct (Op.type e); simpl;
    try (symmetry; exact H0);
    match goal with
    | |- context [if ?b then _ else _] =>
        destruct b; simpl; [reflexivity | symmetry; exact H0]
    end.
Qed.

Lemma fold_transformStep_running l : forall cur p,
  (Op.type cur = insert \/ Op.type cur = delete) ->
  Op.position cur = Some p ->
  Forall (fun e => sameFromUser e cur = false) l ->
  fold_left transformStep l cur
  = Op.withPosition (Some (runningPosition p l)) cur.
Proof.
  unfold runningPosition.
  induction l as [| e rest IH]; intros cur p Hty Hp Hall; simpl.
  - symmetry. apply withPosition_same, Hp.
  - inversion_clear Hall as [| ? ? He Hrest].
    rewrite (transformStep_shift cur e p Hty Hp He).
    rewrite (IH _ (shiftAgainst p e)).
    + reflexivity.
    + exact Hty.
    + reflexivity.
    + revert Hrest. apply Forall_impl. intros e' H. exact H.
Qed.

Lemma Forall_sortOps (P : TextOperation -> Prop) l :
  Forall P l -> Forall P (sortOps l).
Proof.
  rewrite !Forall_forall. intros H e He.
  apply H. apply (Permutation_in _ (sortOps_perm l)), He.
Qed.

End TransformFacts.

Section TransformClaims.
Import JS Collab Stated Samples.

(** C2 (as stated, refuted): the claim gives the shift as a function of the
    incoming position and the list of prior operations.  For an insert at 5
    and the prior inserts of two other users, ["C"] at 6 (timestamp 2) and
    ["AB"] at 2 (timestamp 1), only ["AB"] lies at or before 5, so the
    shifts the claim lists add up to position 7, and so they do when the
    list is walked in its order with the position moving along; the loop
    walks the operations in timestamp order, compares ["C"] with the
    position already moved to 7, and returns 8. *)
Lemma transform_is_not_one_sum :
  let incoming := insertOp "u1" 5 "X" in
  let recent := [stamped 2 (Some "u3"%string) (insertOp "u3" 6 "C");
                 stamped 1 (Some "u2"%string) (insertOp "u2" 2 "AB")] in
  Forall (fun e => sameUser e incoming = false) recent /\
  shiftedPosition 5 recent = 7 /\
  runningPosition 5 recent = 7 /\
  Op.position (transformOperation incoming recent) = Some 8.
Proof.
  cbv zeta. split; [| split; [| split]]; try reflexivity.
  repeat constructor.
Qed.

(** C2 (amended): for every incoming Insert or Delete at position [p] and
    every list of recent operations none of which shares the incoming
    operation's [fromUserId], transform visits the recent operations in
    ascending timestamp order and moves the position by +(text length) for
    each prior Insert whose position is at or before the position as moved
    so far, and by -(length) for each prior Delete whose position is before
    it; nothing else of the operation changes.  In particular an insert of
    ["X"] at 5 against a prior insert of ["AB"] at 2 comes out at 7. *)
Theorem transformOperation_running_shift :
  (forall incoming recent p,
     Op.type incoming = insert \/ Op.type incoming = delete ->
     Op.position incoming = Some p ->
     Forall (fun e => sameFromUser e incoming = false) recent ->
     transformOperation incoming recent
     = Op.withPosition (Some (runningPosition p (sortOps recent))) incoming)
  /\
  Op.position
    (transformOperation (insertOp "u1" 5 "X") [insertOp "u2" 2 "AB"])
  = Some 7.
Proof.
  split; [| reflexivity].
  intros incoming recent p Hty Hp Hall.
  unfold transformOperation.
  destruct recent as [| e rest].
  - symmetry. apply withPosition_same, Hp.
  - apply fold_transformStep_running; try assumption.
    apply Forall_sortOps, Hall.
Qed.

Lemma transformOperation_running_shift_witness :
  Op.position
    (transformOperation
       (insertOp "u1" 5 "X")
       [stamped 2 (Some "u3"%string) (insertOp "u3" 6 "C");
        stamped 3 (Some "u4"%string) (deleteOp "u4" 0 4);
        stamped 1 (Some "u2"%string) (insertOp "u2" 2 "AB")])
  = Some 4.
Proof.
  rewrite (proj1 transformOperation_running_shift
             (insertOp "u1" 5 "X")
             [stamped 2 (Some "u3"%string) (insertOp "u3" 6 "C");
              stamped 3 (Some "u4"%string) (deleteOp "u4" 0 4);
              stamped 1 (Some "u2"%string) (insertOp "u2" 2 "AB")]
             5).
  - reflexivity.
  - left. reflexivity.
  - reflexivity.
  - repeat constructor.
Defined.

(** C8 (as stated, refuted): two operations of the same user ["u1"], written
    as the editor writes them (a [userId], no [fromUserId]), are transformed
    against each other: the incoming insert at 5 comes out at 7. *)
Lemma transform_shifts_against_same_userId :
  let incoming := insertOp "u1" 5 "X" in
  let recent := [insertOp "u1" 2 "AB"] in
  Forall (fun e => sameUser e incoming = true) recent /\
  Op.position incoming = Some 5 /\
  Op.position (transformOperation incoming recent) = Some 7.
Proof.
  cbv zeta. split; [| split]; try reflexivity.
  repeat constructor.
Qed.

(** C8 (amended): for every incoming operation and every list of recent
    operations, transform never adjusts the incoming position against a
    recent operation that carries the same non-empty [fromUserId] as the
    incoming operation: the result is the one obtained from the list
    without those operations, and when every recent operation is of that
    kind the incoming operation comes back unchanged.  The test reads
    [fromUserId] only; operations without it are not recognised as being of
    the same user. *)
Theorem transformOperation_skips_same_fromUserId incoming recent :
  transformOperation incoming recent
  = transformOperation
      incoming (filter (fun e => negb (sameFromUser e incoming)) recent)
  /\
  (Forall (fun e => sameFromUser e incoming = true) recent ->
   transformOperation incoming recent = incoming)
  /\
  (forall e,
     sameFromUser e incoming = true <->
     exists u, u <> EmptyString /\
               Op.fromUserId e = Some u /\ Op.fromUserId incoming = Some u).
Proof.
  split; [| split].
  - unfold transformOperation.
    rewrite <- filter_sortOps.
    destruct recent as [| e rest] eqn:Hrecent; [reflexivity |].
    rewrite <- Hrecent.
    rewrite fold_transformStep_filter.
    destruct (filter (fun e0 => negb (sameFromUser e0 incoming)) recent)
      as [| e' rest'] eqn:Hkept; [| reflexivity].
    rewrite <- (fold_transformStep_filter (sortOps recent)).
    rewrite filter_sortOps, Hkept. reflexivity.
  - intro Hall. unfold transformOperation.
    destruct recent as [| e rest]; [reflexivity |].
    apply fold_transformStep_all_same, Forall_sortOps, Hall.
  - intro e. apply sameFromUser_spec.
Qed.

Lemma transformOperation_skips_same_fromUserId_witness :
  transformOperation
    (stamped 9 (Some "u1"%string) (insertOp "u1" 5 "X"))
    [stamped 1 (Some "u1"%string) (insertOp "u1" 2 "AB");
     stamped 2 (Some "u1"%string) (deleteOp "u1" 0 3)]
  = stamped 9 (Some "u1"%string) (insertOp "u1" 5 "X").
Proof.
  apply (proj1 (proj2 (transformOperation_skips_same_fromUserId _ _))).
  repeat constructor.
Defined.

End TransformClaims.

(** ** [validateOperation] *)

Section ValidateFacts.
Import JS Collab Stated Samples.

Lemma filter_nonempty_iff {A : Type} (f : A -> bool) (l : list A) :
  (0 <? List.length (filter f l))%nat = true <->
  exists x, In x l /\ f x = true.
Proof.
  rewrite Nat.ltb_lt. split.
  - destruct (filter f l) as [| x rest] eqn:Hf; simpl; [lia |].
    intros _. exists x. apply filter_In. rewrite Hf. left. reflexivity.
  - intros (x & Hin & Hfx).
    assert (Hx : In x (filter f l)) by (apply filter_In; auto).
    destruct (filter f l); [contradiction | simpl; lia].
Qed.

Lemma conflictsWith_spec incoming e :
  conflictsWith incoming e = true <->
  sameFromUser e incoming = false /\
  Z.abs (orNum (Op.timestamp e) 0 - orNum (Op.timestamp incoming) 0) < 1000.
Proof.
  unfold conflictsWith.
  destruct (sameFromUser e incoming).
  - split; [discriminate | intros [H _]; discriminate].
  - rewrite Z.ltb_lt. split; [auto | intros [_ H]; exact H].
Qed.

Lemma validateOperation_invalid_iff incoming existing :
  isValid (validateOperation incoming existing) = false <->
  existing <> [] /\
  (truthyNum (Op.timestamp incoming) = false \/
   exists e, In e existing /\ conflictsWith incoming e = true).
Proof.
  unfold validateOperation.
  destruct existing as [| e0 rest].
  - simpl. split; [discriminate | intros [H _]; contradiction].
  - destruct (truthyNum (Op.timestamp incoming)) eqn:Hts; simpl negb; cbv iota.
    + destruct (0 <? List.length (filter (conflictsWith incoming) (e0 :: rest)))%nat
        eqn:Hc; simpl.
      * apply (proj1 (filter_nonempty_iff (conflictsWith incoming)
                                          (e0 :: rest))) in Hc.
        split; [intros _; split; [discriminate | right; exact Hc] | reflexivity].
      * split; [discriminate |].
        intros [_ [H | H]]; [discriminate |].
        apply (proj2 (filter_nonempty_iff (conflictsWith incoming)
                                          (e0 :: rest))) in H.
        congruence.
    + simpl. split; [intros _; split; [discriminate | left; reflexivity] |].
      reflexivity.
Qed.

(** An invalid result always names its reason, a valid one never does. *)
Lemma validateOperation_reason incoming existing :
  isValid (validateOperation incoming existing) = false <->
  reason (validateOperation incoming existing) <> None.
Proof.
  unfold validateOperation.
  destruct existing as [| e0 rest]; simpl.
  - split; [discriminate | intro H; contradiction H; reflexivity].
  - destruct (negb (truthyNum (Op.timestamp incoming))); simpl.
    + split; [discriminate | reflexivity].
    + match goal with
      | |- context [if ?b then _ else _] => destruct b; simpl
      end.
      * split; [discriminate | reflexivity].
      * split; [discriminate | intro H; contradiction H; reflexivity].
Qed.

Lemma executeOperation_applies now sessions sessionId session operation :
  sessions sessionId = Some session ->
  exists session',
    snd (executeOperation now sessions sessionId operation) sessionId
    = Some session' /\
    content session'
    = applyOperation (content session)
                     (Op.withTimestamp (Some now) operation) /\
    operations session'
    = operations session ++ [Op.withTimestamp (Some now) operation].
Proof.
  intro Hs. unfold executeOperation. rewrite Hs. simpl.
  unfold setSession. rewrite String.eqb_refl.
  eexists. split; [reflexivity |]. split; reflexivity.
Qed.

End ValidateFacts.

Section ValidateClaims.
Import JS Collab Stated Samples.

(** C9 (as stated, refuted): the only existing operation is of the same user
    ["u1"] as the incoming one (both written with a [userId] and no
    [fromUserId]) and has the same timestamp; no operation of a different
    user exists, yet the result is invalid. *)
Lemma validate_flags_same_userId :
  let incoming := stamped 5000 None (insertOp "u1" 0 "a") in
  let existing := [stamped 5000 None (insertOp "u1" 1 "b")] in
  Forall (fun e => sameUser e incoming = true) existing /\
  isValid (validateOperation incoming existing) = false.
Proof.
  cbv zeta. split; [repeat constructor | reflexivity].
Qed.

(** C9 (amended): for every incoming operation carrying a non-zero timestamp
    and every list of existing operations, validate returns valid = false
    exactly when some existing operation that does not share a non-empty
    [fromUserId] with the incoming one has a timestamp (a missing one counts
    as 0) strictly within 1000 ms of the incoming timestamp; an incoming
    operation whose timestamp is missing or 0 is invalid against every
    non-empty list; a result is invalid exactly when it carries a reason;
    and the result is advisory only: [executeOperation] applies every
    operation to the session content and appends it to the history without
    consulting it. *)
Theorem validateOperation_conflict_window incoming existing :
  (forall t,
     Op.timestamp incoming = Some t -> t <> 0 ->
     (isValid (validateOperation incoming existing) = false <->
      exists e,
        In e existing /\
        sameFromUser e incoming = false /\
        Z.abs (orNum (Op.timestamp e) 0 - t) < 1000)) /\
  (truthyNum (Op.timestamp incoming) = false ->
   existing <> [] ->
   validateOperation incoming existing
   = {| isValid := false; reason := Some MissingTimestamp |}) /\
  (isValid (validateOperation incoming existing) = false <->
   reason (validateOperation incoming existing) <> None) /\
  (forall now sessions sessionId session,
     sessions sessionId = Some session ->
     exists session',
       snd (executeOperation now sessions sessionId incoming) sessionId
       = Some session' /\
       content session'
       = applyOperation (content session)
                        (Op.withTimestamp (Some now) incoming) /\
       operations session'
       = operations session ++ [Op.withTimestamp (Some now) incoming]).
Proof.
  split; [| split; [| split]].
  - intros t Hts Hnz.
    rewrite validateOperation_invalid_iff.
    assert (Htruthy : truthyNum (Op.timestamp incoming) = true).
    { rewrite Hts. simpl. apply negb_true_iff, Z.eqb_neq, Hnz. }
    assert (Hor : orNum (Op.timestamp incoming) 0 = t).
    { rewrite Hts. simpl. destruct (Z.eqb_spec t 0); [contradiction | auto]. }
    split.
    + intros [_ [H | (e & Hin & Hc)]]; [congruence |].
      apply conflictsWith_spec in Hc. rewrite Hor in Hc.
      exists e. tauto.
    + intros (e & Hin & Hsame & Hwin). split.
      * intro Hnil. rewrite Hnil in Hin. contradiction.
      * right. exists e. split; [exact Hin |].
        apply conflictsWith_spec. rewrite Hor. auto.
  - intros Hts Hne. unfold validateOperation.
    destruct existing; [contradiction |].
    rewrite Hts. reflexivity.
  - apply validateOperation_reason.
  - intros now sessions sessionId session.
    apply executeOperation_applies.
Qed.

Lemma validateOperation_conflict_window_witness :
  isValid
    (validateOperation
       (stamped 5000 (Some "u1"%string) (insertOp "u1" 0 "a"))
       [stamped 100 (Some "u2"%string) (insertOp "u2" 3 "x");
        stamped 4500 (Some "u3"%string) (deleteOp "u3" 1 1)])
  = false.
Proof.
  apply (proj1 (validateOperation_conflict_window _ _) 5000).
  - reflexivity.
  - discriminate.
  - exists (stamped 4500 (Some "u3"%string) (deleteOp "u3" 1 1)).
    split; [right; left; reflexivity |].
    split; [reflexivity | simpl; lia].
Defined.

End ValidateClaims.

(** ** The session registry *)

Section ListFacts.
Context {A : Type}.

Lemma findIndex_Some (p : A -> bool) l : forall i,
  Server.findIndex p l = Some i ->
  exists x, nth_error l i = Some x /\ p x = true.
Proof.
  induction l as [| y rest IH]; intros i H; simpl in H.
  - discriminate.
  - destruct (p y) eqn:Hy.
    + inversion H. subst. exists y. auto.
    + destruct (Server.findIndex p rest) as [j |]; [| discriminate].
      inversion H. subst. simpl. apply IH. reflexivity.
Qed.

Lemma findIndex_None (p : A -> bool) l :
  Server.findIndex p l = None <-> forall x, In x l -> p x = false.
Proof.
  induction l as [| y rest IH]; simpl.
  - split; [intros _ x [] | reflexivity].
  - destruct (p y) eqn:Hy.
    + split; [discriminate |].
      intro H. specialize (H y (or_introl eq_refl)). congruence.
    + destruct (Server.findIndex p rest) as [j |]; simpl.
      * split; [discriminate |].
        intro H. assert (Hn : Some j = None); [| discriminate].
        apply (proj2 IH). intros x Hx. apply H. right. exact Hx.
      * split; [| reflexivity].
        intros _ x [<- | Hx]; [exact Hy |].
        apply (proj1 IH); auto.
Qed.

Lemma setAt_length (x : A) (l : list A) : forall i,
  List.length (Server.setAt i x l) = List.length l.
Proof.
  induction l as [| y rest IH]; intros [| j]; simpl; auto.
Qed.

Lemma map_setAt {B : Type} (f : A -> B) (x y : A) l : forall i,
  nth_error l i = Some y -> f x = f y ->
  map f (Server.setAt i x l) = map f l.
Proof.
  induction l as [| z rest IH]; intros [| j] Hn Hf; simpl in *;
    try discriminate.
  - inversion Hn. subst. rewrite Hf. reflexivity.
  - f_equal. apply IH; assumption.
Qed.

Lemma nth_error_setAt (x : A) (l : list A) : forall i,
  (i < List.length l)%nat -> nth_error (Server.setAt i x l) i = Some x.
Proof.
  induction l as [| z rest IH]; intros [| j] Hlt; simpl in *; try lia.
  - reflexivity.
  - apply IH. lia.
Qed.

Lemma removeAt_length (l : list A) : forall i,
  (List.length (Server.removeAt i l) <= List.length l)%nat.
Proof.
  induction l as [| y rest IH]; intros [| j]; simpl; auto.
  specialize (IH j). lia.
Qed.

End ListFacts.

Section RegistryFacts.
Import Server.
Variable toLowerCase : string -> string.


(** At capacity every join is refused, whoever asks. *)
Lemma joinSession_full session data env :
  (MAX_USERS_PER_SESSION <= List.length (Session.users session))%nat ->
  joinSession toLowerCase session data env
  = (session, None, [ConnectionAck (AckFailure SessionFull)]).
Proof.
  intro H. unfold Server.joinSession.
  apply Nat.leb_le in H. rewrite H. reflexivity.
Qed.

Lemma joinSession_nameTaken session data env :
  (List.length (Session.users session) < MAX_USERS_PER_SESSION)%nat ->
  isDuplicateName toLowerCase (Session.users session) (userId data) (userName data) = true ->
  joinSession toLowerCase session data env
  = (session, None, [ConnectionAck (AckFailure NameTaken)]).
Proof.
  intros Hlt Hdup. unfold Server.joinSession.
  apply Nat.leb_gt in Hlt. rewrite Hlt, Hdup. reflexivity.
Qed.

(** The outcome of a join that passes both checks. *)
Lemma joinSession_accepted session data env :
  (List.length (Session.users session) < MAX_USERS_PER_SESSION)%nat ->
  isDuplicateName toLowerCase (Session.users session) (userId data) (userName data) = false ->
  let user :=
    User.mk (userId data) (userName data) (userColor env) active (now env)
            (Some (socket env)) None None in
  ackAfterJoin toLowerCase session data env
  = Some (AckSuccess (sessionId data) (userId data)) /\
  snd (fst (joinSession toLowerCase session data env)) = Some user /\
  ((exists i existing,
      findIndex (fun u => String.eqb (User.id u) (userId data))
                (Session.users session) = Some i /\
      nth_error (Session.users session) i = Some existing /\
      User.id existing = userId data /\
      usersAfterJoin toLowerCase session data env
      = setAt i (mergeUser existing user) (Session.users session))
   \/
   ((forall u, In u (Session.users session) -> User.id u <> userId data) /\
    usersAfterJoin toLowerCase session data env = Session.users session ++ [user])).
Proof.
  intros Hlt Hdup user.
  unfold Server.ackAfterJoin, Server.usersAfterJoin, Server.joinSession.
  apply Nat.leb_gt in Hlt. rewrite Hlt, Hdup.
  split; [reflexivity |]. split; [reflexivity |].
  destruct (findIndex (fun u => String.eqb (User.id u) (userId data))
                      (Session.users session)) as [i |] eqn:Hfind.
  - left. destruct (findIndex_Some _ _ _ Hfind) as (existing & Hnth & Hid).
    exists i, existing. cbn [fst snd Session.users]. rewrite Hnth.
    apply String.eqb_eq in Hid. auto.
  - right. split; [| reflexivity].
    intros u Hu. apply String.eqb_neq.
    apply (proj1 (findIndex_None _ _) Hfind u Hu).
Qed.

Lemma joinSession_length session data env :
  (List.length (Session.users session) <= MAX_USERS_PER_SESSION)%nat ->
  (List.length (usersAfterJoin toLowerCase session data env) <= MAX_USERS_PER_SESSION)%nat.
Proof.
  intro Hle.
  destruct (Nat.le_gt_cases MAX_USERS_PER_SESSION
                            (List.length (Session.users session)))
    as [Hfull | Hroom].
  - unfold Server.usersAfterJoin. rewrite (joinSession_full _ _ _ Hfull). exact Hle.
  - destruct (isDuplicateName toLowerCase (Session.users session) (userId data)
                              (userName data)) eqn:Hdup.
    + unfold Server.usersAfterJoin.
      rewrite (joinSession_nameTaken _ _ _ Hroom Hdup). exact Hle.
    + destruct (joinSession_accepted session data env Hroom Hdup)
        as (_ & _ & [(i & existing & _ & _ & _ & ->) | (_ & ->)]).
      * rewrite setAt_length. exact Hle.
      * rewrite length_app. simpl. lia.
Qed.

Lemma leaveSession_length session uid :
  (List.length (Session.users (fst (leaveSession session uid)))
   <= List.length (Session.users session))%nat.
Proof.
  unfold leaveSession.
  destruct (findIndex _ _) as [i |]; simpl; [apply removeAt_length | lia].
Qed.

Lemma update_lookup {V : Type} k (v : V) m k' :
  update k v m k' = if String.eqb k k' then v else m k'.
Proof. reflexivity. Qed.




End RegistryFacts.

Section PeerRegistryFacts.
Variable toLowerCase : string -> string.




Lemma filter_shorter {A : Type} (p : A -> bool) (l : list A) x :
  In x l -> p x = false ->
  (List.length (filter p l) < List.length l)%nat.
Proof.
  induction l as [| y rest IH]; simpl; [intros [] |].
  intros [-> | Hin] Hx.
  - rewrite Hx. pose proof (filter_length_le p rest). lia.
  - specialize (IH Hin Hx). destruct (p y); simpl; lia.
Qed.



End PeerRegistryFacts.

Section LobbyFacts.
Import JS Peer PeerMore.
Variable toLowerCase : string -> string.








End LobbyFacts.

Section RegistryClaims.
Import JS Server Samples.







End RegistryClaims.

(** ** The retry loop of the broker client *)

Section RetryFacts.
Import Broker.
Variable sessionId0 : string.
Variable behaviour : nat -> Behaviour.

Lemma In_schedule due c waiting x :
  In x (schedule due c waiting) <-> x = (due, c) \/ In x waiting.
Proof.
  induction waiting as [| [t c'] rest IH]; simpl.
  - intuition.
  - destruct (t <=? due); simpl; rewrite ?IH; intuition.
Qed.

Lemma Forall_schedule (P : Z * Callback -> Prop) due c waiting :
  P (due, c) -> Forall P waiting -> Forall P (schedule due c waiting).
Proof.
  intros Hnew Hall. apply Forall_forall. intros x Hx.
  apply In_schedule in Hx. destruct Hx as [-> | Hx]; [exact Hnew |].
  rewrite Forall_forall in Hall. apply Hall, Hx.
Qed.

Lemma ordered_schedule due c waiting :
  ordered waiting -> ordered (schedule due c waiting).
Proof.
  induction waiting as [| [t c'] rest IH]; simpl.
  - intros _. split; [constructor | exact I].
  - intros [Hhead Hrest]. destruct (t <=? due) eqn:Hle; simpl.
    + split; [| apply IH, Hrest].
      apply Forall_schedule; [simpl; lia | exact Hhead].
    + apply Z.leb_gt in Hle. split; [| split; [exact Hhead | exact Hrest]].
      constructor; [simpl; lia |].
      rewrite Forall_forall in *. intros y Hy. specialize (Hhead y Hy).
      simpl in *. lia.
Qed.

Lemma agendaWeight_schedule bound due c waiting :
  agendaWeight bound (schedule due c waiting)
  = (callbackWeight bound c + agendaWeight bound waiting)%nat.
Proof.
  unfold agendaWeight.
  induction waiting as [| [t c'] rest IH]; simpl; [reflexivity |].
  destruct (t <=? due); simpl; [rewrite IH |]; lia.
Qed.

(** [listen] only schedules. *)
Lemma listen_agenda k r events : forall st x,
  In x (agenda (listen k r events st)) <->
  In x (agenda st) \/
  exists d e, In (d, e) events /\ x = (clock st + Z.of_N d, SocketCallback k r e).
Proof.
  unfold listen.
  induction events as [| [d e] rest IH]; intros st x; simpl.
  - split; [auto | intros [H | (d & e & [] & _)]; exact H].
  - rewrite IH. unfold after at 2. simpl. rewrite In_schedule. split.
    + intros [[-> | H] | (d' & e' & Hin & ->)].
      * right. exists d, e. auto.
      * left. exact H.
      * right. exists d', e'. auto.
    + intros [H | (d' & e' & [Heq | Hin] & ->)].
      * left. right. exact H.
      * inversion Heq. subst. left. left. reflexivity.
      * right. exists d', e'. auto.
Qed.

Lemma listen_fields k r events : forall st,
  clock (listen k r events st) = clock st /\
  connected (listen k r events st) = connected st /\
  sessionId (listen k r events st) = sessionId st /\
  reconnecting (listen k r events st) = reconnecting st /\
  socket (listen k r events st) = socket st /\
  attemptsMade (listen k r events st) = attemptsMade st /\
  log (listen k r events st) = log st /\
  status (listen k r events st) = status st.
Proof.
  unfold listen.
  induction events as [| [d e] rest IH]; intro st; simpl.
  - repeat split.
  - destruct (IH (after (Z.of_N d) (SocketCallback k r e) st))
      as (H1 & H2 & H3 & H4 & H5 & H6 & H7 & H8).
    rewrite H1, H2, H3, H4, H5, H6, H7, H8. repeat split.
Qed.

Lemma listen_ordered k r events : forall st,
  ordered (agenda st) -> ordered (agenda (listen k r events st)).
Proof.
  unfold listen.
  induction events as [| [d e] rest IH]; intros st H; simpl; [exact H |].
  apply IH. simpl. apply ordered_schedule, H.
Qed.

Lemma listen_weight bound k r events : forall st,
  agendaWeight bound (agenda (listen k r events st))
  = (List.length events * callbackWeight bound (ConnectionTimer k r)
     + agendaWeight bound (agenda st))%nat.
Proof.
  unfold listen.
  induction events as [| [d e] rest IH]; intro st; simpl; [reflexivity |].
  rewrite IH. simpl. rewrite agendaWeight_schedule.
  destruct r; simpl; lia.
Qed.

(** Once the promise is settled the loop stands still. *)
Lemma run_settled fuel st :
  status st <> Pending -> run sessionId0 behaviour fuel st = st.
Proof.
  intro H. destruct fuel; simpl; [reflexivity |].
  destruct (status st); try reflexivity. contradiction.
Qed.

Lemma run_invariant (P : State -> Prop) :
  (forall st t c rest,
     status st = Pending -> agenda st = (t, c) :: rest -> P st ->
     P (turn sessionId0 behaviour t c rest st)) ->
  forall fuel st, P st -> P (run sessionId0 behaviour fuel st).
Proof.
  intro Hstep. induction fuel as [| fuel IH]; intros st HP; simpl.
  - exact HP.
  - destruct (status st) eqn:Hs; try exact HP.
    destruct (agenda st) as [| [t c] rest] eqn:Ha; [exact HP |].
    apply IH, (Hstep st t c rest Hs Ha HP).
Qed.

Ltac open_state st :=
  destruct st as [clk con sid rec sock made waiting lg stat];
  cbn [clock connected sessionId reconnecting socket attemptsMade agenda log
       status] in *.

(** [unconnected] is kept. *)
Lemma runCallback_unconnected st t c rest :
  status st = Pending -> agenda st = (t, c) :: rest ->
  unconnected st ->
  unconnected (turn sessionId0 behaviour t c rest st).
Proof.
  intros Hs Ha [_ Hun]. destruct (Hun Hs) as (Hc & Hi & Hr).
  unfold turn. open_state st. subst.
  destruct c as [k r [| [|] err | |] | k r | r]; simpl.
  - destruct sock; simpl; split; [discriminate | auto | discriminate | auto].
  - split; [discriminate | discriminate].
  - destruct r; simpl; split; try discriminate; auto.
  - destruct r; simpl; split; try discriminate; auto.
  - split; [discriminate | auto].
  - destruct r; simpl; split; try discriminate; auto.
  - unfold connectWithRetry. simpl.
    destruct (behaviour made) as [| events]; simpl.
    + destruct r; simpl; split; try discriminate; auto.
    + unfold unconnected, after. simpl.
      match goal with
      | |- context [listen ?k ?r ?ev ?s] =>
          destruct (listen_fields k r ev s)
            as (H1 & H2 & H3 & H4 & H5 & H6 & H7 & H8)
      end.
      rewrite H2, H3, H4, H8. simpl. split; [discriminate | auto].
Qed.

Ltac summary_case :=
  split; [reflexivity |];
  split; [rewrite <- ?app_assoc, ?app_nil_r; reflexivity |];
  split; [intro; rewrite ?In_schedule; simpl; intuition |];
  split; [reflexivity |];
  split; [intro; try apply ordered_schedule; assumption |];
  intro; rewrite ?agendaWeight_schedule; unfold agendaWeight; simpl;
  lia.

(** One turn of the event loop, summed up. *)
Lemma runCallback_summary st t c rest :
  status st = Pending -> agenda st = (t, c) :: rest ->
  unconnected st ->
  let st' := turn sessionId0 behaviour t c rest st in
  clock st' = t /\
  log st'
  = log st ++ map (pair t)
                  (entriesOf behaviour c (attemptsMade st) (socket st)) /\
  (forall x, In x (agenda st') <->
             In x rest \/ In x (openedBy behaviour c (attemptsMade st) t)
             \/ In x (retryOf behaviour c (attemptsMade st) t)) /\
  status st' = statusAfter behaviour c (attemptsMade st) /\
  (ordered rest -> ordered (agenda st')) /\
  (forall bound,
     agendaWeight bound (agenda st')
     = (agendaWeight bound (openedBy behaviour c (attemptsMade st) t)
        + agendaWeight bound (retryOf behaviour c (attemptsMade st) t)
        + agendaWeight bound rest)%nat).
Proof.
  intros Hs Ha [_ Hun]. destruct (Hun Hs) as (Hc & Hi & Hr).
  unfold turn. open_state st. subst.
  destruct c as [k r [| [|] err | |] | k r | r];
    unfold entriesOf, retryOf, statusAfter; simpl.
  - destruct sock; simpl; summary_case.
  - summary_case.
  - destruct r; simpl; summary_case.
  - destruct r; simpl; summary_case.
  - summary_case.
  - destruct r; simpl; summary_case.
  - unfold connectWithRetry. simpl.
    destruct (behaviour made) as [| events]; simpl.
    + destruct r; simpl; rewrite <- ?app_assoc; simpl; summary_case.
    + match goal with
      | |- context [listen ?k ?r ?ev ?s] =>
          destruct (listen_fields k r ev s)
            as (H1 & H2 & H3 & H4 & H5 & H6 & H7 & H8);
          pose proof (listen_agenda k r ev s) as Hag
      end.
      rewrite H1, H7, H8. simpl in *.
      split; [reflexivity |]. split; [reflexivity |].
      split; [| split; [reflexivity | split]].
      * intro x. rewrite In_schedule, Hag. simpl.
        rewrite in_map_iff. split.
        -- intros [-> | [H | (d & e & Hin & ->)]].
           ++ right. left. left. reflexivity.
           ++ left. exact H.
           ++ right. left. right. exists (d, e). auto.
        -- intros [H | [[<- | ((d & e) & <- & Hin)] | []]].
           ++ right. left. exact H.
           ++ left. reflexivity.
           ++ right. right. exists d, e. auto.
      * intro Hord. apply ordered_schedule, listen_ordered. exact Hord.
      * intro bound. rewrite agendaWeight_schedule, listen_weight.
        unfold agendaWeight. simpl. rewrite map_map. simpl.
        assert (Hsum : forall l : list (N * SocketEvent),
                   list_sum (map (fun _ => match r with
                                           | O => 1%nat
                                           | S r0 => S (retryWeight bound r0)
                                           end) l)
                   = (List.length l * match r with
                                      | O => 1%nat
                                      | S r0 => S (retryWeight bound r0)
                                      end)%nat).
        { induction l as [| y l IHl]; simpl; [reflexivity | rewrite IHl; lia]. }
        destruct r; simpl in *; rewrite Hsum; lia.
Qed.

Lemma In_stamped (t t0 : Z) (a : Action) l :
  In (t0, a) (map (pair t) l) <-> t0 = t /\ In a l.
Proof.
  rewrite in_map_iff. split.
  - intros (b & Heq & Hin). inversion Heq. subst. auto.
  - intros [-> Hin]. exists a. auto.
Qed.

Lemma entries_attempt c made sock k r :
  In (Attempt k r) (entriesOf behaviour c made sock)
  <-> beginningOf c made = Some (k, r).
Proof.
  unfold entriesOf.
  destruct c as [k0 r0 [| [|] err | |] | k0 r0 | r0]; simpl;
    try destruct sock; try destruct r0; try destruct (behaviour made);
    simpl; split; intro H;
    repeat match goal with
           | H : _ \/ _ |- _ => destruct H
           | H : False |- _ => contradiction
           end;
    try discriminate; try (inversion H; subst); auto.
Qed.

Lemma entries_failure c made sock k r cause :
  In (Failure k r cause) (entriesOf behaviour c made sock)
  <-> failureOf behaviour c made = Some (k, r, cause).
Proof.
  unfold entriesOf.
  destruct c as [k0 r0 [| [|] err | |] | k0 r0 | r0]; simpl;
    try destruct sock; try destruct r0; try destruct (behaviour made);
    simpl; split; intro H;
    repeat match goal with
           | H : _ \/ _ |- _ => destruct H
           | H : False |- _ => contradiction
           end;
    try discriminate; try (inversion H; subst); auto.
Qed.

Lemma entries_accepted c made sock k :
  In (Accepted k) (entriesOf behaviour c made sock)
  <-> acceptanceOf c = Some k.
Proof.
  unfold entriesOf.
  destruct c as [k0 r0 [| [|] err | |] | k0 r0 | r0]; simpl;
    try destruct sock; try destruct r0; try destruct (behaviour made);
    simpl; split; intro H;
    repeat match goal with
           | H : _ \/ _ |- _ => destruct H
           | H : False |- _ => contradiction
           end;
    try discriminate; try (inversion H; subst); auto.
Qed.

Lemma failure_not_accepted c made x :
  failureOf behaviour c made = Some x -> acceptanceOf c = None.
Proof.
  destruct c as [k0 r0 [| [|] err | |] | k0 r0 | r0]; simpl;
    try discriminate; reflexivity.
Qed.

Lemma failure_of_callback c made k r cause :
  failureOf behaviour c made = Some (k, r, cause) ->
  (exists e, c = SocketCallback k r e) \/ c = ConnectionTimer k r \/
  (c = RetryTimer r /\ k = made /\ behaviour made = Throws).
Proof.
  destruct c as [k0 r0 [| [|] err | |] | k0 r0 | r0]; simpl;
    try discriminate; intro H; try (inversion H; subst; eauto; fail).
  destruct (behaviour made) eqn:Hb; [| discriminate].
  inversion H; subst. auto.
Qed.

Lemma opened_shape c made t x :
  In x (openedBy behaviour c made t) ->
  exists r events,
    c = RetryTimer r /\ behaviour made = Opens events /\
    (x = (t + 5000, ConnectionTimer made r) \/
     exists d e, In (d, e) events /\
                 x = (t + Z.of_N d, SocketCallback made r e)).
Proof.
  destruct c as [k0 r0 e0 | k0 r0 | r0]; simpl; try contradiction.
  destruct (behaviour made) as [| events] eqn:Hb; simpl; [contradiction |].
  intros [<- | Hin].
  - exists r0, events. auto.
  - apply in_map_iff in Hin. destruct Hin as ((d & e) & <- & Hin).
    exists r0, events. split; [reflexivity |]. split; [reflexivity |].
    right. exists d, e. auto.
Qed.

Lemma retry_shape c made t x :
  In x (retryOf behaviour c made t) <->
  exists k r cause,
    failureOf behaviour c made = Some (k, S r, cause) /\
    x = (t + 1000, RetryTimer r).
Proof.
  unfold retryOf.
  destruct (failureOf behaviour c made) as [[[k r] cause] |]; simpl.
  - destruct r as [| r]; simpl.
    + split; [contradiction | intros (k' & r' & c' & H & _); discriminate].
    + split.
      * intros [<- | []]. exists k, r, cause. auto.
      * intros (k' & r' & c' & H & ->). inversion H. left. reflexivity.
  - split; [contradiction | intros (k' & r' & c' & H & _); discriminate].
Qed.

Section Turn.

Variables (st : State) (t : Z) (c : Callback) (rest : list (Z * Callback)).
Hypothesis Hpending : status st = Pending.
Hypothesis Hagenda : agenda st = (t, c) :: rest.
Hypothesis Hunconnected : unconnected st.


Lemma turn_log :
  log (turn sessionId0 behaviour t c rest st)
  = log st ++ map (pair t)
                  (entriesOf behaviour c (attemptsMade st) (socket st)).
Proof.
  apply (runCallback_summary st t c rest Hpending Hagenda Hunconnected).
Qed.

Lemma turn_agenda x :
  In x (agenda (turn sessionId0 behaviour t c rest st)) <->
  In x rest \/ In x (openedBy behaviour c (attemptsMade st) t)
  \/ In x (retryOf behaviour c (attemptsMade st) t).
Proof.
  apply (runCallback_summary st t c rest Hpending Hagenda Hunconnected).
Qed.

Lemma turn_status : status (turn sessionId0 behaviour t c rest st) = statusAfter behaviour c (attemptsMade st).
Proof.
  apply (runCallback_summary st t c rest Hpending Hagenda Hunconnected).
Qed.

Lemma turn_clock : clock (turn sessionId0 behaviour t c rest st) = t.
Proof.
  apply (runCallback_summary st t c rest Hpending Hagenda Hunconnected).
Qed.

Lemma turn_old x : In x (log st) -> In x (log (turn sessionId0 behaviour t c rest st)).
Proof. rewrite turn_log. intro H. apply in_or_app. auto. Qed.

Lemma turn_new a :
  In a (entriesOf behaviour c (attemptsMade st) (socket st)) ->
  In (t, a) (log (turn sessionId0 behaviour t c rest st)).
Proof.
  rewrite turn_log. intro H. apply in_or_app. right. apply in_map, H.
Qed.

Lemma turn_entry t0 a :
  In (t0, a) (log (turn sessionId0 behaviour t c rest st)) ->
  In (t0, a) (log st) \/
  (t0 = t /\ In a (entriesOf behaviour c (attemptsMade st) (socket st))).
Proof.
  rewrite turn_log. intro H. apply in_app_iff in H.
  destruct H as [H | H]; [left; exact H | right; apply In_stamped, H].
Qed.

Lemma turn_waiting x : In x rest -> In x (agenda (turn sessionId0 behaviour t c rest st)).
Proof. intro H. apply turn_agenda. auto. Qed.

(** The attempt of a failure handled in this turn. *)
Lemma turn_failed k r cause :
  chained st ->
  failureOf behaviour c (attemptsMade st) = Some (k, r, cause) ->
  exists t', t' <= t /\ In (t', Attempt k r) (log (turn sessionId0 behaviour t c rest st)).
Proof.
  intros (_ & _ & Hcb & _) Hf.
  destruct (failure_of_callback _ _ _ _ _ Hf)
    as [(e & Hc) | [Hc | (Hc & Hk & Hb)]].
  - destruct (Hcb t k r) as (t' & Hle & Hin).
    { left. exists e. rewrite Hagenda, Hc. left. reflexivity. }
    exists t'. split; [exact Hle | apply turn_old, Hin].
  - destruct (Hcb t k r) as (t' & Hle & Hin).
    { right. rewrite Hagenda, Hc. left. reflexivity. }
    exists t'. split; [exact Hle | apply turn_old, Hin].
  - exists t. split; [lia |]. apply turn_new, entries_attempt.
    rewrite Hc, Hk. reflexivity.
Qed.

Lemma turn_chained : chained st -> chained (turn sessionId0 behaviour t c rest st).
Proof.
  intro Hch. pose proof Hch as (Hatt & Hret & Hcb & Hfail).
  assert (Hatt' : forall t0 k r,
             In (t0, Attempt k r) (log (turn sessionId0 behaviour t c rest st)) ->
             (r = 3%nat /\ t0 = 0) \/
             ((r < 3)%nat /\
              exists k' c', In (t0 - 1000, Failure k' (S r) c') (log (turn sessionId0 behaviour t c rest st)))).
  { intros t0 k r Hin. apply turn_entry in Hin.
    destruct Hin as [Hin | [-> Hin]].
    - destruct (Hatt _ _ _ Hin) as [H | (Hlt & k' & c' & H)];
        [left; exact H |].
      right. split; [exact Hlt |]. exists k', c'. apply turn_old, H.
    - apply entries_attempt in Hin.
      assert (Hc : c = RetryTimer r).
      { destruct c as [k0 r0 e0 | k0 r0 | r0]; try discriminate.
        simpl in Hin. inversion Hin. reflexivity. }
      destruct (Hret t r) as [H | (Hlt & k' & c' & H)];
        [rewrite Hagenda, Hc; left; reflexivity | left; exact H |].
      right. split; [exact Hlt |]. exists k', c'. apply turn_old, H. }
  split; [exact Hatt' |]. split; [| split].
  - intros t0 r Hin. apply turn_agenda in Hin.
    destruct Hin as [Hin | [Hin | Hin]].
    + destruct (Hret t0 r) as [H | (Hlt & k' & c' & H)];
        [rewrite Hagenda; right; exact Hin | left; exact H |].
      right. split; [exact Hlt |]. exists k', c'. apply turn_old, H.
    + apply opened_shape in Hin.
      destruct Hin as (r1 & events & _ & _ & [H | (d & e & _ & H)]);
        discriminate.
    + apply retry_shape in Hin.
      destruct Hin as (k & r1 & cause & Hf & Heq). inversion Heq. subst.
      right. split.
      * destruct (turn_failed _ _ _ Hch Hf) as (t' & _ & Hin').
        destruct (Hatt' _ _ _ Hin') as [[H _] | [H _]]; lia.
      * exists k, cause. replace (t + 1000 - 1000) with t by lia.
        apply turn_new, entries_failure, Hf.
  - intros t0 k r Hin.
    assert (Hcase : In (t0, ConnectionTimer k r) (agenda (turn sessionId0 behaviour t c rest st)) \/
                    exists e, In (t0, SocketCallback k r e) (agenda (turn sessionId0 behaviour t c rest st)))
      by (destruct Hin; auto).
    clear Hin.
    assert (Hopen : forall x,
               In x (openedBy behaviour c (attemptsMade st) t) ->
               (x = (t0, ConnectionTimer k r) \/
                exists e, x = (t0, SocketCallback k r e)) ->
               exists t', t' <= t0 /\ In (t', Attempt k r) (log (turn sessionId0 behaviour t c rest st))).
    { intros x Hx Hshape. apply opened_shape in Hx.
      destruct Hx as (r1 & events & Hc & Hb & Hx).
      exists t. split.
      - destruct Hx as [-> | (d & e & _ & ->)];
          destruct Hshape as [H | (e' & H)]; inversion H; lia.
      - apply turn_new, entries_attempt. rewrite Hc. simpl.
        destruct Hx as [-> | (d & e & _ & ->)];
          destruct Hshape as [H | (e' & H)]; inversion H; reflexivity. }
    destruct Hcase as [Hin | (e & Hin)]; apply turn_agenda in Hin;
      destruct Hin as [Hin | [Hin | Hin]].
    + destruct (Hcb t0 k r) as (t' & Hle & H);
        [right; rewrite Hagenda; right; exact Hin |].
      exists t'. split; [exact Hle | apply turn_old, H].
    + apply (Hopen _ Hin). left. reflexivity.
    + apply retry_shape in Hin. destruct Hin as (? & ? & ? & _ & H).
      discriminate.
    + destruct (Hcb t0 k r) as (t' & Hle & H);
        [left; exists e; rewrite Hagenda; right; exact Hin |].
      exists t'. split; [exact Hle | apply turn_old, H].
    + apply (Hopen _ Hin). right. exists e. reflexivity.
    + apply retry_shape in Hin. destruct Hin as (? & ? & ? & _ & H).
      discriminate.
  - intros t0 k r cause Hin. apply turn_entry in Hin.
    destruct Hin as [Hin | [-> Hin]].
    + destruct (Hfail _ _ _ _ Hin) as (t' & Hle & H).
      exists t'. split; [exact Hle | apply turn_old, H].
    + apply entries_failure in Hin. apply (turn_failed _ _ _ Hch Hin).
Qed.

Lemma turn_retried : retried st -> retried (turn sessionId0 behaviour t c rest st).
Proof.
  intros (Hre & Hfalse & Htrue).
  assert (Hnofail : forall t0 k c0, ~ In (t0, Failure k O c0) (log st)).
  { intros t0 k c0 Hin.
    assert (status st = Resolved false) by (apply Hfalse; eauto).
    congruence. }
  assert (Hnoacc : forall t0 k, ~ In (t0, Accepted k) (log st)).
  { intros t0 k Hin.
    assert (status st = Resolved true) by (apply Htrue; eauto).
    congruence. }
  split; [| split].
  - intros t0 k r c0 Hin. apply turn_entry in Hin.
    destruct Hin as [Hin | [Ht Hin]].
    + destruct (Hre _ _ _ _ Hin) as [H | (k' & H)].
      * rewrite Hagenda in H. destruct H as [H | H].
        -- assert (Heq : t = t0 + 1000 /\ c = RetryTimer r)
             by (inversion H; auto).
           destruct Heq as [Ht Hc].
           right. exists (attemptsMade st). rewrite <- Ht.
           apply turn_new, entries_attempt. rewrite Hc. reflexivity.
        -- left. apply turn_waiting, H.
      * right. exists k'. apply turn_old, H.
    + apply entries_failure in Hin. left. rewrite Ht.
      apply turn_agenda. right. right. apply retry_shape. eauto.
  - rewrite turn_status. unfold statusAfter. split.
    + intro H. destruct (acceptanceOf c); [discriminate |].
      destruct (failureOf behaviour c (attemptsMade st))
        as [[[k r] cause] |] eqn:Hf; [| discriminate].
      destruct r; [| discriminate].
      exists t, k, cause. apply turn_new, entries_failure, Hf.
    + intros (t0 & k & c0 & Hin). apply turn_entry in Hin.
      destruct Hin as [Hin | [_ Hin]]; [contradiction (Hnofail _ _ _ Hin) |].
      apply entries_failure in Hin.
      rewrite (failure_not_accepted _ _ _ Hin), Hin. reflexivity.
  - rewrite turn_status. unfold statusAfter. split.
    + intro H. destruct (acceptanceOf c) as [k |] eqn:Hacc.
      * exists t, k. apply turn_new, entries_accepted, Hacc.
      * destruct (failureOf behaviour c (attemptsMade st))
          as [[[k r] cause] |]; [destruct r |]; discriminate.
    + intros (t0 & k & Hin). apply turn_entry in Hin.
      destruct Hin as [Hin | [_ Hin]]; [contradiction (Hnoacc _ _ Hin) |].
      apply entries_accepted in Hin. rewrite Hin. reflexivity.
Qed.

Lemma trace_kept t0 k r e :
  trace t0 k r e st -> trace t0 k r e (turn sessionId0 behaviour t c rest st).
Proof.
  unfold trace. destruct e as [| [|] err | |]; auto; apply turn_old.
Qed.

Lemma turn_handled :
  handled behaviour st ->
  handled behaviour (turn sessionId0 behaviour t c rest st).
Proof.
  intros Hh t0 k r Hin. apply turn_entry in Hin.
  destruct Hin as [Hin | [Ht0 Hin]].
  - specialize (Hh _ _ _ Hin). destruct (behaviour k) as [| events] eqn:Hb.
    + apply turn_old, Hh.
    + destruct Hh as [Htimer Hevents]. split.
      * destruct Htimer as [H | H]; [| right; apply turn_old, H].
        rewrite Hagenda in H. destruct H as [H | H];
          [| left; apply turn_waiting, H].
        assert (Heq : t = t0 + 5000 /\ c = ConnectionTimer k r)
          by (inversion H; auto).
        destruct Heq as [Ht Hc]. right. rewrite <- Ht.
        apply turn_new, entries_failure. rewrite Hc. reflexivity.
      * intros d e Hde. destruct (Hevents d e Hde) as [H | H];
          [| right; apply trace_kept, H].
        rewrite Hagenda in H. destruct H as [H | H];
          [| left; apply turn_waiting, H].
        assert (Heq : t = t0 + Z.of_N d /\ c = SocketCallback k r e)
          by (inversion H; auto).
        destruct Heq as [Ht Hc]. right. rewrite <- Ht. unfold trace.
        destruct e as [| [|] err | |]; auto; apply turn_new;
          [apply entries_accepted | apply entries_failure
           | apply entries_failure]; rewrite Hc; reflexivity.
  - apply entries_attempt in Hin.
    assert (Hc : c = RetryTimer r /\ k = attemptsMade st).
    { destruct c as [k0 r0 e0 | k0 r0 | r0]; try discriminate.
      simpl in Hin. inversion Hin. auto. }
    destruct Hc as [Hc Hk]. rewrite Ht0.
    destruct (behaviour k) as [| events] eqn:Hb.
    + apply turn_new, entries_failure. rewrite Hc. simpl.
      rewrite <- Hk, Hb. reflexivity.
    + split.
      * left. apply turn_agenda. right. left. rewrite Hc. simpl.
        rewrite <- Hk, Hb. left. reflexivity.
      * intros d e Hde. left. apply turn_agenda. right. left.
        rewrite Hc. simpl. rewrite <- Hk, Hb. right.
        apply in_map_iff. exists (d, e). auto.
Qed.

Lemma turn_timely : timely st -> timely (turn sessionId0 behaviour t c rest st).
Proof.
  intros (Hord & Hahead & Hbehind). rewrite Hagenda in Hord, Hahead.
  simpl in Hord. destruct Hord as [Hhead Hrest].
  assert (Hnow : clock st <= t) by (inversion Hahead; assumption).
  split; [| split].
  - apply (runCallback_summary st t c rest Hpending Hagenda Hunconnected).
    exact Hrest.
  - rewrite turn_clock. apply Forall_forall. intros x Hx.
    apply turn_agenda in Hx. destruct Hx as [Hx | [Hx | Hx]].
    + rewrite Forall_forall in Hhead. apply (Hhead x Hx).
    + apply opened_shape in Hx.
      destruct Hx as (r & events & _ & _ & [-> | (d & e & _ & ->)]);
        simpl; lia.
    + apply retry_shape in Hx. destruct Hx as (k & r & cause & _ & ->).
      simpl. lia.
  - rewrite turn_clock, turn_log. apply Forall_app. split.
    + rewrite Forall_forall in *. intros x Hx. specialize (Hbehind x Hx).
      lia.
    + apply Forall_forall. intros [t0 a] Hx. apply In_stamped in Hx.
      simpl. lia.
Qed.

Lemma turn_alive :
  timely st -> alive st -> alive (turn sessionId0 behaviour t c rest st).
Proof.
  intros (Hord & _) (Hclock & Hwit).
  destruct (Hwit Hpending) as (tw & cw & Hin & Hdue).
  rewrite Hagenda in Hin, Hord. simpl in Hord. destruct Hord as [Hhead _].
  assert (Hle : t <= tw).
  { destruct Hin as [H | H]; [inversion H; lia |].
    rewrite Forall_forall in Hhead. apply (Hhead _ H). }
  assert (Hbound : tw <= 23000).
  { destruct cw; [contradiction | |]; destruct Hdue;
      unfold deadline in *; lia. }
  split; [rewrite turn_clock; lia |].
  intro Hp'. rewrite turn_status in Hp'. unfold statusAfter in Hp'.
  destruct Hin as [Heq | Hin];
    [| exists tw, cw; split; [apply turn_waiting, Hin | exact Hdue]].
  assert (Hsame : t = tw /\ c = cw) by (inversion Heq; auto).
  destruct Hsame as [Ht Hc]. clear Heq.
  assert (Hfails : forall k r cause,
             failureOf behaviour c (attemptsMade st) = Some (k, r, cause) ->
             (r <= 3)%nat -> tw <= 5000 + deadline r ->
             exists t1 c1,
               In (t1, c1) (agenda (turn sessionId0 behaviour t c rest st)) /\
               match c1 with
               | ConnectionTimer _ r1 => (r1 <= 3)%nat /\ t1 <= 5000 + deadline r1
               | RetryTimer r1 => (r1 <= 3)%nat /\ t1 <= deadline r1
               | SocketCallback _ _ _ => False
               end).
  { intros k r cause Hf Hr Hdl.
    rewrite (failure_not_accepted _ _ _ Hf), Hf in Hp'.
    destruct r as [| r']; [discriminate |].
    exists (t + 1000), (RetryTimer r'). split.
    - apply turn_agenda. right. right. apply retry_shape. eauto.
    - split; [lia |]. unfold deadline in *. lia. }
  destruct cw as [k r e | k r | r]; [contradiction | |];
    destruct Hdue as [Hr Hdl].
  - apply (Hfails k r TimedOut); [rewrite Hc; reflexivity | exact Hr
                                  | exact Hdl].
  - destruct (behaviour (attemptsMade st)) as [| events] eqn:Hb.
    + apply (Hfails (attemptsMade st) r Thrown);
        [rewrite Hc; simpl; rewrite Hb; reflexivity | exact Hr |].
      unfold deadline in *. lia.
    + exists (t + 5000), (ConnectionTimer (attemptsMade st) r). split.
      * apply turn_agenda. right. left. rewrite Hc. simpl. rewrite Hb.
        left. reflexivity.
      * split; [exact Hr | lia].
Qed.

Lemma turn_weight bound :
  (forall k, (eventCount (behaviour k) <= bound)%nat) ->
  (agendaWeight bound (agenda (turn sessionId0 behaviour t c rest st))
   < agendaWeight bound (agenda st))%nat.
Proof.
  intro Hbound.
  destruct (runCallback_summary st t c rest Hpending Hagenda Hunconnected)
    as (_ & _ & _ & _ & _ & Hw).
  rewrite Hw, Hagenda. unfold agendaWeight at 4. simpl.
  fold (agendaWeight bound rest).
  assert (Hlt : (agendaWeight bound
                   (openedBy behaviour c (attemptsMade st) t)
                 + agendaWeight bound
                     (retryOf behaviour c (attemptsMade st) t)
                 < callbackWeight bound c)%nat); [| lia].
  unfold retryOf.
  destruct c as [k r [| [|] err | |] | k r | r]; unfold agendaWeight;
    simpl; try (destruct r; simpl; lia).
  specialize (Hbound (attemptsMade st)).
  destruct (behaviour (attemptsMade st)) as [| events]; simpl in *.
  - destruct r; simpl; lia.
  - rewrite map_map. simpl.
    assert (Hsum : forall l : list (N * SocketEvent),
               list_sum (map (fun _ => match r with
                                       | O => 1%nat
                                       | S r0 => S (retryWeight bound r0)
                                       end) l)
               = (List.length l * match r with
                                  | O => 1%nat
                                  | S r0 => S (retryWeight bound r0)
                                  end)%nat).
    { induction l as [| y l IHl]; simpl; [reflexivity | rewrite IHl; lia]. }
    rewrite Hsum.
    destruct r as [| r']; simpl.
    + lia.
    + pose proof (Nat.mul_le_mono_r _ _ (S (retryWeight bound r')) Hbound).
      lia.
Qed.

Lemma turn_scripted :
  scripted behaviour st ->
  scripted behaviour (turn sessionId0 behaviour t c rest st).
Proof.
  intros (Hsock & Htimer & Hacc & Hfail).
  split; [| split; [| split]].
  - intros t0 k r e Hin. apply turn_agenda in Hin.
    destruct Hin as [Hin | [Hin | Hin]].
    + apply (Hsock t0 k r e). rewrite Hagenda. right. exact Hin.
    + apply opened_shape in Hin.
      destruct Hin as (r1 & events & _ & Hb & [H | (d & e1 & Hde & H)]);
        [discriminate |].
      inversion H. subst. exists events, d. auto.
    + apply retry_shape in Hin. destruct Hin as (? & ? & ? & _ & H).
      discriminate.
  - intros t0 k r Hin. apply turn_agenda in Hin.
    destruct Hin as [Hin | [Hin | Hin]].
    + apply (Htimer t0 k r). rewrite Hagenda. right. exact Hin.
    + apply opened_shape in Hin.
      destruct Hin as (r1 & events & _ & Hb & [H | (d & e1 & Hde & H)]);
        [| discriminate].
      inversion H. subst. exists events. exact Hb.
    + apply retry_shape in Hin. destruct Hin as (? & ? & ? & _ & H).
      discriminate.
  - intros t0 k Hin. apply turn_entry in Hin.
    destruct Hin as [Hin | [_ Hin]]; [apply (Hacc _ _ Hin) |].
    apply entries_accepted in Hin.
    assert (Hc : exists r error,
               c = SocketCallback k r (OnConnectionAck true error)).
    { destruct c as [k0 r0 [| [|] err | |] | k0 r0 | r0]; try discriminate.
      simpl in Hin. inversion Hin. eauto. }
    destruct Hc as (r & error & Hc).
    destruct (Hsock t k r (OnConnectionAck true error)) as (events & d & H);
      [rewrite Hagenda, Hc; left; reflexivity |].
    exists events, d, error. exact H.
  - intros t0 k r cause Hin. apply turn_entry in Hin.
    destruct Hin as [Hin | [_ Hin]]; [apply (Hfail _ _ _ _ Hin) |].
    apply entries_failure in Hin.
    assert (Hpopped : In (t, c) (agenda st))
      by (rewrite Hagenda; left; reflexivity).
    destruct c as [k0 r0 [| [|] err | |] | k0 r0 | r0]; simpl in Hin;
      try discriminate.
    + inversion Hin. subst. apply (Hsock _ _ _ _ Hpopped).
    + inversion Hin. subst. apply (Hsock _ _ _ _ Hpopped).
    + inversion Hin. subst. apply (Htimer _ _ _ Hpopped).
    + destruct (behaviour (attemptsMade st)) eqn:Hb; [| discriminate].
      inversion Hin. subst. exact Hb.
Qed.

Lemma turn_sound :
  sound behaviour st -> sound behaviour (turn sessionId0 behaviour t c rest st).
Proof.
  intros (Hun & Htime & Hch & Hre & Hh & Hsc & Hal).
  split; [apply (runCallback_unconnected st t c rest); assumption |].
  split; [apply turn_timely, Htime |].
  split; [apply turn_chained, Hch |].
  split; [apply turn_retried, Hre |].
  split; [apply turn_handled, Hh |].
  split; [apply turn_scripted, Hsc | apply turn_alive; assumption].
Qed.

End Turn.

Lemma sound_boot : sound behaviour boot.
Proof.
  unfold sound, boot. simpl.
  split; [split; [discriminate | auto] |].
  split; [repeat split; repeat constructor; simpl; lia |].
  split.
  { split; [intros ? ? ? [] |]. split.
    - intros t r [H | []]. inversion H. left. auto.
    - split; [intros t k r [(e & [H | []]) | [H | []]]; discriminate
             | intros ? ? ? ? []]. }
  split.
  { split; [intros ? ? ? ? [] |].
    split; (split; [discriminate | intros (? & ? & H); try destruct H as (? & [])]);
      try contradiction. }
  split; [intros ? ? ? [] |].
  split.
  { split; [intros ? ? ? ? [H | []]; discriminate |].
    split; [intros ? ? ? [H | []]; discriminate |].
    split; [intros ? ? [] | intros ? ? ? ? []]. }
  split; [simpl; lia |]. intros _.
  exists 0, (RetryTimer maxRetries). split; [left; reflexivity |].
  unfold maxRetries, deadline. simpl. lia.
Qed.

Lemma run_sound : forall fuel st,
  sound behaviour st -> sound behaviour (run sessionId0 behaviour fuel st).
Proof.
  apply run_invariant. intros st t c rest Hs Ha Hsound.
  apply turn_sound; [exact Hs | exact Ha | apply Hsound | exact Hsound].
Qed.

Lemma connect_boot fuel :
  connect sessionId0 behaviour fuel = run sessionId0 behaviour (S fuel) boot.
Proof. reflexivity. Qed.

Lemma connect_sound fuel : sound behaviour (connect sessionId0 behaviour fuel).
Proof. rewrite connect_boot. apply run_sound, sound_boot. Qed.

(** With enough fuel the loop does not stop while the promise is
    pending. *)
Lemma run_settles bound :
  (forall k, (eventCount (behaviour k) <= bound)%nat) ->
  forall fuel st,
    sound behaviour st ->
    (agendaWeight bound (agenda st) < fuel)%nat ->
    status (run sessionId0 behaviour fuel st) <> Pending.
Proof.
  intro Hbound. induction fuel as [| fuel IH]; intros st Hsound Hw; [lia |].
  simpl. destruct (status st) eqn:Hs; try (rewrite Hs; discriminate).
  destruct (agenda st) as [| [t c] rest] eqn:Ha.
  - destruct Hsound as (_ & _ & _ & _ & _ & _ & _ & Hwit).
    destruct (Hwit Hs) as (tw & cw & Hin & _). rewrite Ha in Hin.
    contradiction.
  - apply IH.
    + apply turn_sound; [exact Hs | exact Ha | apply Hsound | exact Hsound].
    + pose proof (turn_weight st t c rest Hs Ha (proj1 Hsound) bound Hbound)
        as Hless.
      rewrite Ha in Hless. lia.
Qed.

Lemma run_more : forall fuel more st,
  status (run sessionId0 behaviour fuel st) <> Pending ->
  run sessionId0 behaviour (fuel + more) st
  = run sessionId0 behaviour fuel st.
Proof.
  induction fuel as [| fuel IH]; intros more st H; simpl in *.
  - apply run_settled, H.
  - destruct (status st); try reflexivity.
    destruct (agenda st) as [| [t c] rest]; [reflexivity |].
    apply IH, H.
Qed.

End RetryFacts.

Section RetryMore.
Import Broker.
Variable sessionId0 : string.
Variable behaviour : nat -> Behaviour.

Lemma connect_settled bound fuel :
  (forall k, (eventCount (behaviour k) <= bound)%nat) ->
  (enoughFuel bound <= fuel)%nat ->
  status (connect sessionId0 behaviour fuel) <> Pending /\
  connect sessionId0 behaviour fuel
  = connect sessionId0 behaviour (enoughFuel bound).
Proof.
  intros Hbound Hfuel.
  assert (Hstop : status (connect sessionId0 behaviour (enoughFuel bound))
                  <> Pending).
  { rewrite connect_boot. apply (run_settles sessionId0 behaviour bound Hbound).
    - apply sound_boot.
    - unfold boot, agendaWeight, enoughFuel. simpl. lia. }
  assert (Hsame : connect sessionId0 behaviour fuel
                  = connect sessionId0 behaviour (enoughFuel bound)).
  { rewrite !connect_boot.
    replace (S fuel) with (S (enoughFuel bound) + (fuel - enoughFuel bound))%nat
      by lia.
    apply run_more. rewrite <- connect_boot. exact Hstop. }
  split; [rewrite Hsame; exact Hstop | exact Hsame].
Qed.

(** A terminal failure ends a chain of four failed attempts, each begun
    one second after the failure of the one before. *)
Lemma terminal_chain st :
  sound behaviour st ->
  status st = Resolved false ->
  exists f3 f2 f1 f0 k3 k2 k1 k0 c3 c2 c1 c0,
    In (0, Attempt k3 3) (log st) /\ In (f3, Failure k3 3 c3) (log st) /\
    In (f3 + 1000, Attempt k2 2) (log st) /\
    In (f2, Failure k2 2 c2) (log st) /\
    In (f2 + 1000, Attempt k1 1) (log st) /\
    In (f1, Failure k1 1 c1) (log st) /\
    In (f1 + 1000, Attempt k0 0) (log st) /\
    In (f0, Failure k0 0 c0) (log st) /\
    0 <= f3 /\ f3 + 1000 <= f2 /\ f2 + 1000 <= f1 /\ f1 + 1000 <= f0 /\
    f0 <= clock st.
Proof.
  intros (_ & (_ & _ & Hbehind) & (Hatt & _ & _ & Hfail) & (_ & Hfalse & _)
          & _) Hs.
  apply Hfalse in Hs. destruct Hs as (f0 & k0 & c0 & H0).
  destruct (Hfail _ _ _ _ H0) as (a0 & Hle0 & Ha0).
  destruct (Hatt _ _ _ Ha0) as [[H _] | (_ & k1 & c1 & H1)]; [discriminate |].
  destruct (Hfail _ _ _ _ H1) as (a1 & Hle1 & Ha1).
  destruct (Hatt _ _ _ Ha1) as [[H _] | (_ & k2 & c2 & H2)]; [discriminate |].
  destruct (Hfail _ _ _ _ H2) as (a2 & Hle2 & Ha2).
  destruct (Hatt _ _ _ Ha2) as [[H _] | (_ & k3 & c3 & H3)]; [discriminate |].
  destruct (Hfail _ _ _ _ H3) as (a3 & Hle3 & Ha3).
  destruct (Hatt _ _ _ Ha3) as [[_ Hzero] | (Hlt & _)]; [| lia].
  subst a3.
  exists (a2 - 1000), (a1 - 1000), (a0 - 1000), f0, k3, k2, k1, k0,
         c3, c2, c1, c0.
  replace (a2 - 1000 + 1000) with a2 by lia.
  replace (a1 - 1000 + 1000) with a1 by lia.
  replace (a0 - 1000 + 1000) with a0 by lia.
  repeat (split; [assumption || lia |]).
  rewrite Forall_forall in Hbehind. apply (Hbehind _ H0).
Qed.

End RetryMore.

Section RetryClaims.
Import Broker Samples.

(** C7 (as stated, refuted): a [connection_ack] that refuses with NameTaken
    is not terminal.  The client begins a second attempt one second after
    the refusal and emits [join] again, and when that attempt is
    acknowledged the connect resolves with [true]; refused with SessionFull
    every time, it makes four attempts, each one second after the refusal
    before, and only then resolves with [false]. *)
Lemma refused_join_is_retried :
  log (connect "s1" refusedThenAccepted 10)
  = [(0, Attempt 0 3); (40, JoinEmitted 0);
     (90, Failure 0 3 (Refused (Some Server.NameTaken)));
     (1090, Attempt 1 2); (1130, JoinEmitted 1);
     (1180, Accepted 1); (1180, Resolve true)] /\
  status (connect "s1" refusedThenAccepted 10) = Resolved true /\
  log (connect "s1" alwaysFull 20)
  = [(0, Attempt 0 3); (40, JoinEmitted 0);
     (90, Failure 0 3 (Refused (Some Server.SessionFull)));
     (1090, Attempt 1 2); (1130, JoinEmitted 1);
     (1180, Failure 1 2 (Refused (Some Server.SessionFull)));
     (2180, Attempt 2 1); (2220, JoinEmitted 2);
     (2270, Failure 2 1 (Refused (Some Server.SessionFull)));
     (3270, Attempt 3 0); (3310, JoinEmitted 3);
     (3360, Failure 3 0 (Refused (Some Server.SessionFull)));
     (3360, Resolve false)] /\
  status (connect "s1" alwaysFull 20) = Resolved false.
Proof. repeat (split; [reflexivity |]). reflexivity. Qed.

(** C7 (amended): connect treats every failure of an attempt as retryable,
    whatever its cause: an exception of the attempt, its five second timer
    finding the client not connected, an [error] of its socket, or a
    [connection_ack] that refuses (SessionFull and NameTaken included: the
    error is not looked at).  In every run of a connect on a client that is
    not connected, up to the settling of its promise:
    - a failure of an attempt with retries left begins a new attempt, with
      one retry fewer, exactly 1000 ms later (or the timer of that attempt
      is still waiting when the promise is settled);
    - an attempt that was begun has thrown and failed, or else its timer
      and every event of its socket is still waiting or has been handled,
      the timer, a refusal and an error as failures of the attempt;
    - the first attempt begins at time 0 with 3 retries left, and every
      other attempt begins 1000 ms after a failure of an attempt with one
      retry more;
    - the promise resolves with [false] exactly when an attempt with no
      retries left fails, hence only at the end of a chain of four failed
      attempts, each begun one second after the failure of the one before;
    - when no socket ever delivers an accepting [connection_ack], the
      connect does resolve with [false]. *)
Theorem connect_retries_every_failure sessionId0 behaviour fuel :
  (forall t k r cause,
     In (t, Failure k (S r) cause)
        (log (connect sessionId0 behaviour fuel)) ->
     In (t + 1000, RetryTimer r)
        (agenda (connect sessionId0 behaviour fuel)) \/
     exists k', In (t + 1000, Attempt k' r)
                   (log (connect sessionId0 behaviour fuel))) /\
  (forall t k r,
     In (t, Attempt k r) (log (connect sessionId0 behaviour fuel)) ->
     match behaviour k with
     | Throws =>
         In (t, Failure k r Thrown) (log (connect sessionId0 behaviour fuel))
     | Opens events =>
         (In (t + 5000, ConnectionTimer k r)
             (agenda (connect sessionId0 behaviour fuel)) \/
          In (t + 5000, Failure k r TimedOut)
             (log (connect sessionId0 behaviour fuel))) /\
         forall d e,
           In (d, e) events ->
           In (t + Z.of_N d, SocketCallback k r e)
              (agenda (connect sessionId0 behaviour fuel)) \/
           trace (t + Z.of_N d) k r e (connect sessionId0 behaviour fuel)
     end) /\
  (forall t k r,
     In (t, Attempt k r) (log (connect sessionId0 behaviour fuel)) ->
     (r = 3%nat /\ t = 0) \/
     ((r < 3)%nat /\
      exists k' cause,
        In (t - 1000, Failure k' (S r) cause)
           (log (connect sessionId0 behaviour fuel)))) /\
  (status (connect sessionId0 behaviour fuel) = Resolved false <->
   exists t k cause,
     In (t, Failure k O cause) (log (connect sessionId0 behaviour fuel))) /\
  (status (connect sessionId0 behaviour fuel) = Resolved false ->
   exists f3 f2 f1 f0 k3 k2 k1 k0 c3 c2 c1 c0,
     In (0, Attempt k3 3) (log (connect sessionId0 behaviour fuel)) /\
     In (f3, Failure k3 3 c3) (log (connect sessionId0 behaviour fuel)) /\
     In (f3 + 1000, Attempt k2 2) (log (connect sessionId0 behaviour fuel)) /\
     In (f2, Failure k2 2 c2) (log (connect sessionId0 behaviour fuel)) /\
     In (f2 + 1000, Attempt k1 1) (log (connect sessionId0 behaviour fuel)) /\
     In (f1, Failure k1 1 c1) (log (connect sessionId0 behaviour fuel)) /\
     In (f1 + 1000, Attempt k0 0) (log (connect sessionId0 behaviour fuel)) /\
     In (f0, Failure k0 0 c0) (log (connect sessionId0 behaviour fuel)) /\
     0 <= f3 /\ f3 + 1000 <= f2 /\ f2 + 1000 <= f1 /\ f1 + 1000 <= f0 /\
     f0 <= clock (connect sessionId0 behaviour fuel)) /\
  (forall bound,
     (forall k, (eventCount (behaviour k) <= bound)%nat) ->
     (enoughFuel bound <= fuel)%nat ->
     (forall k events d error,
        behaviour k = Opens events ->
        ~ In (d, OnConnectionAck true error) events) ->
     status (connect sessionId0 behaviour fuel) = Resolved false).
Proof.
  pose proof (connect_sound sessionId0 behaviour fuel) as Hsound.
  pose proof Hsound
    as (Hun & _ & (Hatt & _) & (Hre & Hfalse & Htrue) & Hh & Hsc & _).
  split; [exact Hre |]. split; [exact Hh |]. split; [exact Hatt |].
  split; [exact Hfalse |].
  split; [apply (terminal_chain behaviour _ Hsound) |].
  intros bound Hbound Hfuel Hnever.
  destruct (connect_settled sessionId0 behaviour bound fuel Hbound Hfuel)
    as [Hstop _].
  destruct (status (connect sessionId0 behaviour fuel)) as [| [|] |] eqn:Hs.
  - contradiction.
  - assert (Hacc : exists t k,
               In (t, Accepted k) (log (connect sessionId0 behaviour fuel)))
      by (apply Htrue; reflexivity).
    destruct Hacc as (t & k & Hacc).
    destruct Hsc as (_ & _ & Hscript & _).
    destruct (Hscript _ _ Hacc) as (events & d & error & Hb & Hin).
    contradiction (Hnever _ _ _ _ Hb Hin).
  - reflexivity.
  - destruct Hun as [Hun _]. contradiction.
Qed.

Lemma connect_retries_every_failure_witness :
  status (connect "s1" alwaysFull 1000) = Resolved false /\
  (In (1090, RetryTimer 2) (agenda (connect "s1" refusedThenAccepted 10)) \/
   exists k', In (1090, Attempt k' 2)
                 (log (connect "s1" refusedThenAccepted 10))).
Proof.
  split.
  - apply (proj2 (proj2 (proj2 (proj2 (proj2
             (connect_retries_every_failure "s1" alwaysFull 1000)))))
             2%nat).
    + intro k. simpl. lia.
    + vm_compute. lia.
    + intros k events d error Hb Hin. inversion Hb. subst.
      destruct Hin as [H | [H | []]]; discriminate.
  - apply (proj1 (connect_retries_every_failure "s1" refusedThenAccepted 10)
             90 0%nat 2%nat (Refused (Some Server.NameTaken))).
    vm_compute. auto.
Defined.

(** The five second timer of an attempt is not cancelled when the attempt
    fails in another way ([clearTimeout] is called from the timer's own
    callback only).  Here the second attempt fails by a socket error at
    6030 ms and is retried; its timer fires at 11000 ms, finds the client
    not connected and begins a second chain, so that five attempts are made
    before the fourth, which has no retries left, times out. *)
Example stale_timer_begins_a_fifth_attempt :
  log (connect "s1" neverUp 20)
  = [(0, Attempt 0 3); (5000, Failure 0 3 TimedOut);
     (6000, Attempt 1 2); (6030, Failure 1 2 TransportError);
     (7030, Attempt 2 1); (7030, Failure 2 1 Thrown);
     (8030, Attempt 3 0); (11000, Failure 1 2 TimedOut);
     (12000, Attempt 4 1); (13030, Failure 3 0 TimedOut);
     (13030, Resolve false)] /\
  attemptsMade (connect "s1" neverUp 20) = 5%nat.
Proof. split; reflexivity. Qed.

End RetryClaims.

(** ** Presence: the sweeps of the local-storage client *)

Section PresenceFacts.
Import Peer.

Lemma withStatus_same u : withStatus (status u) u = u.
Proof. destruct u. reflexivity. Qed.

Lemma validated_valid u :
  (forall raw, status u <> Other raw) -> validated u = u.
Proof.
  intro H. unfold validated.
  destruct u as [i n c s l cp sel]. simpl in *.
  destruct s as [| | | raw]; try reflexivity.
  exfalso. apply (H raw). reflexivity.
Qed.

Lemma validated_idem u : validated (validated u) = validated u.
Proof. unfold validated. simpl. destruct (status u); reflexivity. Qed.

Lemma validated_away u : validated (withStatus AWAY u) = withStatus AWAY u.
Proof. reflexivity. Qed.

Lemma map_id_validated users : map id (map validated users) = map id users.
Proof. rewrite map_map. reflexivity. Qed.

Lemma filter_length_eq {A : Type} (f : A -> bool) (l : list A) :
  List.length (filter f l) = List.length l -> filter f l = l.
Proof.
  induction l as [| x rest IH]; simpl; [reflexivity |].
  destruct (f x); simpl; intro H.
  - f_equal. apply IH. lia.
  - pose proof (filter_length_le f rest). lia.
Qed.

Lemma broadcastSync_eq st sid users :
  sessionId st = Some sid ->
  broadcastSync users st
  = {| connected := connected st; sessionId := Some sid;
       usersItem := Some (map validated users);
       broadcasts := broadcasts st ++ [Sync users] |}.
Proof.
  intro Hsession. destruct st as [c s u b]. simpl in Hsession. subst s.
  reflexivity.
Qed.

Lemma isIdle_online now u t :
  status u = ONLINE -> lastActive u = Some t -> t <> 0 ->
  (isIdle now u = true <-> AWAY_TIMEOUT < now - t).
Proof.
  intros Hs Hl Ht. unfold isIdle. rewrite Hs, Hl. simpl.
  destruct (Z.eqb_spec t 0); [contradiction |]. simpl.
  apply Z.ltb_lt.
Qed.

Lemma isTimedOut_spec now u t :
  lastActive u = Some t -> t <> 0 ->
  (isTimedOut now u = true <-> OFFLINE_TIMEOUT < now - t).
Proof.
  intros Hl Ht. unfold isTimedOut. rewrite Hl. simpl.
  destruct (Z.eqb_spec t 0); [contradiction |]. simpl.
  apply Z.ltb_lt.
Qed.

Lemma survivesCleanup_away now u t :
  status u = AWAY -> lastActive u = Some t -> t <> 0 ->
  (survivesCleanup now u = false <-> 2 * 60 * 1000 < now - t).
Proof.
  intros Hs Hl Ht. unfold survivesCleanup.
  pose proof (isTimedOut_spec now u t Hl Ht) as Hout.
  destruct (isTimedOut now u).
  - split; [| reflexivity]. intros _.
    assert (H : OFFLINE_TIMEOUT < now - t) by (apply Hout; reflexivity).
    unfold OFFLINE_TIMEOUT in H. lia.
  - rewrite Hs, Hl. rewrite negb_false_iff. apply Z.ltb_lt.
Qed.

(** What the activity check leaves in the store. *)
Lemma activityCheck_users now st sid users :
  sessionId st = Some sid ->
  usersItem st = Some users ->
  getUsers (activityCheck now st)
  = if existsb (isIdle now) users
    then map (fun user => if isIdle now user then withStatus AWAY user
                          else validated user) users
    else users.
Proof.
  intros Hsession Husers.
  destruct st as [c s u b]. simpl in Hsession, Husers. subst s u.
  unfold activityCheck, getUsers. simpl.
  destruct (existsb (isIdle now) users); [| reflexivity].
  simpl. rewrite !map_map. apply map_ext.
  intro user. destruct (isIdle now user).
  - reflexivity.
  - rewrite !validated_idem. reflexivity.
Qed.

(** A broadcast [leave]: it is logged, the session stays and so do the
    earlier broadcasts. *)
Lemma broadcastLeave_facts st sid uid :
  sessionId st = Some sid ->
  sessionId (broadcastMessage (Leave uid) st) = Some sid /\
  In (Leave uid) (broadcasts (broadcastMessage (Leave uid) st)) /\
  (forall m, In m (broadcasts st) ->
             In m (broadcasts (broadcastMessage (Leave uid) st))).
Proof.
  intro Hsession.
  destruct st as [c s u b]. simpl in Hsession. subst s.
  unfold broadcastMessage, receiveMessage, removeUserFromActiveList.
  cbn [sessionId logMessage usersItem connected broadcasts].
  destruct (JS.truthyId (Some uid)); [destruct u as [users |] |];
    cbn; (split; [reflexivity |]); split;
    try (intros m Hm); rewrite ?in_app_iff; simpl; auto.
Qed.

Lemma sweepTimedOut_facts now users : forall st sid,
  sessionId st = Some sid ->
  fst (sweepTimedOut now users st)
  = filter (fun u => negb (isTimedOut now u)) users /\
  sessionId (snd (sweepTimedOut now users st)) = Some sid /\
  (forall m, In m (broadcasts st) ->
             In m (broadcasts (snd (sweepTimedOut now users st)))) /\
  (forall u, In u users -> isTimedOut now u = true ->
             In (Leave (id u))
                (broadcasts (snd (sweepTimedOut now users st)))).
Proof.
  induction users as [| user rest IH]; intros st sid Hsession; simpl.
  - repeat split; auto. intros u [].
  - destruct (isTimedOut now user) eqn:Hout; simpl.
    + destruct (broadcastLeave_facts st sid (id user) Hsession)
        as (Hs' & Hleave & Hkeep).
      destruct (IH _ sid Hs') as (Hfst & Hsnd & Hold & Hnew).
      split; [exact Hfst |]. split; [exact Hsnd |]. split.
      * intros m Hm. apply Hold, Hkeep, Hm.
      * intros u [<- | Hu] Hu_out; [apply Hold, Hleave | apply Hnew; auto].
    + destruct (IH st sid Hsession) as (Hfst & Hsnd & Hold & Hnew).
      destruct (sweepTimedOut now rest st) as [kept st'] eqn:Hsweep.
      simpl in *. split; [f_equal; exact Hfst |].
      split; [exact Hsnd |]. split; [exact Hold |].
      intros u [<- | Hu] Hu_out; [congruence | apply Hnew; auto].
Qed.

End PresenceFacts.

Section SweepFacts.
Import Peer.

(** The heartbeat sweep: who stays, and the [leave] of who goes. *)
Lemma sendHeartbeat_facts me now st sid users :
  connected st = true ->
  sessionId st = Some sid ->
  usersItem st = Some users ->
  let refreshed :=
    map (fun user => if String.eqb (id user) me
                     then withLastActive (Some now) user else user) users in
  map id (getUsers (sendHeartbeat me now st))
  = map id (filter (fun u => negb (isTimedOut now u)) refreshed) /\
  (forall u, In u refreshed -> isTimedOut now u = true ->
             In (Leave (id u)) (broadcasts (sendHeartbeat me now st))).
Proof.
  intros Hconn Hsession Husers refreshed.
  unfold sendHeartbeat. rewrite Hconn, Hsession, Husers.
  fold refreshed.
  destruct (sweepTimedOut_facts now refreshed st sid Hsession)
    as (Hfst & Hsnd & _ & Hleave).
  destruct (sweepTimedOut now refreshed st) as [activeUsers st1] eqn:Hsweep.
  simpl in Hfst, Hsnd, Hleave. subst activeUsers.
  set (activeUsers := filter (fun u => negb (isTimedOut now u)) refreshed).
  assert (Hs2 : sessionId (setUsers activeUsers st1) = Some sid)
    by exact Hsnd.
  match goal with
  | |- context [if ?b then _ else _] => destruct b
  end.
  - rewrite (broadcastSync_eq _ sid activeUsers Hs2).
    unfold getUsers. simpl. split.
    + apply map_id_validated.
    + intros u Hu Hout. apply in_or_app. left. apply Hleave; assumption.
  - unfold getUsers. rewrite Hs2. simpl. split; [reflexivity |].
    intros u Hu Hout. apply Hleave; assumption.
Qed.

(** The periodic cleanup: who stays, and that no [leave] is broadcast. *)
Lemma cleanupOfflineUsers_facts now st sid users :
  sessionId st = Some sid ->
  usersItem st = Some users ->
  map id (getUsers (cleanupOfflineUsers now st))
  = map id (filter (survivesCleanup now) users) /\
  (forall uid, In (Leave uid) (broadcasts (cleanupOfflineUsers now st)) ->
               In (Leave uid) (broadcasts st)).
Proof.
  intros Hsession Husers.
  unfold cleanupOfflineUsers. rewrite Hsession, Husers.
  destruct (List.length (filter (survivesCleanup now) users)
            =? List.length users)%nat eqn:Hlen; simpl.
  - apply Nat.eqb_eq, filter_length_eq in Hlen. rewrite Hlen.
    unfold getUsers. rewrite Hsession, Husers. split; auto.
  - assert (Hs : sessionId (setUsers (filter (survivesCleanup now) users) st)
                 = Some sid) by exact Hsession.
    rewrite (broadcastSync_eq _ sid _ Hs).
    unfold getUsers. simpl. split.
    + apply map_id_validated.
    + intros uid Hin. apply in_app_or in Hin.
      destruct Hin as [Hin | [Hin | []]]; [exact Hin | discriminate].
Qed.

(** The periodic cleanup broadcasts the list it keeps, in one [sync], when
    it drops somebody, and does nothing at all when it drops nobody. *)
Lemma cleanupOfflineUsers_broadcasts now st sid users :
  sessionId st = Some sid ->
  usersItem st = Some users ->
  ((exists u, In u users /\ survivesCleanup now u = false) ->
   broadcasts (cleanupOfflineUsers now st)
   = broadcasts st ++ [Sync (filter (survivesCleanup now) users)]) /\
  ((forall u, In u users -> survivesCleanup now u = true) ->
   cleanupOfflineUsers now st = st).
Proof.
  intros Hsession Husers.
  unfold cleanupOfflineUsers. rewrite Hsession, Husers.
  split.
  - intros (u & Hu & Hdrop).
    pose proof (filter_shorter (survivesCleanup now) users u Hu Hdrop) as Hlt.
    assert (Hlen : (List.length (filter (survivesCleanup now) users)
                    =? List.length users)%nat = false)
      by (apply Nat.eqb_neq; lia).
    rewrite Hlen. simpl.
    assert (Hs : sessionId (setUsers (filter (survivesCleanup now) users) st)
                 = Some sid) by exact Hsession.
    rewrite (broadcastSync_eq _ sid _ Hs). reflexivity.
  - intro Hall.
    assert (Hsame : filter (survivesCleanup now) users = users).
    { clear Husers. induction users as [| x rest IH]; simpl; [reflexivity |].
      rewrite (Hall x (or_introl eq_refl)). f_equal.
      apply IH. intros u Hu. apply Hall. right. exact Hu. }
    rewrite Hsame, Nat.eqb_refl. reflexivity.
Qed.

End SweepFacts.

Section PresenceClaims.
Import Peer Samples.

(** C6 (as stated, refuted): Bob was last active at 1 s.  The activity check
    at 41 s sets him Away; the cleanup at 130 s, 129 seconds after his last
    activity and long before five minutes have passed, removes him from the
    participant list, and no [leave] for him is ever broadcast (the cleanup
    broadcasts the new list in a [sync] only). *)
Lemma away_participant_removed_early_without_leave :
  let afterCheck := activityCheck 41000 presenceStart in
  let afterCleanup := cleanupOfflineUsers 130000 afterCheck in
  statusOf "bob" presenceStart = Some ONLINE /\
  statusOf "bob" afterCheck = Some AWAY /\
  present "bob" afterCleanup = false /\
  leaveBroadcast "bob" afterCleanup = false /\
  130000 - 1000 < OFFLINE_TIMEOUT.
Proof.
  cbv zeta. repeat (split; [reflexivity |]). reflexivity.
Qed.

(** C6 (amended): all timeouts are measured from [lastActive].  When the
    periodic activity check runs, an Online participant whose [lastActive]
    is more than AWAY_TIMEOUT (30 s) old becomes Away, and one whose
    [lastActive] is at most 30 s old stays as it is.  The sweep of
    [sendHeartbeat] keeps exactly the participants that are not timed out,
    that is, whose [lastActive] is present and at most OFFLINE_TIMEOUT
    (5 min) old, and broadcasts a [leave] for every participant it drops.
    The periodic cleanup keeps exactly the participants that are not timed
    out and are not Away with a [lastActive] more than 2 minutes old; when
    it drops somebody it broadcasts the list it keeps in one [sync], and
    it broadcasts no [leave]; when it drops nobody it does nothing. *)
Theorem presence_sweeps now st sid users :
  sessionId st = Some sid ->
  usersItem st = Some users ->
  (forall u t,
     In u users -> status u = ONLINE -> lastActive u = Some t -> t <> 0 ->
     (AWAY_TIMEOUT < now - t ->
      In (withStatus AWAY u) (getUsers (activityCheck now st))) /\
     (now - t <= AWAY_TIMEOUT ->
      In u (getUsers (activityCheck now st)))) /\
  (connected st = true ->
   forall me,
     map id (getUsers (sendHeartbeat me now st))
     = map id (filter (fun u => negb (isTimedOut now u))
                      (map (fun user =>
                              if String.eqb (id user) me
                              then withLastActive (Some now) user else user)
                           users)) /\
     (forall u, In u users -> id u <> me -> isTimedOut now u = true ->
                In (Leave (id u)) (broadcasts (sendHeartbeat me now st)))) /\
  (map id (getUsers (cleanupOfflineUsers now st))
   = map id (filter (survivesCleanup now) users) /\
   (forall uid, In (Leave uid) (broadcasts (cleanupOfflineUsers now st)) ->
                In (Leave uid) (broadcasts st)) /\
   ((exists u, In u users /\ survivesCleanup now u = false) ->
    broadcasts (cleanupOfflineUsers now st)
    = broadcasts st ++ [Sync (filter (survivesCleanup now) users)]) /\
   ((forall u, In u users -> survivesCleanup now u = true) ->
    cleanupOfflineUsers now st = st)) /\
  (forall u t,
     lastActive u = Some t -> t <> 0 ->
     (isTimedOut now u = true <-> OFFLINE_TIMEOUT < now - t) /\
     (status u = AWAY ->
      (survivesCleanup now u = false <-> 2 * 60 * 1000 < now - t)) /\
     (status u <> AWAY ->
      (survivesCleanup now u = false <-> OFFLINE_TIMEOUT < now - t))) /\
  (forall u, lastActive u = None \/ lastActive u = Some 0 ->
             isTimedOut now u = true /\ survivesCleanup now u = false).
Proof.
  intros Hsession Husers.
  split; [| split; [| split; [| split]]].
  - intros u t Hin Hs Hl Ht.
    rewrite (activityCheck_users now st sid users Hsession Husers).
    pose proof (isIdle_online now u t Hs Hl Ht) as Hidle.
    split.
    + intro Hlate. apply Hidle in Hlate.
      assert (Hex : existsb (isIdle now) users = true)
        by (apply existsb_exists; exists u; auto).
      rewrite Hex. apply in_map_iff. exists u. rewrite Hlate. auto.
    + intro Hearly.
      assert (Hnot : isIdle now u = false).
      { destruct (isIdle now u); [| reflexivity].
        assert (AWAY_TIMEOUT < now - t) by (apply Hidle; reflexivity). lia. }
      destruct (existsb (isIdle now) users); [| exact Hin].
      apply in_map_iff. exists u. rewrite Hnot. split; [| exact Hin].
      apply validated_valid. intros raw Hraw. congruence.
  - intros Hconn me.
    destruct (sendHeartbeat_facts me now st sid users Hconn Hsession Husers)
      as (Hkept & Hleave).
    split; [exact Hkept |].
    intros u Hin Hme Hout. apply Hleave; [| exact Hout].
    apply in_map_iff. exists u. split; [| exact Hin].
    apply String.eqb_neq in Hme. rewrite Hme. reflexivity.
  - destruct (cleanupOfflineUsers_facts now st sid users Hsession Husers)
      as (Hkept & Hleave).
    destruct (cleanupOfflineUsers_broadcasts now st sid users
                                             Hsession Husers)
      as (Hsync & Hquiet).
    split; [exact Hkept |]. split; [exact Hleave |].
    split; [exact Hsync | exact Hquiet].
  - intros u t Hl Ht.
    pose proof (isTimedOut_spec now u t Hl Ht) as Hout.
    split; [exact Hout |]. split.
    + intro Hs. apply survivesCleanup_away; assumption.
    + intro Hs. unfold survivesCleanup. rewrite <- Hout.
      destruct (isTimedOut now u); [split; reflexivity |].
      destruct (status u); try (split; discriminate).
      contradiction Hs. reflexivity.
  - intros u Hl. unfold survivesCleanup, isTimedOut.
    destruct Hl as [-> | ->]; split; reflexivity.
Qed.

Lemma presence_sweeps_witness :
  In (withStatus AWAY bob) (getUsers (activityCheck 41000 presenceStart)) /\
  In ann (getUsers (activityCheck 41000 presenceStart)) /\
  map id (getUsers (sendHeartbeat "ann" 310000 presenceStart))
  = ["ann"%string] /\
  In (Leave "bob") (broadcasts (sendHeartbeat "ann" 310000 presenceStart)) /\
  map id (getUsers (cleanupOfflineUsers 130000 presenceStart))
  = ["ann"%string; "bob"%string] /\
  broadcasts (cleanupOfflineUsers 130000 (activityCheck 41000 presenceStart))
  = broadcasts (activityCheck 41000 presenceStart)
      ++ [Sync [validated ann]].
Proof.
  pose proof (presence_sweeps 41000 presenceStart "s1" [ann; bob]
                              eq_refl eq_refl) as (Hcheck & _).
  pose proof (presence_sweeps 310000 presenceStart "s1" [ann; bob]
                              eq_refl eq_refl) as (_ & Hbeat & _).
  pose proof (presence_sweeps 130000 presenceStart "s1" [ann; bob]
                              eq_refl eq_refl) as (_ & _ & Hclean & _).
  pose proof (presence_sweeps 130000 (activityCheck 41000 presenceStart)
                              "s1" [validated ann; withStatus AWAY bob]
                              eq_refl eq_refl)
    as (_ & _ & (_ & _ & Hsync & _) & _).
  split; [| split; [| split; [| split; [| split]]]].
  - apply (proj1 (Hcheck bob 1000 (or_intror (or_introl eq_refl))
                         eq_refl eq_refl ltac:(discriminate))).
    unfold AWAY_TIMEOUT. lia.
  - apply (proj2 (Hcheck ann 40000 (or_introl eq_refl)
                         eq_refl eq_refl ltac:(discriminate))).
    unfold AWAY_TIMEOUT. lia.
  - rewrite (proj1 (Hbeat eq_refl "ann"%string)). reflexivity.
  - apply (proj2 (Hbeat eq_refl "ann"%string) bob).
    + right. left. reflexivity.
    + discriminate.
    + reflexivity.
  - rewrite (proj1 Hclean). reflexivity.
  - rewrite Hsync; [reflexivity |].
    exists (withStatus AWAY bob). split; [right; left; reflexivity |].
    reflexivity.
Defined.

End PresenceClaims.

(** * Further properties of the services *)

(** ** The operation history of [TextOperationManager] *)

Section HistoryFacts.
Import JS History.

Lemma sliceLast_length {A : Type} (n : nat) (l : list A) :
  List.length (sliceLast n l) = Nat.min n (List.length l).
Proof. unfold sliceLast. rewrite length_skipn. lia. Qed.

Lemma sliceLast_short {A : Type} (n : nat) (l : list A) :
  (List.length l <= n)%nat -> sliceLast n l = l.
Proof.
  intro H. unfold sliceLast.
  replace (List.length l - n)%nat with O by lia. reflexivity.
Qed.

(** Cutting to the last [n] before a push loses nothing the cut after the
    push would keep. *)
Lemma sliceLast_push {A : Type} (n : nat) (l : list A) (x : A) :
  (1 <= n)%nat ->
  sliceLast n (sliceLast n l ++ [x]) = sliceLast n (l ++ [x]).
Proof.
  intro Hn. unfold sliceLast.
  rewrite !length_app, length_skipn. simpl.
  set (k := (List.length l - n)%nat).
  assert (Happ : skipn k l ++ [x] = skipn k (l ++ [x])).
  { rewrite skipn_app. replace (k - List.length l)%nat with O by lia.
    reflexivity. }
  rewrite Happ, skipn_skipn. f_equal. lia.
Qed.

Lemma addOperation_sliceLast now operation operations :
  addOperation now operation operations
  = sliceLast 100 (operations ++ [stamp now operation]).
Proof.
  unfold addOperation.
  destruct (Nat.ltb_spec 100
              (List.length (operations ++ [stamp now operation]))).
  - reflexivity.
  - symmetry. apply sliceLast_short. assumption.
Qed.

Lemma addAll_sliceLast calls : forall operations,
  addAll calls (sliceLast 100 operations)
  = sliceLast 100
      (operations ++ map (fun call => stamp (fst call) (snd call)) calls).
Proof.
  unfold addAll.
  induction calls as [| call rest IH]; intro operations; simpl.
  - rewrite app_nil_r. reflexivity.
  - rewrite addOperation_sliceLast.
    rewrite sliceLast_push by lia.
    rewrite IH. rewrite <- app_assoc. reflexivity.
Qed.

Lemma sliceLast_snoc {A : Type} (n : nat) (l : list A) (x : A) :
  sliceLast (S n) (l ++ [x]) = sliceLast n l ++ [x].
Proof.
  unfold sliceLast. rewrite length_app. simpl.
  rewrite skipn_app.
  replace (List.length l + 1 - S n)%nat with (List.length l - n)%nat by lia.
  replace (List.length l - n - List.length l)%nat with O by lia.
  reflexivity.
Qed.

Lemma serviceAddOperation_lookup now sessionId operation sessions k :
  serviceAddOperation now sessionId operation sessions k
  = if String.eqb sessionId k
    then Some (addOperation now operation
                 (match sessions sessionId with
                  | Some operations => operations
                  | None => []
                  end))
    else sessions k.
Proof.
  unfold serviceAddOperation, getSession.
  destruct (sessions sessionId) as [operations |];
    destruct (String.eqb sessionId k) eqn:Hk; try reflexivity.
Qed.

(** The history of one session after a run of the service: only the calls
    addressed to the session count. *)
Lemma serviceAddAll_lookup sid calls : forall sessions,
  serviceAddAll calls sessions sid
  = match filter (fun call => String.eqb (snd (fst call)) sid) calls with
    | [] => sessions sid
    | mine =>
        Some (addAll (map (fun call => (fst (fst call), snd call)) mine)
                     (match sessions sid with
                      | Some operations => operations
                      | None => []
                      end))
    end.
Proof.
  unfold serviceAddAll.
  induction calls as [| [[now s] operation] rest IH]; intro sessions.
  - reflexivity.
  - cbn [fold_left filter fst snd]. rewrite IH.
    rewrite !serviceAddOperation_lookup.
    destruct (String.eqb s sid) eqn:Hs.
    + apply String.eqb_eq in Hs. subst s.
      cbn [map fst snd].
      destruct (filter (fun call => String.eqb (snd (fst call)) sid) rest);
        reflexivity.
    + destruct (filter (fun call => String.eqb (snd (fst call)) sid) rest);
        reflexivity.
Qed.

End HistoryFacts.

Section HistoryProperties.
Import JS History Samples Scenarios.

(** X1: a manager that holds at most 100 operations and is fed any sequence
    of [addOperation] calls holds the last 100 of its operations followed
    by the stamped new ones, so never more than 100, and the operation
    added last is its last entry. *)
Theorem history_keeps_last_hundred calls operations :
  (List.length operations <= 100)%nat ->
  addAll calls operations
  = sliceLast 100
      (operations ++ map (fun call => stamp (fst call) (snd call)) calls) /\
  (List.length (addAll calls operations) <= 100)%nat /\
  (forall earlier call default,
     calls = earlier ++ [call] ->
     last (addAll calls operations) default = stamp (fst call) (snd call)).
Proof.
  intro Hlen.
  assert (Heq : addAll calls operations
                = sliceLast 100
                    (operations
                       ++ map (fun call => stamp (fst call) (snd call)) calls)).
  { rewrite <- addAll_sliceLast.
    rewrite (sliceLast_short 100 operations Hlen). reflexivity. }
  split; [exact Heq |]. split.
  - rewrite Heq, sliceLast_length. lia.
  - intros earlier call default ->. rewrite Heq.
    rewrite map_app, app_assoc. simpl.
    rewrite sliceLast_snoc. apply last_last.
Qed.

Lemma history_keeps_last_hundred_witness :
  List.length (addAll hundredAndOne []) = 100%nat /\
  option_map Op.position (hd_error (addAll hundredAndOne []))
  = Some (Some 2) /\
  Op.position (last (addAll hundredAndOne []) (insertOp "" 0 ""))
  = Some 101.
Proof.
  pose proof (history_keeps_last_hundred hundredAndOne []) as H.
  destruct H as (Heq & _ & Hlast); [simpl; lia |].
  split; [| split].
  - rewrite Heq. reflexivity.
  - rewrite Heq. reflexivity.
  - rewrite (Hlast (removelast hundredAndOne)
                   (101, insertOp "u1" 101 "x")).
    + reflexivity.
    + reflexivity.
Defined.

(** X2: the service keeps one history per session.  After any sequence of
    [addOperation] calls on the empty service, a session no call named has
    no manager, and every other session holds the last 100 of the
    operations addressed to it, stamped, in the order of the calls. *)
Theorem service_histories_are_separate calls sid :
  serviceAddAll calls (fun _ => None) sid
  = match filter (fun call => String.eqb (snd (fst call)) sid) calls with
    | [] => None
    | mine =>
        Some (sliceLast 100
                (map (fun call => stamp (fst (fst call)) (snd call)) mine))
    end.
Proof.
  rewrite serviceAddAll_lookup.
  destruct (filter (fun call => String.eqb (snd (fst call)) sid) calls)
    as [| call mine]; [reflexivity |].
  f_equal.
  rewrite <- (sliceLast_short 100 (@nil TextOperation)) at 1 by (simpl; lia).
  rewrite addAll_sliceLast. rewrite map_map. reflexivity.
Qed.

End HistoryProperties.

(** ** Conflict resolution and the status helper *)

Section MoreListFacts.
Context {A : Type}.

Lemma nth_error_setAt_other (x : A) (l : list A) : forall i j,
  i <> j -> nth_error (Server.setAt i x l) j = nth_error l j.
Proof.
  induction l as [| y rest IH]; intros [| i] [| j] Hne; simpl;
    try reflexivity; try congruence.
  apply IH. congruence.
Qed.

(** [findIndex] returns the first index that satisfies the test. *)
Lemma findIndex_first (p : A -> bool) (l : list A) : forall i,
  Server.findIndex p l = Some i ->
  forall j x, (j < i)%nat -> nth_error l j = Some x -> p x = false.
Proof.
  induction l as [| y rest IH]; intros i H j x Hlt Hn; simpl in H.
  - discriminate.
  - destruct (p y) eqn:Hy.
    + inversion H. subst. lia.
    + destruct (Server.findIndex p rest) as [k |] eqn:Hk; [| discriminate].
      inversion H. subst i.
      destruct j as [| j]; simpl in Hn.
      * inversion Hn. subst. exact Hy.
      * apply (IH k eq_refl j x); [lia | exact Hn].
Qed.

End MoreListFacts.

Section ConflictProperties.
Import JS History Samples Scenarios.

Lemma compareASCII_antisym a b :
  0 < compareASCII a b <-> compareASCII b a < 0.
Proof.
  unfold compareASCII. rewrite (String.compare_antisym b a).
  destruct (String.compare a b); simpl; lia.
Qed.

(** X3: [resolveConflict] returns one of its two operations, and one whose
    timestamp (a missing one counts as 0) is the larger of the two.  When
    [localeCompare] is antisymmetric, the winner does not depend on which
    operation is passed as the existing one, unless the timestamps are equal
    and the user ids compare equal. *)
Theorem resolveConflict_prefers_newer
    (localeCompare : string -> string -> Z) existingOp incomingOp :
  (resolveConflict localeCompare existingOp incomingOp = existingOp \/
   resolveConflict localeCompare existingOp incomingOp = incomingOp) /\
  orNum (Op.timestamp (resolveConflict localeCompare existingOp incomingOp)) 0
  = Z.max (orNum (Op.timestamp existingOp) 0)
          (orNum (Op.timestamp incomingOp) 0) /\
  ((forall a b, 0 < localeCompare a b <-> localeCompare b a < 0) ->
   orNum (Op.timestamp existingOp) 0 <> orNum (Op.timestamp incomingOp) 0 \/
   localeCompare (Op.userId existingOp) (Op.userId incomingOp) <> 0 ->
   resolveConflict localeCompare incomingOp existingOp
   = resolveConflict localeCompare existingOp incomingOp).
Proof.
  unfold resolveConflict.
  set (te := orNum (Op.timestamp existingOp) 0).
  set (ti := orNum (Op.timestamp incomingOp) 0).
  split; [| split].
  - destruct (te <? ti); [right; reflexivity |].
    destruct (ti <? te); [left; reflexivity |].
    destruct (0 <? localeCompare _ _); auto.
  - destruct (Z.ltb_spec te ti); [fold ti; lia |].
    destruct (Z.ltb_spec ti te); [fold te; lia |].
    destruct (0 <? localeCompare _ _); [fold te | fold ti]; lia.
  - intros Hanti Hdiff.
    destruct (Z.ltb_spec te ti), (Z.ltb_spec ti te); try reflexivity;
      try lia.
    destruct Hdiff as [Hdiff | Hdiff]; [lia |].
    pose proof (Hanti (Op.userId existingOp) (Op.userId incomingOp)) as H1.
    pose proof (Hanti (Op.userId incomingOp) (Op.userId existingOp)) as H2.
    destruct (Z.ltb_spec 0 (localeCompare (Op.userId existingOp)
                                          (Op.userId incomingOp))),
             (Z.ltb_spec 0 (localeCompare (Op.userId incomingOp)
                                          (Op.userId existingOp)));
      try reflexivity; lia.
Qed.

Lemma resolveConflict_prefers_newer_witness :
  resolveConflict compareASCII
    (stamped 50 None (insertOp "u2" 0 "b"))
    (stamped 50 None (insertOp "u1" 0 "a"))
  = resolveConflict compareASCII
      (stamped 50 None (insertOp "u1" 0 "a"))
      (stamped 50 None (insertOp "u2" 0 "b")).
Proof.
  apply (proj2 (proj2 (resolveConflict_prefers_newer
                         compareASCII
                         (stamped 50 None (insertOp "u1" 0 "a"))
                         (stamped 50 None (insertOp "u2" 0 "b"))))).
  - apply compareASCII_antisym.
  - right. vm_compute. discriminate.
Defined.

(** X4: [updateUserStatus] keeps the length of the list and every id and
    name in place.  With no entry of the given id the list comes back
    unchanged; otherwise only the first entry with that id changes, and
    only in its status. *)
Theorem updateUserStatus_touches_first_match userId newStatus userList :
  List.length (updateUserStatus userId newStatus userList)
  = List.length userList /\
  map id (updateUserStatus userId newStatus userList) = map id userList /\
  map name (updateUserStatus userId newStatus userList)
  = map name userList /\
  ((forall entry, In entry userList -> id entry <> userId) ->
   updateUserStatus userId newStatus userList = userList) /\
  (forall i entry,
     nth_error userList i = Some entry ->
     id entry = userId ->
     (forall j earlier, (j < i)%nat -> nth_error userList j = Some earlier ->
                        id earlier <> userId) ->
     nth_error (updateUserStatus userId newStatus userList) i
     = Some {| id := id entry; name := name entry; status := newStatus |} /\
     forall j, j <> i ->
               nth_error (updateUserStatus userId newStatus userList) j
               = nth_error userList j).
Proof.
  unfold updateUserStatus.
  destruct (Server.findIndex (fun user => String.eqb (id user) userId)
                             userList) as [k |] eqn:Hfind.
  - destruct (findIndex_Some _ _ _ Hfind) as (found & Hnth & Hid).
    apply String.eqb_eq in Hid. rewrite Hnth.
    split; [apply setAt_length |].
    split; [apply (map_setAt id _ found); [exact Hnth | reflexivity] |].
    split; [apply (map_setAt name _ found); [exact Hnth | reflexivity] |].
    split.
    + intro Hnone. exfalso.
      apply (Hnone found); [eapply nth_error_In; exact Hnth | exact Hid].
    + intros i entry Hi Hentry Hfirst.
      assert (Hik : i = k).
      { destruct (Nat.lt_trichotomy i k) as [Hlt | [Heq | Hgt]].
        - pose proof (findIndex_first _ _ _ Hfind i entry Hlt Hi) as Hno.
          apply String.eqb_neq in Hno. contradiction.
        - exact Heq.
        - contradiction (Hfirst k found Hgt Hnth). }
      subst i. rewrite Hi in Hnth. inversion Hnth. subst found.
      split.
      * apply nth_error_setAt. apply nth_error_Some. congruence.
      * intros j Hj. apply nth_error_setAt_other. congruence.
  - split; [reflexivity |]. split; [reflexivity |].
    split; [reflexivity |]. split; [reflexivity |].
    intros i entry Hi Hentry _. exfalso.
    pose proof (proj1 (findIndex_None _ _) Hfind entry
                      (nth_error_In _ _ Hi)) as Hno.
    apply String.eqb_neq in Hno. contradiction.
Qed.

Lemma updateUserStatus_touches_first_match_witness :
  nth_error (updateUserStatus "u1" Server.away roster) 0
  = Some {| id := "u1"; name := "Ann"; status := Server.away |} /\
  nth_error (updateUserStatus "u1" Server.away roster) 2
  = nth_error roster 2 /\
  updateUserStatus "u9" Server.away roster = roster.
Proof.
  pose proof (updateUserStatus_touches_first_match "u1" Server.away roster)
    as (_ & _ & _ & _ & Hfirst).
  pose proof (updateUserStatus_touches_first_match "u9" Server.away roster)
    as (_ & _ & _ & Hnone & _).
  assert (Hzero : forall j earlier,
            (j < 0)%nat -> nth_error roster j = Some earlier ->
            id earlier <> "u1"%string) by (intros j earlier Hj; lia).
  destruct (Hfirst O _ eq_refl eq_refl Hzero) as (H0 & Hother).
  split; [exact H0 |]. split.
  - apply Hother. discriminate.
  - apply Hnone. intros entry [<- | [<- | [<- | []]]]; discriminate.
Defined.

End ConflictProperties.

(** ** More on transform, validation and execution *)

Section TransformMore.
Import JS Collab Stated Samples.

Lemma transformStep_keeps_fields cur e :
  Op.type (transformStep cur e) = Op.type cur /\
  Op.userId (transformStep cur e) = Op.userId cur /\
  Op.text (transformStep cur e) = Op.text cur /\
  Op.length (transformStep cur e) = Op.length cur /\
  Op.content (transformStep cur e) = Op.content cur /\
  Op.timestamp (transformStep cur e) = Op.timestamp cur /\
  Op.fromUserId (transformStep cur e) = Op.fromUserId cur.
Proof.
  unfold transformStep, shiftPosition.
  destruct (sameFromUser e cur); [repeat split |].
  destruct cur as [ty uid pos txt len cont ts from].
  cbn [Op.type Op.position].
  destruct (Op.type e), ty; try solve [repeat split];
    match goal with
    | |- context [if ?b then _ else _] => destruct b; repeat split
    end.
Qed.

(** An operation that is neither insert nor delete, or has no position,
    passes a loop step unchanged. *)
Lemma transformStep_inert cur e :
  (Op.type cur = sync \/ Op.type cur = retry \/ Op.position cur = None) ->
  transformStep cur e = cur.
Proof.
  intro H. unfold transformStep.
  destruct (sameFromUser e cur); [reflexivity |].
  destruct H as [H | [H | H]]; rewrite H.
  - destruct (Op.type e); reflexivity.
  - destruct (Op.type e); reflexivity.
  - unfold leNum, ltNum.
    destruct (Op.type e), (Op.type cur), (Op.position e); reflexivity.
Qed.

Lemma fold_transformStep_fields l : forall cur,
  Op.type (fold_left transformStep l cur) = Op.type cur /\
  Op.userId (fold_left transformStep l cur) = Op.userId cur /\
  Op.text (fold_left transformStep l cur) = Op.text cur /\
  Op.length (fold_left transformStep l cur) = Op.length cur /\
  Op.content (fold_left transformStep l cur) = Op.content cur /\
  Op.timestamp (fold_left transformStep l cur) = Op.timestamp cur /\
  Op.fromUserId (fold_left transformStep l cur) = Op.fromUserId cur.
Proof.
  induction l as [| e rest IH]; intro cur; simpl.
  - repeat split.
  - destruct (IH (transformStep cur e)) as (H1 & H2 & H3 & H4 & H5 & H6 & H7).
    destruct (transformStep_keeps_fields cur e)
      as (K1 & K2 & K3 & K4 & K5 & K6 & K7).
    rewrite H1, H2, H3, H4, H5, H6, H7. auto 10.
Qed.

Lemma fold_transformStep_inert l : forall cur,
  (Op.type cur = sync \/ Op.type cur = retry \/ Op.position cur = None) ->
  fold_left transformStep l cur = cur.
Proof.
  induction l as [| e rest IH]; intros cur H; simpl.
  - reflexivity.
  - rewrite (transformStep_inert cur e H). apply IH, H.
Qed.

(** Two ascending arrangements of the same operations agree when no two
    operations share a sort key. *)
Lemma sorted_perm_unique (a : list TextOperation) : forall b,
  StronglySorted keyLe a -> StronglySorted keyLe b ->
  Permutation a b -> NoDup (map sortKey a) -> a = b.
Proof.
  induction a as [| x a' IH]; intros b Ha Hb Hperm Hnodup.
  - apply Permutation_nil in Hperm. subst. reflexivity.
  - destruct b as [| y b'].
    + apply Permutation_sym, Permutation_nil in Hperm. discriminate.
    + inversion Ha as [| ? ? Ha' Hxa]. subst.
      inversion Hb as [| ? ? Hb' Hyb]. subst.
      inversion Hnodup as [| ? ? Hnotin Hnodup']. subst.
      assert (Hy : In y (x :: a'))
        by (apply (Permutation_in _ (Permutation_sym Hperm)); left; auto).
      assert (Hx : In x (y :: b'))
        by (apply (Permutation_in _ Hperm); left; auto).
      assert (Hxy : x = y).
      { destruct Hy as [Hy | Hy]; [exact Hy |].
        destruct Hx as [Hx | Hx]; [symmetry; exact Hx |].
        rewrite Forall_forall in Hxa, Hyb.
        pose proof (Hxa y Hy) as H1. pose proof (Hyb x Hx) as H2.
        unfold keyLe in H1, H2.
        exfalso. apply Hnotin.
        replace (sortKey x) with (sortKey y) by lia.
        apply in_map, Hy. }
      subst y. f_equal.
      apply IH; try assumption.
      apply (Permutation_cons_inv Hperm).
Qed.

End TransformMore.

Section TransformProperties.
Import JS Collab Stated Samples.

(** X5: [transformOperation] changes nothing of the incoming operation but
    its position: type, user ids, text, length, content and timestamp come
    back as they were; and a [sync] or [retry] operation, or one without a
    position, comes back unchanged altogether. *)
Theorem transformOperation_only_moves_position incomingOp existingOps :
  Op.type (transformOperation incomingOp existingOps) = Op.type incomingOp /\
  Op.userId (transformOperation incomingOp existingOps)
  = Op.userId incomingOp /\
  Op.text (transformOperation incomingOp existingOps) = Op.text incomingOp /\
  Op.length (transformOperation incomingOp existingOps)
  = Op.length incomingOp /\
  Op.content (transformOperation incomingOp existingOps)
  = Op.content incomingOp /\
  Op.timestamp (transformOperation incomingOp existingOps)
  = Op.timestamp incomingOp /\
  Op.fromUserId (transformOperation incomingOp existingOps)
  = Op.fromUserId incomingOp /\
  (Op.type incomingOp = sync \/ Op.type incomingOp = retry \/
   Op.position incomingOp = None ->
   transformOperation incomingOp existingOps = incomingOp).
Proof.
  unfold transformOperation.
  destruct existingOps as [| e rest].
  - repeat split.
  - destruct (fold_transformStep_fields (sortOps (e :: rest)) incomingOp)
      as (H1 & H2 & H3 & H4 & H5 & H6 & H7).
    repeat (split; [assumption |]).
    apply fold_transformStep_inert.
Qed.

Lemma transformOperation_only_moves_position_witness :
  transformOperation (syncOp "u1" "whole text")
                     [insertOp "u2" 0 "abc"; deleteOp "u3" 0 2]
  = syncOp "u1" "whole text".
Proof.
  apply (proj2 (proj2 (proj2 (proj2 (proj2 (proj2 (proj2
           (transformOperation_only_moves_position
              (syncOp "u1" "whole text")
              [insertOp "u2" 0 "abc"; deleteOp "u3" 0 2])))))))).
  left. reflexivity.
Defined.

(** X6: when no two existing operations have the same timestamp (a missing
    one counts as 0), the result of [transformOperation] does not depend on
    the order in which they are listed. *)
Theorem transformOperation_order_irrelevant incomingOp existingOps reordered :
  NoDup (map sortKey existingOps) ->
  Permutation existingOps reordered ->
  transformOperation incomingOp existingOps
  = transformOperation incomingOp reordered.
Proof.
  intros Hnodup Hperm.
  assert (Hsort : sortOps existingOps = sortOps reordered).
  { apply sorted_perm_unique; try apply sortOps_sorted.
    - eapply perm_trans; [apply sortOps_perm |].
      eapply perm_trans; [exact Hperm |].
      apply Permutation_sym, sortOps_perm.
    - apply (Permutation_NoDup (l := map sortKey existingOps));
        [| exact Hnodup].
      apply Permutation_map, Permutation_sym, sortOps_perm. }
  unfold transformOperation.
  destruct existingOps as [| e rest]; destruct reordered as [| e' rest'].
  - reflexivity.
  - apply Permutation_nil in Hperm. discriminate.
  - apply Permutation_sym, Permutation_nil in Hperm. discriminate.
  - rewrite Hsort. reflexivity.
Qed.

Lemma transformOperation_order_irrelevant_witness :
  transformOperation
    (insertOp "u1" 5 "X")
    [stamped 2 None (insertOp "u3" 6 "C"); stamped 1 None (insertOp "u2" 2 "AB")]
  = transformOperation
      (insertOp "u1" 5 "X")
      [stamped 1 None (insertOp "u2" 2 "AB");
       stamped 2 None (insertOp "u3" 6 "C")].
Proof.
  apply transformOperation_order_irrelevant.
  - repeat constructor; simpl; intuition discriminate.
  - apply perm_swap.
Defined.

End TransformProperties.

Section ValidateProperties.
Import JS Collab Stated Samples Runs.

Lemma filter_length_perm {A : Type} (f : A -> bool) (l l' : list A) :
  Permutation l l' ->
  List.length (filter f l) = List.length (filter f l').
Proof.
  induction 1 as [| x l l' _ IH | x y l | l l' l'' _ IH1 _ IH2]; simpl.
  - reflexivity.
  - destruct (f x); simpl; congruence.
  - destruct (f x), (f y); reflexivity.
  - congruence.
Qed.

(** X7: the verdict of [validateOperation], reason and conflict count
    included, does not depend on the order of the existing operations; and
    an operation that is valid against a list is valid against every part
    of it. *)
Theorem validateOperation_order_and_removal incomingOp existingOps :
  (forall reordered,
     Permutation existingOps reordered ->
     validateOperation incomingOp reordered
     = validateOperation incomingOp existingOps) /\
  (forall keep,
     isValid (validateOperation incomingOp existingOps) = true ->
     isValid (validateOperation incomingOp (filter keep existingOps)) = true).
Proof.
  split.
  - intros reordered Hperm. unfold validateOperation.
    rewrite (filter_length_perm (conflictsWith incomingOp) _ _ Hperm).
    destruct existingOps as [| e rest]; destruct reordered as [| e' rest'];
      try reflexivity.
    + apply Permutation_nil in Hperm. discriminate.
    + apply Permutation_sym, Permutation_nil in Hperm. discriminate.
  - intros keep Hvalid.
    destruct (isValid (validateOperation incomingOp (filter keep existingOps)))
      eqn:Hsub; [reflexivity |].
    apply validateOperation_invalid_iff in Hsub.
    destruct Hsub as (Hne & Hwhy).
    assert (Hinv : isValid (validateOperation incomingOp existingOps) = false).
    { apply validateOperation_invalid_iff. split.
      - intro Hnil. apply Hne. rewrite Hnil. reflexivity.
      - destruct Hwhy as [Hts | (e & Hin & Hc)]; [left; exact Hts |].
        right. exists e. apply filter_In in Hin. tauto. }
    congruence.
Qed.

Lemma validateOperation_order_and_removal_witness :
  validateOperation
    (stamped 5000 None (insertOp "u1" 0 "a"))
    [stamped 9000 None (insertOp "u2" 3 "x");
     stamped 4500 None (deleteOp "u3" 1 1)]
  = validateOperation
      (stamped 5000 None (insertOp "u1" 0 "a"))
      [stamped 4500 None (deleteOp "u3" 1 1);
       stamped 9000 None (insertOp "u2" 3 "x")] /\
  isValid
    (validateOperation
       (stamped 5000 None (insertOp "u1" 0 "a"))
       (filter (fun e => 100 <? orNum (Op.timestamp e) 0)
               [stamped 9000 None (insertOp "u2" 3 "x");
                stamped 7 None (deleteOp "u3" 1 1)]))
  = true.
Proof.
  split.
  - apply (proj1 (validateOperation_order_and_removal _ _)).
    apply perm_swap.
  - apply (proj2 (validateOperation_order_and_removal _ _)).
    reflexivity.
Defined.

Lemma applyOperation_withTimestamp content ts operation :
  applyOperation content (Op.withTimestamp ts operation)
  = applyOperation content operation.
Proof. destruct operation. reflexivity. Qed.

Lemma executeAll_missing sessionId calls : forall sessions,
  sessions sessionId = None ->
  forall k, executeAll sessionId calls sessions k = sessions k.
Proof.
  unfold executeAll.
  induction calls as [| call rest IH]; intros sessions Hnone k; simpl.
  - reflexivity.
  - unfold executeOperation at 2. rewrite Hnone. simpl.
    apply IH, Hnone.
Qed.

Lemma executeOperation_step now sessions sessionId session operation :
  sessions sessionId = Some session ->
  snd (executeOperation now sessions sessionId operation)
  = setSession sessionId
      {| id := id session;
         documentId := documentId session;
         users := users session;
         content := applyOperation (content session) operation;
         operations :=
           operations session ++ [Op.withTimestamp (Some now) operation] |}
      sessions.
Proof.
  intro Hs. unfold executeOperation. rewrite Hs. cbn [snd].
  rewrite applyOperation_withTimestamp. reflexivity.
Qed.

Lemma executeAll_present sessionId calls : forall sessions session,
  sessions sessionId = Some session ->
  executeAll sessionId calls sessions sessionId
  = Some {| id := id session;
            documentId := documentId session;
            users := users session;
            content := replay (content session) (map snd calls);
            operations :=
              operations session
                ++ map (fun call => Op.withTimestamp (Some (fst call))
                                                     (snd call)) calls |} /\
  forall k, k <> sessionId ->
            executeAll sessionId calls sessions k = sessions k.
Proof.
  unfold executeAll.
  induction calls as [| call rest IH]; intros sessions session Hs; simpl.
  - rewrite app_nil_r, Hs. destruct session. split; reflexivity.
  - rewrite (executeOperation_step _ _ _ _ _ Hs).
    match goal with
    | |- context [setSession sessionId ?s sessions] =>
        destruct (IH (setSession sessionId s sessions) s) as (Hhere & Hother)
    end.
    + unfold setSession. rewrite String.eqb_refl. reflexivity.
    + rewrite Hhere. cbn [id documentId users content operations].
      rewrite <- app_assoc. simpl.
      split; [reflexivity |].
      intros k Hk. rewrite (Hother k Hk).
      unfold setSession.
      destruct (String.eqb_spec sessionId k); [congruence | reflexivity].
Qed.

(** X8: executing a sequence of operations on an existing session leaves
    the content that replaying them in order on the old content gives, and
    appends them to the history, each stamped with the time of its call,
    whatever timestamp it carried; no other session changes.  On a session
    id that does not exist every call returns [null] and nothing changes. *)
Theorem executeOperation_runs sessionId calls sessions :
  (forall session,
     sessions sessionId = Some session ->
     executeAll sessionId calls sessions sessionId
     = Some {| id := id session;
               documentId := documentId session;
               users := users session;
               content := replay (content session) (map snd calls);
               operations :=
                 operations session
                   ++ map (fun call => Op.withTimestamp (Some (fst call))
                                                        (snd call)) calls |} /\
     forall k, k <> sessionId ->
               executeAll sessionId calls sessions k = sessions k) /\
  (sessions sessionId = None ->
   (forall now operation,
      fst (executeOperation now sessions sessionId operation) = None) /\
   forall k, executeAll sessionId calls sessions k = sessions k).
Proof.
  split.
  - intros session Hs. apply executeAll_present, Hs.
  - intro Hnone. split.
    + intros now operation. unfold executeOperation. rewrite Hnone.
      reflexivity.
    + apply executeAll_missing, Hnone.
Qed.

Lemma executeOperation_runs_witness :
  option_map content
    (executeAll "s1"
       [(10, insertOp "u1" 5 " world"); (20, syncOp "u2" "");
        (30, deleteOp "u1" 0 1)]
       Scenarios.helloSessions "s1"%string)
  = Some (str "ello world") /\
  executeAll "s2" [(10, insertOp "u1" 0 "x")] Scenarios.helloSessions
             "s2"%string
  = None.
Proof.
  split.
  - rewrite (proj1 (proj1 (executeOperation_runs
                             "s1"%string _ Scenarios.helloSessions)
                          _ eq_refl)).
    reflexivity.
  - rewrite (proj2 (proj2 (executeOperation_runs
                             "s2"%string _ Scenarios.helloSessions)
                          eq_refl)).
    reflexivity.
Defined.

End ValidateProperties.

(** ** The server on every kind of inbound event *)

Section ServerFacts.
Import JS Server Relay.
Variable toLowerCase : string -> string.
Variable cleanupInterval : Z.

Lemma map_removeAt {A B : Type} (f : A -> B) (l : list A) : forall i,
  map f (removeAt i l) = removeAt i (map f l).
Proof.
  induction l as [| x rest IH]; intros [| i]; simpl; try reflexivity.
  f_equal. apply IH.
Qed.

Lemma In_removeAt {A : Type} (l : list A) : forall i x,
  In x (removeAt i l) -> In x l.
Proof.
  induction l as [| y rest IH]; intros [| i] x H; simpl in *; auto.
  destruct H as [H | H]; [left; exact H | right; eapply IH; exact H].
Qed.

Lemma NoDup_removeAt {A : Type} (l : list A) : forall i,
  NoDup l -> NoDup (removeAt i l).
Proof.
  induction l as [| y rest IH]; intros [| i] H; simpl; auto;
    inversion_clear H as [| ? ? Hnotin Hrest]; auto.
  constructor; [| apply IH, Hrest].
  intro Hin. apply Hnotin. eapply In_removeAt. exact Hin.
Qed.

(** A join keeps the ids of a session distinct. *)
Lemma joinSession_uniqueIds session data env :
  NoDup (map User.id (Session.users session)) ->
  NoDup (map User.id (usersAfterJoin toLowerCase session data env)).
Proof.
  intro Hnodup.
  destruct (Nat.le_gt_cases MAX_USERS_PER_SESSION
                            (List.length (Session.users session)))
    as [Hfull | Hroom].
  - unfold usersAfterJoin.
    rewrite (joinSession_full toLowerCase _ _ _ Hfull). exact Hnodup.
  - destruct (isDuplicateName toLowerCase (Session.users session)
                              (userId data) (userName data)) eqn:Hdup.
    + unfold usersAfterJoin.
      rewrite (joinSession_nameTaken toLowerCase _ _ _ Hroom Hdup).
      exact Hnodup.
    + destruct (joinSession_accepted toLowerCase session data env Hroom Hdup)
        as (_ & _ & [(i & existing & _ & Hnth & Hid & ->) | (Hfresh & ->)]).
      * rewrite (map_setAt User.id _ existing); [exact Hnodup | exact Hnth |].
        simpl. symmetry. exact Hid.
      * rewrite map_app. apply NoDup_app; [exact Hnodup | |].
        -- simpl. constructor; [intros [] | constructor].
        -- intros a Ha [<- | []]. apply in_map_iff in Ha.
           destruct Ha as (u & Hu & Hin). apply (Hfresh u Hin). exact Hu.
Qed.

Lemma leaveSession_uniqueIds session uid :
  NoDup (map User.id (Session.users session)) ->
  NoDup (map User.id (Session.users (fst (leaveSession session uid)))).
Proof.
  intro H. unfold leaveSession.
  destruct (findIndex _ _) as [i |]; simpl; [| exact H].
  rewrite map_removeAt. apply NoDup_removeAt, H.
Qed.

(** A per-user update changes neither who is in the session, nor the
    content, nor the time of the last update. *)
Lemma updateUser_frame uid change session :
  (forall u, User.id (change u) = User.id u) ->
  map User.id (Session.users (updateUser uid change session))
  = map User.id (Session.users session) /\
  Session.content (updateUser uid change session) = Session.content session /\
  Session.lastUpdated (updateUser uid change session)
  = Session.lastUpdated session /\
  Session.id (updateUser uid change session) = Session.id session.
Proof.
  intro Hid. unfold updateUser.
  destruct (findIndex _ _) as [i |]; [| repeat split].
  destruct (nth_error (Session.users session) i) as [u |] eqn:Hnth;
    [| repeat split].
  simpl. split; [| repeat split].
  apply (map_setAt User.id _ u); [exact Hnth | apply Hid].
Qed.

(** Whatever a message does to a session, the participants stay. *)
Lemma handleBody_members found body now session' :
  handleBody found body now = Updated session' ->
  exists session,
    found = Some session /\
    Session.id session' = Session.id session /\
    map User.id (Session.users session')
    = map User.id (Session.users session).
Proof.
  unfold handleBody, onSession.
  destruct body as [[operation |] | [c |] | uid p l c | uid s e
                    | uid [status |] | uid | ty];
    try discriminate.
  - destruct (Op.type operation); try discriminate.
    destruct (Op.content operation) as [c |]; try discriminate.
    destruct (truthyString (Some c)); try discriminate.
    destruct found as [session |]; try discriminate.
    intro H. inversion H. exists session. repeat split.
  - destruct found as [session |]; try discriminate.
    intro H. inversion H. exists session. repeat split.
  - destruct (truthyId uid); try discriminate.
    destruct found as [session |]; try discriminate.
    intro H. inversion H. exists session.
    destruct (updateUser_frame
                (userIdOf uid)
                (withCursor {| position := p; line := l; column := c |})
                session) as (Kids & _ & _ & Kid); [reflexivity |]. auto.
  - destruct (truthyId uid); try discriminate.
    destruct found as [session |]; try discriminate.
    intro H. inversion H. exists session.
    destruct (updateUser_frame
                (userIdOf uid)
                (withSelection {| selStart := s; selEnd := e |})
                session) as (Kids & _ & _ & Kid); [reflexivity |]. auto.
  - destruct (truthyId uid); try discriminate.
    destruct found as [session |]; try discriminate.
    intro H. inversion H. exists session.
    destruct (updateUser_frame (userIdOf uid) (withPresence status now)
                               session) as (Kids & _ & _ & Kid);
      [reflexivity |]. auto.
  - destruct (truthyId uid); try discriminate.
    destruct found as [session |]; try discriminate.
    intro H. inversion H. exists session.
    destruct (updateUser_frame (userIdOf uid) (withPresence active now)
                               session) as (Kids & _ & _ & Kid);
      [reflexivity |]. auto.
Qed.

(** The events that are already events of the registry. *)
Lemma serve_join st data env :
  fst (serve toLowerCase cleanupInterval st (InJoin data env))
  = fst (step toLowerCase st (Join data env)).
Proof.
  unfold serve. destruct (step toLowerCase st (Join data env)). reflexivity.
Qed.

Lemma serve_create st sid content now :
  fst (serve toLowerCase cleanupInterval st (InCreate sid content now))
  = fst (step toLowerCase st (CreateSession sid content now)).
Proof.
  unfold serve.
  destruct (step toLowerCase st (CreateSession sid content now)).
  reflexivity.
Qed.

Lemma serve_membersStep st ev sid after :
  sessions (fst (serve toLowerCase cleanupInterval st ev)) sid = Some after ->
  membersStep toLowerCase (sessions st sid) after.
Proof.
  assert (Hsame : forall session,
            sessions st sid = Some session ->
            membersStep toLowerCase (sessions st sid) session).
  { intros session Hs. left. exists session. split; [exact Hs |].
    left. reflexivity. }
  destruct ev as [data env | sid0 content0 now0 | sock body now0 | sock
                  | sock | now0].
  - rewrite serve_join. simpl.
    destruct (joinSession toLowerCase _ data env)
      as [[session' joined] out] eqn:Hjoin.
    simpl. rewrite update_lookup.
    destruct (String.eqb (sessionId data) sid) eqn:Hsid; [| apply Hsame].
    apply String.eqb_eq in Hsid. subst sid.
    intro H. inversion H. subst after.
    destruct (sessions st (sessionId data)) as [s |] eqn:Hs.
    + left. exists s. split; [reflexivity |]. right. left.
      exists data, env. unfold usersAfterJoin. rewrite Hjoin. reflexivity.
    + right. split; [reflexivity |]. right.
      exists data, env. unfold usersAfterJoin. rewrite Hjoin. reflexivity.
  - rewrite serve_create. simpl.
    destruct (sessions st sid0) eqn:Hs0; simpl; [apply Hsame |].
    rewrite update_lookup.
    destruct (String.eqb sid0 sid) eqn:Hsid; [| apply Hsame].
    apply String.eqb_eq in Hsid. subst sid0.
    intro H. inversion H. right. split; [exact Hs0 |]. left. reflexivity.
  - simpl. unfold onMessage.
    destruct (joinedAs (sockets st sock)) as [[sid1 user] |];
      [| apply Hsame].
    destruct (handleBody (sessions st sid1) body now0) as [| session' |]
      eqn:Hbody; try apply Hsame.
    simpl. rewrite update_lookup.
    destruct (String.eqb sid1 sid) eqn:Hsid; [| apply Hsame].
    apply String.eqb_eq in Hsid. subst sid1.
    intro H. inversion H. subst after.
    destruct (handleBody_members _ _ _ _ Hbody) as (s & Hs & _ & Hids).
    left. exists s. split; [exact Hs |]. left. exact Hids.
  - simpl. unfold onRequestSync.
    destruct (joinedAs (sockets st sock)) as [[sid1 user] |];
      [| apply Hsame].
    destruct (sessions st sid1); apply Hsame.
  - simpl. unfold onDisconnect.
    destruct (joinedAs (sockets st sock)) as [[sid1 user] |];
      [| apply Hsame].
    destruct (sessions st sid1) as [s |] eqn:Hs; [| apply Hsame].
    destruct (leaveSession s (User.id user)) as [session' out] eqn:Hleave.
    simpl. rewrite update_lookup.
    destruct (String.eqb sid1 sid) eqn:Hsid; [| apply Hsame].
    apply String.eqb_eq in Hsid. subst sid1.
    intro H. inversion H. subst after.
    left. exists s. split; [exact Hs |]. right. right.
    exists (User.id user). rewrite Hleave. reflexivity.
  - simpl.
    destruct (sessions st sid) as [s |] eqn:Hs; [| discriminate].
    destruct ((List.length (Session.users s) =? 0)%nat
              && (cleanupInterval <? now0 - Session.lastUpdated s));
      [discriminate |].
    intro H. inversion H. subst after.
    left. exists s. split; [reflexivity |]. left. reflexivity.
Qed.

End ServerFacts.

Section ServerInvariant.
Import JS Server Relay.
Variable toLowerCase : string -> string.
Variable cleanupInterval : Z.

Lemma membersStep_good before after :
  (forall session,
     before = Some session ->
     (List.length (Session.users session) <= MAX_USERS_PER_SESSION)%nat /\
     NoDup (map User.id (Session.users session))) ->
  membersStep toLowerCase before after ->
  (List.length (Session.users after) <= MAX_USERS_PER_SESSION)%nat /\
  NoDup (map User.id (Session.users after)).
Proof.
  intros Hgood [(session & Hs & Hcase) | (Hnone & Hcase)].
  - destruct (Hgood session Hs) as (Hlen & Hnodup).
    destruct Hcase as [Hids | [(data & env & ->) | (uid & ->)]].
    + split.
      * rewrite <- (length_map User.id), Hids, length_map. exact Hlen.
      * rewrite Hids. exact Hnodup.
    + split; [apply joinSession_length, Hlen |].
      apply joinSession_uniqueIds, Hnodup.
    + split.
      * pose proof (leaveSession_length session uid). lia.
      * apply leaveSession_uniqueIds, Hnodup.
  - destruct Hcase as [-> | (data & env & ->)].
    + split; [simpl; unfold MAX_USERS_PER_SESSION; lia | constructor].
    + split.
      * apply joinSession_length. simpl. unfold MAX_USERS_PER_SESSION. lia.
      * apply joinSession_uniqueIds. constructor.
Qed.

(** X9: whatever the server handles, starting from its empty registry
    (joins, session creations, client messages of every type, resync
    requests, disconnects and cleanup sweeps), every session holds at most
    8 participants and no two of them have the same id. *)
Theorem server_sessions_stay_well_formed events sid session :
  sessions (serveAll toLowerCase cleanupInterval initial events) sid
  = Some session ->
  (List.length (Session.users session) <= 8)%nat /\
  NoDup (map User.id (Session.users session)).
Proof.
  assert (Hall : forall events st,
            (forall sid session,
               sessions st sid = Some session ->
               (List.length (Session.users session)
                <= MAX_USERS_PER_SESSION)%nat /\
               NoDup (map User.id (Session.users session))) ->
            forall sid session,
              sessions (serveAll toLowerCase cleanupInterval st events) sid
              = Some session ->
              (List.length (Session.users session)
               <= MAX_USERS_PER_SESSION)%nat /\
              NoDup (map User.id (Session.users session))).
  { clear events sid session. unfold serveAll.
    induction events as [| ev rest IH]; intros st Hst sid session; simpl.
    - apply Hst.
    - apply IH. intros sid' after Hafter.
      apply (membersStep_good (sessions st sid')).
      + intros s Hs. apply (Hst sid' s Hs).
      + apply (serve_membersStep toLowerCase cleanupInterval st ev).
        exact Hafter. }
  apply (Hall events initial). intros sid' s H. discriminate.
Qed.

Lemma serve_sockets st ev sock :
  (forall data env, ev = InJoin data env -> socket env <> sock) ->
  sockets (fst (serve toLowerCase cleanupInterval st ev)) sock
  = sockets st sock.
Proof.
  intro Hev.
  destruct ev as [data env | sid0 content0 now0 | sock0 body now0 | sock0
                  | sock0 | now0].
  - rewrite serve_join. simpl.
    destruct (joinSession toLowerCase _ data env) as [[session' joined] out].
    simpl. destruct joined as [user |]; [| reflexivity].
    rewrite update_lookup.
    destruct (String.eqb_spec (socket env) sock) as [Heq | Hne];
      [| reflexivity].
    contradiction (Hev data env eq_refl).
  - rewrite serve_create. simpl.
    destruct (sessions st sid0); reflexivity.
  - simpl. unfold onMessage.
    destruct (joinedAs (sockets st sock0)) as [[sid1 user] |];
      [| reflexivity].
    destruct (handleBody (sessions st sid1) body now0); reflexivity.
  - simpl. unfold onRequestSync.
    destruct (joinedAs (sockets st sock0)) as [[sid1 user] |];
      [| reflexivity].
    destruct (sessions st sid1); reflexivity.
  - simpl. unfold onDisconnect.
    destruct (joinedAs (sockets st sock0)) as [[sid1 user] |];
      [| reflexivity].
    destruct (sessions st sid1) as [s |]; [| reflexivity].
    destruct (leaveSession s (User.id user)). reflexivity.
  - reflexivity.
Qed.

(** X10: a connection that has sent no [join] is inert.  After any run of
    the server in which no join came from the socket, a message, a resync
    request or a disconnect of that socket changes nothing and makes the
    server send nothing, to anyone. *)
Theorem unjoined_socket_is_inert events sock :
  (forall data env, In (InJoin data env) events -> socket env <> sock) ->
  forall body now,
    onMessage (serveAll toLowerCase cleanupInterval initial events)
              sock body now
    = (serveAll toLowerCase cleanupInterval initial events, []) /\
    onRequestSync (serveAll toLowerCase cleanupInterval initial events) sock
    = (serveAll toLowerCase cleanupInterval initial events, []) /\
    onDisconnect (serveAll toLowerCase cleanupInterval initial events) sock
    = (serveAll toLowerCase cleanupInterval initial events, []).
Proof.
  intros Hnone body now.
  assert (Hsock : sockets (serveAll toLowerCase cleanupInterval initial events)
                          sock
                  = {| currentUser := None; currentSessionId := None |}).
  { assert (Hall : forall events st,
              (forall data env, In (InJoin data env) events ->
                                socket env <> sock) ->
              sockets (serveAll toLowerCase cleanupInterval st events) sock
              = sockets st sock).
    { clear. unfold serveAll.
      induction events as [| ev rest IH]; intros st Hnone; simpl.
      - reflexivity.
      - rewrite IH.
        + apply serve_sockets. intros data env ->.
          apply (Hnone data env). left. reflexivity.
        + intros data env Hin. apply (Hnone data env). right. exact Hin. }
    rewrite (Hall events initial Hnone). reflexivity. }
  unfold onMessage, onRequestSync, onDisconnect, joinedAs.
  rewrite Hsock. simpl. auto.
Qed.

End ServerInvariant.

Section ServerProperties.
Import JS Server Relay ServerScenarios.

Lemma server_sessions_stay_well_formed_witness :
  (List.length (Session.users roomAfterBusyDay) <= 8)%nat /\
  NoDup (map User.id (Session.users roomAfterBusyDay)) /\
  map User.id (Session.users roomAfterBusyDay) = ["u1"%string] /\
  Session.content roomAfterBusyDay = str "hello".
Proof.
  pose proof (server_sessions_stay_well_formed
                toLowerASCII cleanupDefault busyDay "s1" roomAfterBusyDay
                eq_refl) as (Hlen & Hnodup).
  split; [exact Hlen |]. split; [exact Hnodup |].
  split; reflexivity.
Defined.

Lemma unjoined_socket_is_inert_witness :
  onMessage afterBusyDay "socket-z"
            (ContentBody (Some (str "overwrite"))) 5000
  = (afterBusyDay, []) /\
  onDisconnect afterBusyDay "socket-z" = (afterBusyDay, []).
Proof.
  assert (Hnone : forall data env,
            In (InJoin data env) busyDay ->
            socket env <> "socket-z"%string).
  { intros data env Hin. simpl in Hin.
    repeat (destruct Hin as [Hin | Hin]; [inversion Hin; discriminate |]).
    contradiction. }
  destruct (unjoined_socket_is_inert
              toLowerASCII cleanupDefault busyDay "socket-z" Hnone
              (ContentBody (Some (str "overwrite"))) 5000)
    as (Hmsg & _ & Hdis).
  split; [exact Hmsg | exact Hdis].
Defined.

Lemma handleBody_content found body now session' :
  handleBody found body now = Updated session' ->
  exists session,
    found = Some session /\
    ((Session.content session' = Session.content session /\
      Session.lastUpdated session' = Session.lastUpdated session)
     \/
     (exists c,
        (body = ContentBody (Some c) \/
         exists operation,
           body = OperationBody (Some operation) /\
           Op.type operation = sync /\
           Op.content operation = Some c /\ c <> []) /\
        Session.content session' = c /\
        Session.lastUpdated session' = now)).
Proof.
  unfold handleBody, onSession.
  destruct body as [[operation |] | [c |] | uid p l c | uid s e
                    | uid [status |] | uid | ty];
    try discriminate.
  - destruct (Op.type operation) eqn:Hty; try discriminate.
    destruct (Op.content operation) as [c |] eqn:Hc; try discriminate.
    destruct c as [| ch rest]; try discriminate. simpl.
    destruct found as [session |]; try discriminate.
    intro H. inversion H. exists session. split; [reflexivity |].
    right. exists (ch :: rest). split; [| split; reflexivity].
    right. exists operation. repeat split; try assumption. discriminate.
  - destruct found as [session |]; try discriminate.
    intro H. inversion H. exists session. split; [reflexivity |].
    right. exists c. split; [left; reflexivity | split; reflexivity].
  - destruct (truthyId uid); try discriminate.
    destruct found as [session |]; try discriminate.
    intro H. inversion H. exists session. split; [reflexivity |]. left.
    destruct (updateUser_frame
                (userIdOf uid)
                (withCursor {| position := p; line := l; column := c |})
                session) as (_ & Kc & Kt & _); [reflexivity |]. auto.
  - destruct (truthyId uid); try discriminate.
    destruct found as [session |]; try discriminate.
    intro H. inversion H. exists session. split; [reflexivity |]. left.
    destruct (updateUser_frame
                (userIdOf uid)
                (withSelection {| selStart := s; selEnd := e |})
                session) as (_ & Kc & Kt & _); [reflexivity |]. auto.
  - destruct (truthyId uid); try discriminate.
    destruct found as [session |]; try discriminate.
    intro H. inversion H. exists session. split; [reflexivity |]. left.
    destruct (updateUser_frame (userIdOf uid) (withPresence status now)
                               session) as (_ & Kc & Kt & _);
      [reflexivity |]. auto.
  - destruct (truthyId uid); try discriminate.
    destruct found as [session |]; try discriminate.
    intro H. inversion H. exists session. split; [reflexivity |]. left.
    destruct (updateUser_frame (userIdOf uid) (withPresence active now)
                               session) as (_ & Kc & Kt & _);
      [reflexivity |]. auto.
Qed.

(** X11: the content the server stores for a session, and the time of its
    last update, change only when a joined socket of that session sends a
    [content] message or a FullSync operation with a non-empty content, and
    then they become the carried content and the time of the message.
    Insert, delete and retry operations are relayed to the room but never
    applied to the stored content: the registry is left exactly as it
    was. *)
Theorem server_content_follows_full_sync st sock body now :
  (forall sid after,
     sessions (fst (onMessage st sock body now)) sid = Some after ->
     exists before,
       sessions st sid = Some before /\
       ((Session.content after = Session.content before /\
         Session.lastUpdated after = Session.lastUpdated before)
        \/
        (exists c user,
           joinedAs (sockets st sock) = Some (sid, user) /\
           (body = ContentBody (Some c) \/
            exists operation,
              body = OperationBody (Some operation) /\
              Op.type operation = sync /\
              Op.content operation = Some c /\ c <> []) /\
           Session.content after = c /\
           Session.lastUpdated after = now))) /\
  (forall operation,
     body = OperationBody (Some operation) ->
     Op.type operation <> sync ->
     onMessage st sock body now
     = (st, match joinedAs (sockets st sock) with
            | Some (sid, _) => [Relayed sid body]
            | None => []
            end)).
Proof.
  split.
  - intros sid after. unfold onMessage.
    destruct (joinedAs (sockets st sock)) as [[sid1 user] |] eqn:Hjoined.
    + destruct (handleBody (sessions st sid1) body now) as [| session' |]
        eqn:Hbody; simpl.
      * intro H. exists after. split; [exact H |]. left. auto.
      * rewrite update_lookup.
        destruct (String.eqb sid1 sid) eqn:Hsid.
        -- apply String.eqb_eq in Hsid. subst sid1.
           intro H. inversion H. subst after.
           destruct (handleBody_content _ _ _ _ Hbody)
             as (before & Hb & [Hsame | (c & Hwhy & Hc & Ht)]).
           ++ exists before. split; [exact Hb |]. left. exact Hsame.
           ++ exists before. split; [exact Hb |]. right.
              exists c, user. auto.
        -- intro H. exists after. split; [exact H |]. left. auto.
      * intro H. exists after. split; [exact H |]. left. auto.
    + simpl. intro H. exists after. split; [exact H |]. left. auto.
  - intros operation -> Hty. unfold onMessage.
    destruct (joinedAs (sockets st sock)) as [[sid1 user] |]; [| reflexivity].
    unfold handleBody.
    destruct (Op.type operation); try reflexivity.
    contradiction Hty. reflexivity.
Qed.

Lemma server_content_follows_full_sync_witness :
  onMessage afterBusyDay "socket-a"
            (OperationBody (Some (Samples.deleteOp "u1" 0 5))) 6000
  = (afterBusyDay,
     [Relayed "s1" (OperationBody (Some (Samples.deleteOp "u1" 0 5)))]) /\
  exists before,
    sessions afterBusyDay "s1" = Some before /\
    Session.content before = str "hello" /\
    option_map Session.content
      (sessions (fst (onMessage afterBusyDay "socket-a"
                                (ContentBody (Some (str ""))) 7000)) "s1")
    = Some (str "").
Proof.
  split.
  - apply (proj2 (server_content_follows_full_sync
                    afterBusyDay "socket-a"
                    (OperationBody (Some (Samples.deleteOp "u1" 0 5))) 6000)
             (Samples.deleteOp "u1" 0 5) eq_refl).
    discriminate.
  - destruct (proj1 (server_content_follows_full_sync
                       afterBusyDay "socket-a"
                       (ContentBody (Some (str ""))) 7000)
                "s1"%string
                (withContent (str "") 7000 roomAfterBusyDay) eq_refl)
      as (before & Hbefore & _).
    exists before. split; [exact Hbefore |].
    assert (Hroom : before = roomAfterBusyDay)
      by (vm_compute in Hbefore; inversion Hbefore; reflexivity).
    subst before. split; reflexivity.
Defined.

End ServerProperties.

Section RoundTripProperties.
Import JS Server Relay ServerScenarios.

Lemma findIndex_app_fresh {A : Type} (p : A -> bool) (l : list A) (x : A) :
  (forall y, In y l -> p y = false) -> p x = true ->
  findIndex p (l ++ [x]) = Some (List.length l).
Proof.
  intros Hl Hx. induction l as [| y rest IH]; simpl.
  - rewrite Hx. reflexivity.
  - rewrite (Hl y (or_introl eq_refl)).
    rewrite IH; [reflexivity |].
    intros z Hz. apply Hl. right. exact Hz.
Qed.

Lemma removeAt_last {A : Type} (l : list A) (x : A) :
  removeAt (List.length l) (l ++ [x]) = l.
Proof.
  induction l as [| y rest IH]; simpl; [reflexivity |].
  f_equal. exact IH.
Qed.

(** X12: a newcomer who joins a session and then leaves it leaves the
    session exactly as it found it: same participants in the same order,
    same content, same time of last update.  Neither a join nor a leave
    ever touches the content or the time of last update, so these do not
    postpone the cleanup of the session. *)
Theorem join_then_leave_restores
    (toLowerCase : string -> string) session data env :
  (Session.content (fst (fst (joinSession toLowerCase session data env)))
   = Session.content session /\
   Session.lastUpdated (fst (fst (joinSession toLowerCase session data env)))
   = Session.lastUpdated session) /\
  (forall uid,
     Session.content (fst (leaveSession session uid))
     = Session.content session /\
     Session.lastUpdated (fst (leaveSession session uid))
     = Session.lastUpdated session) /\
  ((List.length (Session.users session) < 8)%nat ->
   isDuplicateName toLowerCase (Session.users session)
                   (userId data) (userName data) = false ->
   (forall u, In u (Session.users session) -> User.id u <> userId data) ->
   fst (leaveSession (fst (fst (joinSession toLowerCase session data env)))
                     (userId data))
   = session).
Proof.
  split; [| split].
  - unfold joinSession.
    destruct (MAX_USERS_PER_SESSION <=? _)%nat; [split; reflexivity |].
    destruct (isDuplicateName _ _ _ _); split; reflexivity.
  - intro uid. unfold leaveSession.
    destruct (findIndex _ _); split; reflexivity.
  - intros Hroom Hdup Hfresh.
    destruct (joinSession_accepted toLowerCase session data env Hroom Hdup)
      as (_ & _ & [(i & existing & _ & Hnth & Hid & _) | (_ & Husers)]).
    + exfalso. apply (Hfresh existing); [| exact Hid].
      eapply nth_error_In. exact Hnth.
    + unfold usersAfterJoin in Husers.
      unfold joinSession in *.
      change 8%nat with MAX_USERS_PER_SESSION in Hroom.
      apply Nat.leb_gt in Hroom. rewrite Hroom, Hdup in *.
      cbn [fst snd Session.users] in *.
      unfold leaveSession. cbn [Session.users].
      rewrite Husers.
      rewrite findIndex_app_fresh.
      * cbn [fst]. rewrite removeAt_last. destruct session. reflexivity.
      * intros y Hy. apply String.eqb_neq. apply Hfresh, Hy.
      * apply String.eqb_refl.
Qed.

Lemma join_then_leave_restores_witness :
  fst (leaveSession
         (fst (fst (joinSession toLowerASCII Samples.smallSession
                                (Samples.joinData "u7" "Gus")
                                Samples.sampleEnv)))
         "u7")
  = Samples.smallSession.
Proof.
  apply (proj2 (proj2 (join_then_leave_restores
                         toLowerASCII Samples.smallSession
                         (Samples.joinData "u7" "Gus") Samples.sampleEnv))).
  - simpl. lia.
  - reflexivity.
  - intros u [<- | [<- | []]]; discriminate.
Defined.

(** X13: the cleanup sweep never deletes a session that has participants
    and never changes a session it keeps; it deletes exactly the empty
    sessions whose last update is more than the interval old; a second
    sweep at the same time finds nothing more to do.  Since a disconnect
    does not refresh the time of last update, the session of a socket that
    was its only participant is deleted by the first sweep after the
    disconnect if its content was last updated more than the interval
    ago. *)
Theorem sweep_deletes_stale_empty_sessions interval now st :
  (forall sid,
     sessions (sweep interval now st) sid
     = match sessions st sid with
       | Some session =>
           match Session.users session with
           | [] => if interval <? now - Session.lastUpdated session
                   then None else Some session
           | _ :: _ => Some session
           end
       | None => None
       end) /\
  (forall sid,
     sessions (sweep interval now (sweep interval now st)) sid
     = sessions (sweep interval now st) sid) /\
  (forall sock sid user session,
     joinedAs (sockets st sock) = Some (sid, user) ->
     sessions st sid = Some session ->
     map User.id (Session.users session) = [User.id user] ->
     interval < now - Session.lastUpdated session ->
     sessions (sweep interval now (fst (onDisconnect st sock))) sid = None).
Proof.
  assert (Hpoint : forall st' sid,
            sessions (sweep interval now st') sid
            = match sessions st' sid with
              | Some session =>
                  match Session.users session with
                  | [] => if interval <? now - Session.lastUpdated session
                          then None else Some session
                  | _ :: _ => Some session
                  end
              | None => None
              end).
  { intros st' sid. unfold sweep. simpl.
    destruct (sessions st' sid) as [session |]; [| reflexivity].
    destruct (Session.users session); reflexivity. }
  split; [apply Hpoint |]. split.
  - intro sid. rewrite (Hpoint (sweep interval now st)), (Hpoint st).
    destruct (sessions st sid) as [session |]; [| reflexivity].
    destruct (Session.users session) eqn:Husers.
    + destruct (interval <? now - Session.lastUpdated session) eqn:Hold;
        [reflexivity |].
      rewrite Husers, Hold. reflexivity.
    + rewrite Husers. reflexivity.
  - intros sock sid user session Hjoined Hs Hids Hold.
    rewrite Hpoint. unfold onDisconnect. rewrite Hjoined, Hs.
    unfold leaveSession.
    destruct (Session.users session) as [| u [| u' rest]] eqn:Husers;
      try discriminate.
    simpl in Hids. inversion Hids as [Hid]. simpl.
    rewrite Hid, String.eqb_refl. simpl.
    rewrite update_lookup, String.eqb_refl. simpl.
    apply Z.ltb_lt in Hold. rewrite Hold. reflexivity.
Qed.

Lemma sweep_deletes_stale_empty_sessions_witness :
  sessions (sweep cleanupDefault 4000000
                  (fst (onDisconnect afterBusyDay "socket-a"))) "s1"
  = None /\
  sessions (sweep cleanupDefault 4000000 afterBusyDay) "s1"
  = Some roomAfterBusyDay.
Proof.
  split.
  - apply (proj2 (proj2 (sweep_deletes_stale_empty_sessions
                           cleanupDefault 4000000 afterBusyDay))
             "socket-a"%string "s1"%string
             (User.mk "u1" "Ann" "#4CAF50" active 100
                      (Some "socket-a"%string) None None)
             roomAfterBusyDay); reflexivity.
  - rewrite (proj1 (sweep_deletes_stale_empty_sessions
                      cleanupDefault 4000000 afterBusyDay) "s1"%string).
    reflexivity.
Defined.

End RoundTripProperties.

(** ** Every connect comes to an end *)

Section RetryProperties.
Import Broker Samples.



End RetryProperties.

(** ** The presence sweeps settle *)

Section SettleFacts.
Import JS Peer.

Lemma isIdle_validated now u : isIdle now (validated u) = isIdle now u.
Proof.
  unfold isIdle, validated. simpl.
  destruct (status u); reflexivity.
Qed.

Lemma isIdle_away now u : isIdle now (withStatus AWAY u) = false.
Proof. reflexivity. Qed.

Lemma survivesCleanup_validated now u :
  survivesCleanup now (validated u) = survivesCleanup now u.
Proof.
  unfold survivesCleanup, isTimedOut, validated. simpl.
  destruct (status u); reflexivity.
Qed.

Lemma existsb_false_map {A : Type} (p : A -> bool) (f : A -> A) l :
  (forall x, p (f x) = false) -> existsb p (map f l) = false.
Proof.
  intro H. induction l as [| x rest IH]; simpl; [reflexivity |].
  rewrite H, IH. reflexivity.
Qed.

Lemma filter_all {A : Type} (p : A -> bool) l :
  (forall x, In x l -> p x = true) -> filter p l = l.
Proof.
  induction l as [| x rest IH]; intro H; simpl; [reflexivity |].
  rewrite (H x (or_introl eq_refl)). f_equal.
  apply IH. intros y Hy. apply H. right. exact Hy.
Qed.

(** The list the activity check stores when somebody is idle. *)
Lemma activityCheck_changed now c sid users b :
  existsb (isIdle now) users = true ->
  activityCheck now {| connected := c; sessionId := Some sid;
                       usersItem := Some users; broadcasts := b |}
  = {| connected := c; sessionId := Some sid;
       usersItem :=
         Some (map (fun user => if isIdle now user then withStatus AWAY user
                                else validated user) users);
       broadcasts :=
         b ++ [Sync (map (fun user =>
                            if isIdle now user then withStatus AWAY user
                            else validated user) users)] |}.
Proof.
  intro Hex. unfold activityCheck, getUsers. simpl. rewrite Hex.
  assert (Hmap : map validated
                   (map (fun user => if isIdle now user
                                     then withStatus AWAY user
                                     else validated user) users)
                 = map (fun user => if isIdle now user
                                    then withStatus AWAY user
                                    else validated user) users).
  { rewrite map_map. apply map_ext. intro u.
    destruct (isIdle now u); [reflexivity | apply validated_idem]. }
  unfold saveUsers, broadcastSync, receiveSync, setUsers, logMessage. simpl.
  rewrite !Hmap. reflexivity.
Qed.

End SettleFacts.

Section SettleProperties.
Import JS Peer Samples.

(** X15: the activity check only ever changes statuses: ids, names and
    times of last activity stay in place.  After it nobody in the list is
    idle any more, and running it again at the same time changes nothing
    and broadcasts nothing. *)
Theorem activityCheck_settles now st :
  activityCheck now (activityCheck now st) = activityCheck now st /\
  map id (getUsers (activityCheck now st)) = map id (getUsers st) /\
  map name (getUsers (activityCheck now st)) = map name (getUsers st) /\
  map lastActive (getUsers (activityCheck now st))
  = map lastActive (getUsers st) /\
  existsb (isIdle now) (getUsers (activityCheck now st)) = false.
Proof.
  destruct st as [c [sid |] [users |] b].
  - destruct (existsb (isIdle now) users) eqn:Hex.
    + rewrite (activityCheck_changed now c sid users b Hex).
      assert (Hquiet :
                existsb (isIdle now)
                  (map (fun user => if isIdle now user
                                    then withStatus AWAY user
                                    else validated user) users) = false).
      { apply existsb_false_map. intro u.
        destruct (isIdle now u) eqn:Hu; [reflexivity |].
        rewrite isIdle_validated. exact Hu. }
      split.
      * unfold activityCheck at 1. unfold getUsers. simpl.
        rewrite Hquiet. reflexivity.
      * unfold getUsers. simpl. rewrite !map_map.
        repeat split; try exact Hquiet; apply map_ext; intro u;
          destruct (isIdle now u); reflexivity.
    + assert (Hsame : activityCheck now
                        {| connected := c; sessionId := Some sid;
                           usersItem := Some users; broadcasts := b |}
                      = {| connected := c; sessionId := Some sid;
                           usersItem := Some users; broadcasts := b |}).
      { unfold activityCheck, getUsers. simpl. rewrite Hex. reflexivity. }
      rewrite !Hsame. repeat split. exact Hex.
  - repeat split.
  - repeat split.
  - repeat split.
Qed.

(** X16: after the cleanup everybody left in the list survives the
    cleanup test, and running the cleanup again at the same time changes
    nothing and broadcasts nothing. *)
Theorem cleanupOfflineUsers_settles now st :
  cleanupOfflineUsers now (cleanupOfflineUsers now st)
  = cleanupOfflineUsers now st /\
  (forall u, In u (getUsers (cleanupOfflineUsers now st)) ->
             survivesCleanup now u = true).
Proof.
  destruct st as [c [sid |] [users |] b].
  - unfold cleanupOfflineUsers at 2 3 4. simpl.
    destruct (List.length (filter (survivesCleanup now) users)
              =? List.length users)%nat eqn:Hlen; simpl.
    + apply Nat.eqb_eq, filter_length_eq in Hlen.
      split.
      * unfold cleanupOfflineUsers. simpl. rewrite Hlen, Nat.eqb_refl.
        reflexivity.
      * unfold getUsers. simpl. intros u Hu. rewrite <- Hlen in Hu.
        apply filter_In in Hu. tauto.
    + unfold broadcastSync, receiveSync, setUsers, logMessage. simpl.
      assert (Hkeep : filter (survivesCleanup now)
                        (map validated (filter (survivesCleanup now) users))
                      = map validated (filter (survivesCleanup now) users)).
      { apply filter_all. intros u Hu. apply in_map_iff in Hu.
        destruct Hu as (v & <- & Hv). rewrite survivesCleanup_validated.
        apply filter_In in Hv. tauto. }
      split.
      * unfold cleanupOfflineUsers. simpl. rewrite Hkeep, Nat.eqb_refl.
        reflexivity.
      * unfold getUsers. simpl. intros u Hu. rewrite <- Hkeep in Hu.
        apply filter_In in Hu. tauto.
  - split; [reflexivity | intros u []].
  - split; [reflexivity | intros u []].
  - split; [reflexivity | intros u []].
Qed.

End SettleProperties.

Section HeartbeatProperties.
Import JS Peer Samples.

Lemma cleanupOfflineUsers_settles_witness :
  survivesCleanup
    130000 (validated ann) = true.
Proof.
  apply (proj2 (cleanupOfflineUsers_settles
                  130000 (activityCheck 41000 presenceStart))).
  left. reflexivity.
Defined.

(** The list the heartbeat leaves in the store. *)
Lemma sendHeartbeat_users me now st sid users :
  connected st = true ->
  sessionId st = Some sid ->
  usersItem st = Some users ->
  let kept :=
    filter (fun u => negb (isTimedOut now u))
           (map (fun user => if String.eqb (id user) me
                             then withLastActive (Some now) user else user)
                users) in
  getUsers (sendHeartbeat me now st) = kept \/
  getUsers (sendHeartbeat me now st) = map validated kept.
Proof.
  intros Hconn Hsession Husers kept.
  unfold sendHeartbeat. rewrite Hconn, Hsession, Husers.
  set (refreshed := map (fun user => if String.eqb (id user) me
                                     then withLastActive (Some now) user
                                     else user) users) in *.
  destruct (sweepTimedOut_facts now refreshed st sid Hsession)
    as (Hfst & Hsnd & _ & _).
  destruct (sweepTimedOut now refreshed st) as [activeUsers st1].
  simpl in Hfst, Hsnd. subst activeUsers. fold kept.
  assert (Hs2 : sessionId (setUsers kept st1) = Some sid) by exact Hsnd.
  match goal with
  | |- context [if ?b then _ else _] => destruct b
  end.
  - right. rewrite (broadcastSync_eq _ sid kept Hs2). reflexivity.
  - left. unfold getUsers. rewrite Hs2. reflexivity.
Qed.

(** X17: after the sweep of [sendHeartbeat] on a connected client,
    everybody left in the list has a time of last activity, and it is at
    most OFFLINE_TIMEOUT before the time of the sweep; and the participant
    who sent the heartbeat, if it was in the list, is still in it (at a
    time other than 0). *)
Theorem sendHeartbeat_leaves_fresh_users me now st sid users :
  connected st = true ->
  sessionId st = Some sid ->
  usersItem st = Some users ->
  (forall u, In u (getUsers (sendHeartbeat me now st)) ->
             exists t, lastActive u = Some t /\ t <> 0 /\
                       now - t <= OFFLINE_TIMEOUT) /\
  (now <> 0 -> In me (map id users) ->
   In me (map id (getUsers (sendHeartbeat me now st)))).
Proof.
  intros Hconn Hsession Husers.
  assert (Hfresh : forall u,
            isTimedOut now u = false ->
            exists t, lastActive u = Some t /\ t <> 0 /\
                      now - t <= OFFLINE_TIMEOUT).
  { intros u Hu. unfold isTimedOut in Hu.
    destruct (lastActive u) as [t |]; [| discriminate].
    simpl in Hu. apply orb_false_iff in Hu. destruct Hu as [Hz Hold].
    apply negb_false_iff, negb_true_iff, Z.eqb_neq in Hz.
    apply Z.ltb_ge in Hold. exists t. auto. }
  split.
  - intros u Hu.
    destruct (sendHeartbeat_users me now st sid users Hconn Hsession Husers)
      as [Heq | Heq]; rewrite Heq in Hu.
    + apply filter_In in Hu. destruct Hu as [_ Hu].
      apply Hfresh. apply negb_true_iff, Hu.
    + apply in_map_iff in Hu. destruct Hu as (v & <- & Hv).
      apply filter_In in Hv. destruct Hv as [_ Hv].
      destruct (Hfresh v) as (t & Ht); [apply negb_true_iff, Hv |].
      exists t. exact Ht.
  - intros Hnow Hin.
    destruct (sendHeartbeat_facts me now st sid users Hconn Hsession Husers)
      as (Hids & _).
    rewrite Hids.
    apply in_map_iff in Hin. destruct Hin as (u & Hid & Hu).
    apply in_map_iff. exists (withLastActive (Some now) u).
    split; [exact Hid |].
    apply filter_In. split.
    + apply in_map_iff. exists u. split; [| exact Hu].
      rewrite Hid, String.eqb_refl. reflexivity.
    + unfold isTimedOut. simpl.
      destruct (Z.eqb_spec now 0); [contradiction |].
      simpl. rewrite Z.sub_diag. reflexivity.
Qed.

Lemma sendHeartbeat_leaves_fresh_users_witness :
  (exists t, lastActive (withLastActive (Some 310000) ann) = Some t /\
             t <> 0 /\ 310000 - t <= OFFLINE_TIMEOUT) /\
  In "ann"%string
     (map id (getUsers (sendHeartbeat "ann" 310000 presenceStart))).
Proof.
  destruct (sendHeartbeat_leaves_fresh_users
              "ann" 310000 presenceStart "s1" [ann; bob]
              eq_refl eq_refl eq_refl) as (Hfresh & Hme).
  split.
  - apply Hfresh. left. reflexivity.
  - apply Hme; [discriminate | left; reflexivity].
Defined.

(** X18: the two heartbeat paths treat an Away participant differently.
    The handler of a [heartbeat] message, [updateUserLastActive], refreshes
    the time of every entry of the sender and turns Away into Online;
    [sendHeartbeat] refreshes the time and leaves the status Away. *)
Theorem heartbeat_paths_differ_on_away me now st sid users u :
  connected st = true ->
  sessionId st = Some sid ->
  usersItem st = Some users ->
  In u users -> id u = me -> status u = AWAY -> now <> 0 ->
  In (withStatus ONLINE (withLastActive (Some now) u))
     (getUsers (updateUserLastActive me now st)) /\
  (forall v, In v (getUsers (updateUserLastActive me now st)) ->
             id v = me -> status v <> AWAY /\ lastActive v = Some now) /\
  In (withLastActive (Some now) u) (getUsers (sendHeartbeat me now st)).
Proof.
  intros Hconn Hsession Husers Hin Hid Haway Hnow.
  assert (Hex : existsb (fun v => String.eqb (id v) me) users = true).
  { apply existsb_exists. exists u. split; [exact Hin |].
    apply String.eqb_eq, Hid. }
  assert (Hupd : getUsers (updateUserLastActive me now st)
                 = map validated
                     (map (fun user =>
                             if String.eqb (id user) me then
                               withStatus
                                 (match status user with
                                  | AWAY => ONLINE
                                  | s => s
                                  end)
                                 (withLastActive (Some now) user)
                             else user) users)).
  { unfold updateUserLastActive. rewrite Hsession, Husers, Hex.
    match goal with
    | |- context [broadcastSync ?l (setUsers ?l st)] =>
        rewrite (broadcastSync_eq (setUsers l st) sid l Hsession)
    end.
    reflexivity. }
  split; [| split].
  - rewrite Hupd. apply in_map_iff.
    exists (withStatus ONLINE (withLastActive (Some now) u)).
    split; [reflexivity |].
    apply in_map_iff. exists u. split; [| exact Hin].
    rewrite Hid, String.eqb_refl, Haway. reflexivity.
  - intros v Hv Hvid. rewrite Hupd in Hv.
    apply in_map_iff in Hv. destruct Hv as (w & <- & Hw).
    apply in_map_iff in Hw. destruct Hw as (x & <- & Hx).
    simpl in Hvid.
    destruct (String.eqb (id x) me) eqn:Hxid.
    + simpl. split; [| reflexivity].
      destruct (status x); simpl; discriminate.
    + simpl in Hvid. apply String.eqb_neq in Hxid. contradiction.
  - destruct (sendHeartbeat_users me now st sid users Hconn Hsession Husers)
      as [Heq | Heq]; rewrite Heq.
    + apply filter_In. split.
      * apply in_map_iff. exists u. split; [| exact Hin].
        rewrite Hid, String.eqb_refl. reflexivity.
      * unfold isTimedOut. simpl.
        destruct (Z.eqb_spec now 0); [contradiction |].
        simpl. rewrite Z.sub_diag. reflexivity.
    + apply in_map_iff. exists (withLastActive (Some now) u). split.
      * unfold validated. simpl. rewrite Haway. simpl.
        clear - Haway. destruct u. simpl in Haway. subst. reflexivity.
      * apply filter_In. split.
        -- apply in_map_iff. exists u. split; [| exact Hin].
           rewrite Hid, String.eqb_refl. reflexivity.
        -- unfold isTimedOut. simpl.
           destruct (Z.eqb_spec now 0); [contradiction |].
           simpl. rewrite Z.sub_diag. reflexivity.
Qed.

Lemma heartbeat_paths_differ_on_away_witness :
  In (withStatus ONLINE (withLastActive (Some 50000) (withStatus AWAY bob)))
     (getUsers (updateUserLastActive
                  "bob" 50000 (activityCheck 41000 presenceStart))) /\
  In (withLastActive (Some 50000) (withStatus AWAY bob))
     (getUsers (sendHeartbeat
                  "bob" 50000 (activityCheck 41000 presenceStart))).
Proof.
  destruct (heartbeat_paths_differ_on_away
              "bob" 50000 (activityCheck 41000 presenceStart) "s1"
              [validated ann; withStatus AWAY bob] (withStatus AWAY bob)
              eq_refl eq_refl eq_refl
              (or_intror (or_introl eq_refl)) eq_refl eq_refl
              ltac:(discriminate))
    as (Hmsg & _ & Hsend).
  split; [exact Hmsg | exact Hsend].
Defined.

End HeartbeatProperties.

(** ** The stored user list of the local-storage client *)

Section UserListFacts.
Import JS Peer PeerMore.




Lemma forallb_false_exists {A : Type} (p : A -> bool) (l : list A) :
  forallb p l = false -> exists x, In x l /\ p x = false.
Proof.
  induction l as [| x rest IH]; simpl; [discriminate |].
  destruct (p x) eqn:Hx; simpl.
  - intro H. destruct (IH H) as (y & Hy & Hpy). exists y. auto.
  - intros _. exists x. auto.
Qed.

Lemma NoDup_map_injective {A B : Type} (f : A -> B) (l : list A) :
  (forall a b, f a = f b -> a = b) -> NoDup l -> NoDup (map f l).
Proof.
  intros Hinj. induction 1 as [| x rest Hnotin _ IH]; simpl; constructor.
  - intro H. apply in_map_iff in H. destruct H as (y & Hy & Hin).
    apply Hinj in Hy. subst y. contradiction.
  - exact IH.
Qed.

Variable nameOf : nat -> string.
Hypothesis nameOf_injective : forall a b, nameOf a = nameOf b -> a = b.

(** Among more candidates than there are users, one is free. *)
Lemma some_name_is_free users counter :
  exists k, (counter <= k < counter + S (List.length users))%nat /\
            taken nameOf users k = false.
Proof.
  destruct (forallb (taken nameOf users) (seq counter (S (List.length users))))
    eqn:Hall.
  - exfalso.
    assert (Hincl : incl (map nameOf (seq counter (S (List.length users))))
                         (map name users)).
    { intros n Hn. apply in_map_iff in Hn. destruct Hn as (k & <- & Hk).
      rewrite forallb_forall in Hall. specialize (Hall k Hk).
      unfold taken in Hall. apply existsb_exists in Hall.
      destruct Hall as (u & Hu & Heq). apply String.eqb_eq in Heq.
      rewrite <- Heq. apply in_map, Hu. }
    apply NoDup_incl_length in Hincl.
    + rewrite !length_map, length_seq in Hincl. lia.
    + apply NoDup_map_injective; [exact nameOf_injective | apply seq_NoDup].
  - apply forallb_false_exists in Hall. destruct Hall as (k & Hk & Hfree).
    apply in_seq in Hk. exists k. split; [lia | exact Hfree].
Qed.

Lemma probe_finds users : forall fuel counter,
  (exists k, (counter <= k < counter + fuel)%nat /\ taken nameOf users k = false) ->
  exists k,
    (counter <= k < counter + fuel)%nat /\
    probe nameOf fuel users counter = Some (nameOf k, S k) /\
    taken nameOf users k = false /\
    forall j, (counter <= j < k)%nat -> taken nameOf users j = true.
Proof.
  induction fuel as [| fuel IH]; intros counter (k & Hk & Hfree).
  - lia.
  - simpl. fold (taken nameOf users counter).
    destruct (taken nameOf users counter) eqn:Hc.
    + destruct (IH (S counter)) as (k' & Hk' & Hprobe & Hfree' & Hbefore).
      * exists k. split; [| exact Hfree].
        assert (k <> counter) by congruence. lia.
      * exists k'. split; [lia |]. split; [exact Hprobe |].
        split; [exact Hfree' |].
        intros j Hj. destruct (Nat.eq_dec j counter) as [-> | Hne];
          [exact Hc | apply Hbefore; lia].
    + exists counter. split; [lia |]. split; [reflexivity |].
      split; [exact Hc |]. intros j Hj. lia.
Qed.

End UserListFacts.

Section UserListProperties.
Import JS Peer PeerMore PeerScenarios.

(** X19: [generateUserName] always finds a name, within one round more
    than there are users: the name is the one of the first counter, from the
    stored one on, that no user has; no user has it; and the counter it
    saves is the next one.  (The names of distinct counters are
    distinct.) *)
Theorem generateUserName_is_fresh
    (nameOf : nat -> string) users storedCounter :
  (forall a b, nameOf a = nameOf b -> a = b) ->
  exists k,
    generateUserName nameOf users storedCounter = Some (nameOf k, S k) /\
    (match storedCounter with Some c => c | None => 1%nat end <= k
     <= match storedCounter with Some c => c | None => 1%nat end
        + List.length users)%nat /\
    (forall u, In u users -> name u <> nameOf k) /\
    (forall j,
       (match storedCounter with Some c => c | None => 1%nat end <= j < k)%nat ->
       exists u, In u users /\ name u = nameOf j).
Proof.
  intro Hinj. unfold generateUserName.
  set (c := match storedCounter with Some c => c | None => 1%nat end).
  destruct (probe_finds nameOf users (S (List.length users)) c
                        (some_name_is_free nameOf Hinj users c))
    as (k & Hk & Hprobe & Hfree & Hbefore).
  exists k. split; [exact Hprobe |]. split; [lia |]. split.
  - intros u Hu Hname. unfold taken in Hfree.
    assert (Htaken : existsb (fun user => String.eqb (name user) (nameOf k))
                             users = true).
    { apply existsb_exists. exists u. split; [exact Hu |].
      apply String.eqb_eq, Hname. }
    congruence.
  - intros j Hj. specialize (Hbefore j Hj). unfold taken in Hbefore.
    apply existsb_exists in Hbefore. destruct Hbefore as (u & Hu & Heq).
    exists u. split; [exact Hu | apply String.eqb_eq, Heq].
Qed.

Lemma append_injective prefix a b :
  String.append prefix a = String.append prefix b -> a = b.
Proof.
  induction prefix as [| ch rest IH]; simpl; intro H; [exact H |].
  inversion H. apply IH. assumption.
Qed.

Lemma decimalName_injective a b : decimalName a = decimalName b -> a = b.
Proof.
  unfold decimalName. intro H. apply append_injective in H.
  assert (Hu : Some (Nat.to_uint a) = Some (Nat.to_uint b)).
  { rewrite <- !NilEmpty.usu. rewrite H. reflexivity. }
  inversion Hu as [Huint].
  rewrite <- (DecimalNat.Unsigned.of_to a), <- (DecimalNat.Unsigned.of_to b).
  rewrite Huint. reflexivity.
Qed.

Lemma generateUserName_is_fresh_witness :
  exists k,
    generateUserName decimalName namedUsers None
    = Some (decimalName k, S k) /\
    k = 3%nat /\
    forall u, In u namedUsers -> name u <> decimalName k.
Proof.
  destruct (generateUserName_is_fresh decimalName namedUsers None
                                      decimalName_injective)
    as (k & Hgen & Hrange & Hfresh & _).
  exists k. split; [exact Hgen |]. split; [| exact Hfresh].
  vm_compute in Hgen. simpl in Hrange.
  destruct k as [| [| [| [| k]]]]; try lia; try reflexivity;
    vm_compute in Hgen; discriminate.
Defined.



End UserListProperties.

Section JoinDeliveryProperties.
Import JS Peer PeerMore PeerScenarios.

Lemma findIndex_of_member (users : list User) (i : string) :
  In i (map id users) ->
  exists k x,
    Server.findIndex (fun u => String.eqb (id u) i) users = Some k /\
    nth_error users k = Some x /\ id x = i.
Proof.
  intro Hin.
  destruct (Server.findIndex (fun u => String.eqb (id u) i) users)
    as [k |] eqn:Hfind.
  - destruct (findIndex_Some _ _ _ Hfind) as (x & Hnth & Hx).
    exists k, x. split; [reflexivity |]. split; [exact Hnth |].
    apply String.eqb_eq, Hx.
  - exfalso. apply in_map_iff in Hin. destruct Hin as (u & Hid & Hu).
    pose proof (proj1 (findIndex_None _ _) Hfind u Hu) as Hno.
    apply String.eqb_neq in Hno. contradiction.
Qed.

Lemma truthyId_Some (s : string) :
  s <> EmptyString -> truthyId (Some s) = true.
Proof.
  intro H. unfold truthyId. apply negb_true_iff, String.eqb_neq, H.
Qed.

(** The ids [updateLocalUserList] stores for a complete user. *)
Lemma updateLocalUserList_ids user now st sid i n c :
  sessionId st = Some sid ->
  pid user = Some i -> i <> EmptyString ->
  pname user = Some n -> n <> EmptyString ->
  pcolor user = Some c -> c <> EmptyString ->
  map id (getUsers (updateLocalUserList user true now st))
  = if existsb (String.eqb i) (map id (storedUsers st))
    then map id (storedUsers st)
    else map id (storedUsers st) ++ [i].
Proof.
  intros Hsession Hi Hine Hn Hnne Hc Hcne.
  unfold updateLocalUserList. rewrite Hsession, Hi, Hn, Hc.
  rewrite !truthyId_Some by assumption. cbn [andb Relay.userIdOf].
  match goal with
  | |- context [broadcastSync ?l (setUsers ?l st)] =>
      rewrite (broadcastSync_eq (setUsers l st) sid l Hsession)
  end.
  unfold getUsers. cbn [sessionId usersItem]. rewrite map_id_validated.
  destruct (existsb (String.eqb i) (map id (storedUsers st))) eqn:Hex.
  - apply existsb_exists in Hex. destruct Hex as (j & Hj & Heq).
    apply String.eqb_eq in Heq. subst j.
    destruct (findIndex_of_member _ _ Hj) as (k & x & Hfind & Hnth & Hx).
    rewrite Hfind.
    apply (map_setAt id _ x); [exact Hnth |]. simpl. symmetry. exact Hx.
  - assert (Hnone : Server.findIndex (fun u => String.eqb (id u) i)
                                     (storedUsers st) = None).
    { apply findIndex_None. intros u Hu.
      apply String.eqb_neq. intro Hid.
      assert (Hin : existsb (String.eqb i) (map id (storedUsers st)) = true).
      { apply existsb_exists. exists (id u). split; [apply in_map, Hu |].
        apply String.eqb_eq. symmetry. exact Hid. }
      congruence. }
    rewrite Hnone, map_app. reflexivity.
Qed.

(** X21: the handler of a [join] message stores the joining user once.
    A complete user whose id is new is appended; one whose id is in the
    list replaces the entry in place; so delivering the same [join] again,
    at any time, leaves the ids of the list as they are.  The handler has
    no capacity check: a new id is appended however many users the list
    holds. *)
Theorem join_delivery_adds_once user now st sid i n c :
  sessionId st = Some sid ->
  pid user = Some i -> i <> EmptyString ->
  pname user = Some n -> n <> EmptyString ->
  pcolor user = Some c -> c <> EmptyString ->
  In i (map id (getUsers (updateLocalUserList user true now st))) /\
  (forall later,
     map id (getUsers (updateLocalUserList
                         user true later
                         (updateLocalUserList user true now st)))
     = map id (getUsers (updateLocalUserList user true now st))) /\
  (~ In i (map id (storedUsers st)) ->
   map id (getUsers (updateLocalUserList user true now st))
   = map id (storedUsers st) ++ [i]) /\
  (In i (map id (storedUsers st)) ->
   map id (getUsers (updateLocalUserList user true now st))
   = map id (storedUsers st)).
Proof.
  intros Hsession Hi Hine Hn Hnne Hc Hcne.
  pose proof (updateLocalUserList_ids user now st sid i n c
                Hsession Hi Hine Hn Hnne Hc Hcne) as Hids.
  assert (Hin : In i (map id (getUsers (updateLocalUserList user true now st)))).
  { rewrite Hids.
    destruct (existsb (String.eqb i) (map id (storedUsers st))) eqn:Hex.
    - apply existsb_exists in Hex. destruct Hex as (j & Hj & Heq).
      apply String.eqb_eq in Heq. subst j. exact Hj.
    - apply in_or_app. right. left. reflexivity. }
  split; [exact Hin |]. split; [| split].
  - intro later.
    assert (Hs1 : sessionId (updateLocalUserList user true now st) = Some sid).
    { unfold updateLocalUserList. rewrite Hsession.
      match goal with
      | |- context [broadcastSync ?l (setUsers ?l st)] =>
          rewrite (broadcastSync_eq (setUsers l st) sid l Hsession)
      end.
      reflexivity. }
    rewrite (updateLocalUserList_ids user later _ sid i n c
               Hs1 Hi Hine Hn Hnne Hc Hcne).
    assert (Hstored : storedUsers (updateLocalUserList user true now st)
                      = getUsers (updateLocalUserList user true now st)).
    { unfold getUsers, storedUsers. rewrite Hs1. reflexivity. }
    rewrite Hstored.
    assert (Hex : existsb (String.eqb i)
                    (map id (getUsers (updateLocalUserList user true now st)))
                  = true).
    { apply existsb_exists. exists i. split; [exact Hin |].
      apply String.eqb_refl. }
    rewrite Hex. reflexivity.
  - intro Hnew. rewrite Hids.
    destruct (existsb (String.eqb i) (map id (storedUsers st))) eqn:Hex;
      [| reflexivity].
    apply existsb_exists in Hex. destruct Hex as (j & Hj & Heq).
    apply String.eqb_eq in Heq. subst j. contradiction.
  - intro Hold. rewrite Hids.
    assert (Hex : existsb (String.eqb i) (map id (storedUsers st)) = true).
    { apply existsb_exists. exists i. split; [exact Hold |].
      apply String.eqb_refl. }
    rewrite Hex. reflexivity.
Qed.

Lemma join_delivery_adds_once_witness :
  List.length (getUsers (updateLocalUserList newcomer true 9000 fullStore))
  = 9%nat /\
  map id (getUsers (updateLocalUserList
                      newcomer true 9500
                      (updateLocalUserList newcomer true 9000 fullStore)))
  = map id eightMembers ++ ["u9"%string].
Proof.
  destruct (join_delivery_adds_once
              newcomer 9000 fullStore "s1" "u9" "Ivy" "#FF5722"
              eq_refl eq_refl ltac:(discriminate)
              eq_refl ltac:(discriminate) eq_refl ltac:(discriminate))
    as (_ & Hagain & Hnew & _).
  assert (Hfresh : ~ In "u9"%string (map id (storedUsers fullStore))).
  { simpl. intuition discriminate. }
  split.
  - rewrite <- (length_map id), (Hnew Hfresh). reflexivity.
  - rewrite (Hagain 9500), (Hnew Hfresh). reflexivity.
Defined.

(** X22: [syncUsers] puts the client itself back at the end of the stored
    list when it is missing, without a capacity check, and leaves the ids
    of the list alone when it is there. *)
Theorem syncUsers_restores_self userId userName userColor now st sid :
  sessionId st = Some sid ->
  userId <> EmptyString -> userName <> EmptyString ->
  (~ In userId (map id (storedUsers st)) ->
   map id (getUsers (syncUsers userId userName userColor now st))
   = map id (storedUsers st) ++ [userId]) /\
  (In userId (map id (storedUsers st)) ->
   map id (getUsers (syncUsers userId userName userColor now st))
   = map id (storedUsers st)).
Proof.
  intros Hsession Hid Hname.
  unfold syncUsers. rewrite Hsession.
  rewrite !truthyId_Some by assumption. cbn [andb].
  split.
  - intro Hnew.
    assert (Hex : existsb (fun u => String.eqb (id u) userId) (storedUsers st)
                  = false).
    { destruct (existsb (fun u => String.eqb (id u) userId) (storedUsers st))
        eqn:Hex; [| reflexivity].
      apply existsb_exists in Hex. destruct Hex as (u & Hu & Heq).
      apply String.eqb_eq in Heq. exfalso. apply Hnew.
      rewrite <- Heq. apply in_map, Hu. }
    rewrite Hex.
    match goal with
    | |- context [broadcastSync ?l (setUsers ?l st)] =>
        rewrite (broadcastSync_eq (setUsers l st) sid l Hsession)
    end.
    unfold getUsers. cbn [sessionId usersItem].
    rewrite map_id_validated, map_app. reflexivity.
  - intro Hold.
    assert (Hex : existsb (fun u => String.eqb (id u) userId) (storedUsers st)
                  = true).
    { apply in_map_iff in Hold. destruct Hold as (u & Heq & Hu).
      apply existsb_exists. exists u. split; [exact Hu |].
      apply String.eqb_eq, Heq. }
    rewrite Hex. rewrite (broadcastSync_eq st sid _ Hsession).
    unfold getUsers. cbn [sessionId usersItem].
    apply map_id_validated.
Qed.

Lemma syncUsers_restores_self_witness :
  List.length (getUsers (syncUsers "u9" "Ivy" "#FF5722" 9000 fullStore))
  = 9%nat.
Proof.
  rewrite <- (length_map id).
  rewrite (proj1 (syncUsers_restores_self
                    "u9" "Ivy" "#FF5722" 9000 fullStore "s1"
                    eq_refl ltac:(discriminate) ltac:(discriminate))).
  - reflexivity.
  - simpl. intuition discriminate.
Defined.

End JoinDeliveryProperties.

(** ** Positions out of range, and undoing an insert *)

Section EdgeProperties.
Import JS Collab Stated Samples.

(** X23: positions are not checked, they are clamped.  An insert at or
    before 0 prepends and one at or past the end appends.  A delete of a
    positive length that starts at or past the end, or that ends at or
    before 0, changes nothing; one that runs past the end cuts the content
    at its position.  A delete with a negative length removes nothing: it
    repeats the [-length] characters before its position. *)
Theorem out_of_range_positions_are_clamped content operation p :
  Op.position operation = Some p ->
  (forall t,
     Op.type operation = insert -> Op.text operation = Some t ->
     (p <= 0 -> applyOperation content operation = t ++ content) /\
     (Z.of_nat (List.length content) <= p ->
      applyOperation content operation = content ++ t)) /\
  (forall n,
     Op.type operation = delete -> Op.length operation = Some n ->
     (0 < n -> Z.of_nat (List.length content) <= p ->
      applyOperation content operation = content) /\
     (0 < n -> p + n <= 0 -> applyOperation content operation = content) /\
     (0 <= p -> Z.of_nat (List.length content) <= p + n ->
      n <> 0 ->
      applyOperation content operation = firstn (Z.to_nat p) content) /\
     (n < 0 -> 0 <= p + n -> p <= Z.of_nat (List.length content) ->
      applyOperation content operation
      = firstn (Z.to_nat p) content
          ++ firstn (Z.to_nat (- n)) (skipn (Z.to_nat (p + n)) content)
          ++ skipn (Z.to_nat p) content /\
      List.length (applyOperation content operation)
      = (List.length content + Z.to_nat (- n))%nat)).
Proof.
  intro Hp. split.
  - intros t Hty Ht.
    rewrite (applyOperation_insert content operation t p Hty Ht Hp).
    unfold spliceAt. split; intro Hrange.
    + replace (Z.to_nat p) with O by lia. reflexivity.
    + rewrite firstn_all2, skipn_all2 by lia. rewrite app_nil_r.
      reflexivity.
  - intros n Hty Hn.
    assert (Hraw : n <> 0 ->
                   applyOperation content operation
                   = firstn (Z.to_nat p) content
                       ++ skipn (Z.to_nat (p + n)) content).
    { intro Hnz. unfold applyOperation. rewrite Hty, Hn, Hp.
      unfold truthyNum. destruct (Z.eqb_spec n 0); [contradiction |].
      simpl. rewrite substring2_prefix, substring1_suffix. reflexivity. }
    split; [| split; [| split]].
    + intros Hpos Hrange. rewrite Hraw by lia.
      rewrite firstn_all2, skipn_all2 by lia. apply app_nil_r.
    + intros Hpos Hrange. rewrite Hraw by lia.
      replace (Z.to_nat p) with O by lia.
      replace (Z.to_nat (p + n)) with O by lia. reflexivity.
    + intros Hlow Hrange Hnz. rewrite Hraw by assumption.
      rewrite skipn_all2 by lia. apply app_nil_r.
    + intros Hneg Hlow Hhigh. rewrite Hraw by lia.
      assert (Hsplit : skipn (Z.to_nat (p + n)) content
                       = firstn (Z.to_nat (- n))
                                (skipn (Z.to_nat (p + n)) content)
                           ++ skipn (Z.to_nat p) content).
      { rewrite <- (firstn_skipn (Z.to_nat (- n))
                                 (skipn (Z.to_nat (p + n)) content)) at 1.
        rewrite skipn_skipn. f_equal. f_equal. lia. }
      split.
      * rewrite Hsplit at 1. reflexivity.
      * rewrite length_app, length_firstn, length_skipn. lia.
Qed.

Lemma out_of_range_positions_are_clamped_witness :
  applyOperation (str "abc") (insertOp "u1" 99 "Z") = str "abcZ" /\
  applyOperation (str "abc") (deleteOp "u1" 1 99) = str "a" /\
  applyOperation (str "abc") (deleteOp "u1" 2 (-1)) = str "abbc".
Proof.
  split; [| split].
  - apply (proj2 (proj1 (out_of_range_positions_are_clamped
                           (str "abc") (insertOp "u1" 99 "Z") 99 eq_refl)
                        (str "Z") eq_refl eq_refl)).
    simpl. lia.
  - refine (proj1 (proj2 (proj2
             (proj2 (out_of_range_positions_are_clamped
                       (str "abc") (deleteOp "u1" 1 99) 1 eq_refl)
                    99 eq_refl eq_refl))) _ _ _);
      simpl; lia.
  - refine (proj1 (proj2 (proj2 (proj2
             (proj2 (out_of_range_positions_are_clamped
                       (str "abc") (deleteOp "u1" 2 (-1)) 2 eq_refl)
                    (-1) eq_refl eq_refl))) _ _ _));
      simpl; lia.
Defined.

(** X24: a delete of the inserted length at the same position undoes an
    insert, as long as the position lies inside the content. *)
Theorem delete_undoes_insert content insertion deletion p t :
  Op.type insertion = insert ->
  Op.text insertion = Some t ->
  Op.position insertion = Some p ->
  Op.type deletion = delete ->
  Op.length deletion = Some (Z.of_nat (List.length t)) ->
  Op.position deletion = Some p ->
  0 <= p <= Z.of_nat (List.length content) ->
  applyOperation (applyOperation content insertion) deletion = content.
Proof.
  intros Hi Ht Hip Hd Hn Hdp Hrange.
  rewrite (applyOperation_insert content insertion t p Hi Ht Hip).
  destruct t as [| ch rest].
  - rewrite spliceAt_nil.
    unfold applyOperation. rewrite Hd, Hn, Hdp. reflexivity.
  - unfold applyOperation. rewrite Hd, Hn, Hdp.
    cbn [truthyNum]. replace (Z.of_nat (List.length (ch :: rest)) =? 0)
      with false by (symmetry; apply Z.eqb_neq; simpl; lia).
    cbn [negb]. rewrite substring2_prefix, substring1_suffix.
    unfold spliceAt.
    assert (Hlen : List.length (firstn (Z.to_nat p) content) = Z.to_nat p)
      by (rewrite length_firstn; lia).
    rewrite firstn_app, Hlen, Nat.sub_diag, firstn_O, app_nil_r.
    rewrite firstn_firstn, Nat.min_id.
    rewrite skipn_app, Hlen.
    rewrite (skipn_all2 (firstn (Z.to_nat p) content)) by lia.
    replace (Z.to_nat (p + Z.of_nat (List.length (ch :: rest)))
             - Z.to_nat p)%nat
      with (List.length (ch :: rest)) by lia.
    rewrite skipn_app, skipn_all, Nat.sub_diag. simpl.
    apply firstn_skipn.
Qed.

Lemma delete_undoes_insert_witness :
  applyOperation
    (applyOperation (str "hello") (insertOp "u1" 2 "XY"))
    (deleteOp "u1" 2 2)
  = str "hello".
Proof.
  apply (delete_undoes_insert
           (str "hello") (insertOp "u1" 2 "XY") (deleteOp "u1" 2 2)
           2 (str "XY")); try reflexivity.
  simpl. lia.
Defined.

End EdgeProperties.
